(** * EKSImageDeployer: service resolution, cluster reads and the deploy workflow

    A shallow embedding of the two variants of the deployer's [main] package
    that the repository carries:
    - [MainGo]  embeds [src/main.go];
    - [Part001] embeds [src/unnamed/part_001].

    Go strings are byte strings ([string]), Go maps are finite maps ([gmap]),
    the unspecified iteration order of [for k, v := range m] is a parameter
    [range_], and every interaction with the outside world (the [kubectl]
    subprocess, standard input, the log file, standard output) is recorded as
    an [Event] in the trace of a small state-and-trace monad. *)

From Stdlib Require Import Ascii String.
From stdpp Require Import gmap strings list fin_maps sorting.

Open Scope string_scope.

(** ** Go's [strings] package, as far as the program uses it *)

Module strings.

Definition comma : ascii := ","%char.
Definition colon : ascii := ":"%char.
Definition tab : ascii := "009"%char.
Definition newline : ascii := "010"%char.

(** [strings.Split(s, sep)] for a one-byte separator, which is what every
    call site passes.  The result is never empty: [Split "" sep = [""]]. *)
Fixpoint Split (s : string) (sep : ascii) : list string :=
  match s with
  | EmptyString => [EmptyString]
  | String c rest =>
      if Ascii.eqb c sep then EmptyString :: Split rest sep
      else match Split rest sep with
           | [] => [String c EmptyString]
           | tok :: toks => String c tok :: toks
           end
  end.

(** [strings.Join(elems, sep)]. *)
Fixpoint Join (elems : list string) (sep : string) : string :=
  match elems with
  | [] => ""
  | [e] => e
  | e :: rest => e ++ sep ++ Join rest sep
  end.

Definition byte (c : ascii) : N := N_of_ascii c.

(** The six ASCII white-space bytes of Go's [asciiSpace] table. *)
Definition asciiSpace (c : ascii) : bool :=
  bool_decide (byte c ∈ [9; 10; 11; 12; 13; 32]%N).

(** UTF-8 encodings of the non-ASCII code points of [unicode.IsSpace]:
    U+0085, U+00A0 (two bytes) and U+1680, U+2000..U+200A, U+2028, U+2029,
    U+202F, U+205F, U+3000 (three bytes). *)
Definition space2 (c1 c2 : ascii) : bool :=
  bool_decide (byte c1 = 194%N ∧ byte c2 ∈ [133; 160]%N).

Definition space3 (c1 c2 c3 : ascii) : bool :=
  bool_decide
    ((byte c1 = 225 ∧ byte c2 = 154 ∧ byte c3 = 128)
     ∨ (byte c1 = 226 ∧ byte c2 = 128
        ∧ ((128 ≤ byte c3 ∧ byte c3 ≤ 138) ∨ byte c3 ∈ [168; 169; 175]))
     ∨ (byte c1 = 226 ∧ byte c2 = 129 ∧ byte c3 = 159)
     ∨ (byte c1 = 227 ∧ byte c2 = 128 ∧ byte c3 = 128))%N.

(** Drop leading white-space runes. *)
Fixpoint trimLeft (l : list ascii) : list ascii :=
  match l with
  | [] => []
  | c1 :: r1 =>
      if asciiSpace c1 then trimLeft r1 else
      match r1 with
      | [] => l
      | c2 :: r2 =>
          if space2 c1 c2 then trimLeft r2 else
          match r2 with
          | [] => l
          | c3 :: r3 => if space3 c1 c2 c3 then trimLeft r3 else l
          end
      end
  end.

(** The same on the reversed byte list, for trailing white space. *)
Fixpoint trimLeftRev (l : list ascii) : list ascii :=
  match l with
  | [] => []
  | c1 :: r1 =>
      if asciiSpace c1 then trimLeftRev r1 else
      match r1 with
      | [] => l
      | c2 :: r2 =>
          if space2 c2 c1 then trimLeftRev r2 else
          match r2 with
          | [] => l
          | c3 :: r3 => if space3 c3 c2 c1 then trimLeftRev r3 else l
          end
      end
  end.

(** [strings.TrimSpace(s)]. *)
Definition TrimSpace (s : string) : string :=
  string_of_list_ascii
    (rev (trimLeftRev (rev (trimLeft (list_ascii_of_string s))))).

Definition lowerByte (c : ascii) : ascii :=
  if bool_decide (65 ≤ byte c ∧ byte c ≤ 90)%N then ascii_of_N (byte c + 32) else c.

(** [strings.ToLower(s)] on the bytes of [s].  It agrees with Go on ASCII
    input; no non-ASCII rune lower-cases to the letter y, so the comparison
    [ToLower response == "y"] of [confirmDeploy] is decided alike. *)
Fixpoint ToLower (s : string) : string :=
  match s with
  | EmptyString => EmptyString
  | String c rest => String (lowerByte c) (ToLower rest)
  end.

(** [strings.ReplaceAll(s, old, new)] for a non-empty [old]: [skip] counts
    the bytes of a match that are still to be dropped. *)
Fixpoint replaceFrom (old new : string) (skip : nat) (s : string) : string :=
  match s with
  | EmptyString => EmptyString
  | String c rest =>
      match skip with
      | S k => replaceFrom old new k rest
      | O =>
          if String.prefix old s
          then new ++ replaceFrom old new (String.length old - 1) rest
          else String c (replaceFrom old new 0 rest)
      end
  end.

Definition ReplaceAll (s old new : string) : string := replaceFrom old new 0 s.

(** [strings.HasSuffix(s, suffix)]. *)
Definition HasSuffix (s suffix : string) : bool :=
  bool_decide (list_ascii_of_string suffix `suffix_of` list_ascii_of_string s).

(** [strings.Contains(s, substr)]. *)
Fixpoint Contains (s substr : string) : bool :=
  String.prefix substr s
  || match s with
     | EmptyString => false
     | String _ rest => Contains rest substr
     end.

(** [s] up to its first [sep] and what follows that [sep], when [s] holds
    one. *)
Fixpoint cut (s : string) (sep : ascii) : option (string * string) :=
  match s with
  | EmptyString => None
  | String c rest =>
      if Ascii.eqb c sep then Some (EmptyString, rest)
      else match cut rest sep with
           | Some (before, after) => Some (String c before, after)
           | None => None
           end
  end.

(** [strings.SplitN(s, sep, n)] for a one-byte separator and [n >= 0]: at
    most [n] parts, the last one being the unsplit remainder. *)
Fixpoint SplitN (s : string) (sep : ascii) (n : nat) : list string :=
  match n with
  | O => []
  | S O => [s]
  | S n' =>
      match cut s sep with
      | Some (before, after) => before :: SplitN after sep n'
      | None => [s]
      end
  end.

End strings.

(** ** Go's [sort] package *)

Module sort.

(** [sort.Strings]: ascending byte-wise order. *)
Definition Strings (l : list string) : list string :=
  merge_sort (λ a b : string, Is_true (String.leb a b)) l.

End sort.

(** ** Configuration documents (the same in both variants) *)

Record Environment := { Context : string; Registry : string; Namespace : string }.

Record Config := { Environments : gmap string Environment }.

Module ServiceInfo.
Record t := { Enabled : bool; Version : string }.
End ServiceInfo.

Module ServiceGroup.
Record t := { Enabled : bool; Version : string; Services : list string }.
End ServiceGroup.

Record ServiceConfig := {
  SingleServices : gmap string ServiceInfo.t;
  ServiceGroups : gmap string ServiceGroup.t
}.

(** The [Service] struct; its [logFile] and [logger] fields are the log sink,
    which the trace below stands for. *)
Record Service := { config : Config; services : ServiceConfig }.

(** A Go [error] value: [None] is [nil], [Some msg] carries [err.Error()]. *)
Definition error := option string.

(** ** The outside world

    What the program does to its environment is recorded as a trace of events.
    [EvKubectl args output failed] is one
    [exec.Command("kubectl", args...).CombinedOutput()] together with what it
    returned ([failed] is [err != nil]); [EvPreview] and [EvComparison] stand
    for the tables printed by [previewVersions] and [printVersionComparison],
    of which only the data is kept.  [EvLog msg] is a log line whose text is
    [msg]; [EvLogf format] is a log line written from the format [format]
    with no operands, whose text is [fmt.Sprintf(format)]: the format itself
    when it holds no [%], and what [fmt] makes of its verbs otherwise. *)
Inductive Event :=
| EvKubectl (args : list string) (output : string) (failed : bool)
| EvLog (msg : string)
| EvPrint (msg : string)
| EvScanln (response : string)
| EvPreview (currentVersions targetVersions : gmap string string)
| EvComparison (oldVersions newVersions : gmap string string)
| EvLogf (format : string).

(** The collaborators the code calls but does not define: the [kubectl]
    subprocess and standard input, both over an abstract state [World]; the
    order in which Go enumerates a map ([range_], any enumeration of the
    entries); and [fmt]'s rendering of a map under the verb [%v]. *)
Class Runtime := {
  World : Type;
  kubectl : list string → World → string * bool * World;
  scanln : World → string * World;
  range_ : ∀ {V : Type}, gmap string V → list (string * V);
  range_perm : ∀ (V : Type) (m : gmap string V), range_ m ≡ₚ map_to_list m;
  fmt_map : gmap string string → string
}.

(** The result of running a computation: its value, the events it emitted,
    and the world it leaves behind. *)
Record Out (W A : Type) := mkOut { res : A; evs : list Event; fin : W }.
Arguments mkOut {W A} _ _ _.
Arguments res {W A} _.
Arguments evs {W A} _.
Arguments fin {W A} _.

Section Monad.
Context `{Runtime}.

Definition M (A : Type) : Type := World → Out World A.

Definition ret {A} (a : A) : M A := λ w, mkOut a [] w.

Definition bind {A B} (m : M A) (f : A → M B) : M B :=
  λ w, let o1 := m w in
       let o2 := f (res o1) (fin o1) in
       mkOut (res o2) (evs o1 ++ evs o2) (fin o2).

Definition emit (e : Event) : M unit := λ w, mkOut tt [e] w.

(** [exec.Command("kubectl", args...).CombinedOutput()] *)
Definition exec (args : list string) : M (string * bool) :=
  λ w, let r := kubectl args w in
       mkOut r.1 [EvKubectl args r.1.1 r.1.2] r.2.

(** [fmt.Scanln(&response)] *)
Definition Scanln : M string :=
  λ w, let r := scanln w in mkOut r.1 [EvScanln r.1] r.2.

Definition Print (msg : string) : M unit := emit (EvPrint msg).

(** Run [f] on every element, left to right, collecting the results. *)
Fixpoint forM {A B} (l : list A) (f : A → M B) : M (list B) :=
  match l with
  | [] => ret []
  | x :: rest => bind (f x) (λ y, bind (forM rest f) (λ ys, ret (y :: ys)))
  end.
End Monad.

Declare Scope go_scope.
Delimit Scope go_scope with go.
Notation "x <- m ;; k" := (bind m (λ x, k))
  (at level 100, m at next level, k at level 200, right associativity) : go_scope.
Notation "m ;; k" := (bind m (λ _, k))
  (at level 100, k at level 200, right associativity) : go_scope.
Open Scope go_scope.

(** The [kubectl] command lines the program builds. *)
Definition dquote : string := String "034"%char EmptyString.

Definition cmd_current_context : list string := ["config"; "current-context"].
Definition cmd_use_context (context : string) : list string :=
  ["config"; "use-context"; context].
Definition cmd_get_nodes : list string := ["get"; "nodes"].
Definition cmd_get_deployment (namespace : string) : list string :=
  ["get"; "deployment"; "-n"; namespace; "-o";
   "jsonpath={range .items[*]}{.metadata.name}{" ++ dquote ++ "\t" ++ dquote
   ++ "}{.spec.template.spec.containers[0].image}{" ++ dquote ++ "\n" ++ dquote
   ++ "}{end}"].
Definition cmd_set_image (service image namespace : string) : list string :=
  ["set"; "image"; "deployment"; service; service ++ "=" ++ image; "-n"; namespace].

Definition nl : string := String strings.newline EmptyString.

(** The inner loop [for _, service := range group.Services {
    selectedServices[service] = version }] that both resolvers share. *)
Definition setAll {V} (members : list string) (v : V) (m : gmap string V) : gmap string V :=
  foldl (λ acc service, <[service := v]> acc) m members.

(** [getEnabledServices] is the same function in both variants. *)
Definition getEnabledServices `{Runtime} (s : Service) : gmap string bool :=
  let enabledServices :=
    foldl (λ acc '(service, info),
             if ServiceInfo.Enabled info then <[service := true]> acc else acc)
          ∅ (range_ (SingleServices (services s))) in
  foldl (λ acc '(_, group),
           if ServiceGroup.Enabled group
           then setAll (ServiceGroup.Services group) true acc
           else acc)
        enabledServices (range_ (ServiceGroups (services s))).

(** The body of the line loop of [getCurrentVersions], alike in both
    variants: a row is recorded when it has exactly two tab-separated fields,
    its name is in the enabled set, and its image reference splits on [:]
    into exactly two parts. *)
Definition recordLine (enabledServices : gmap string bool)
    (versions : gmap string string) (line : string) : gmap string string :=
  if decide (line = "") then versions else
  match strings.Split line strings.tab with
  | [serviceName; image] =>
      match enabledServices !! serviceName with
      | Some _ =>
          match strings.Split image strings.colon with
          | [_; tag] => <[serviceName := tag]> versions
          | _ => versions
          end
      | None => versions
      end
  | _ => versions
  end.

(** [selectVersion], the same in both variants. *)
Definition selectVersion (inputVersion defaultVersion : string) : string :=
  if decide (inputVersion ≠ "") then inputVersion else defaultVersion.

(** ** [src/main.go] *)

Module MainGo.
Section Program.
Context `{Runtime}.

(** [writeLog]: one line appended to the log file. *)
Definition writeLog (msg : string) : M unit := emit (EvLog msg).

(** [writeLog(format)] with a computed format and no operands. *)
Definition writeLogf (format : string) : M unit := emit (EvLogf format).

Definition previewVersions (currentVersions targetVersions : gmap string string) : M unit :=
  emit (EvPreview currentVersions targetVersions).

Definition printVersionComparison (currentVersions updatedVersions : gmap string string) : M unit :=
  emit (EvComparison currentVersions updatedVersions).

(** [getCurrentVersions] fills the map it is given and returns the error. *)
Definition getCurrentVersions (s : Service) (namespace : string)
    (versions : gmap string string) : M (gmap string string * error) :=
  r <- exec (cmd_get_deployment namespace) ;;
  if r.2 then ret (versions, Some ("获取部署信息失败: " ++ r.1))
  else
    let enabledServices := getEnabledServices s in
    let lines := strings.Split (strings.TrimSpace r.1) strings.newline in
    ret (foldl (recordLine enabledServices) versions lines, None).

(** The body of the token loop of [getSelectedServices]. *)
Definition selectToken (s : Service) (versionInput : string)
    (selectedServices : gmap string string) (service : string) : gmap string string :=
  let selectedServices :=
    match SingleServices (services s) !! service with
    | Some info =>
        if ServiceInfo.Enabled info
        then <[service := selectVersion versionInput (ServiceInfo.Version info)]> selectedServices
        else selectedServices
    | None => selectedServices
    end in
  match ServiceGroups (services s) !! service with
  | Some group =>
      if ServiceGroup.Enabled group
      then setAll (ServiceGroup.Services group)
                  (selectVersion versionInput (ServiceGroup.Version group)) selectedServices
      else selectedServices
  | None => selectedServices
  end.

Definition getSelectedServices (s : Service) (servicesInput versionInput : string)
    : gmap string string :=
  if decide (servicesInput = "") then
    let selectedServices :=
      foldl (λ acc '(service, info),
               if ServiceInfo.Enabled info
               then <[service := ServiceInfo.Version info]> acc else acc)
            ∅ (range_ (SingleServices (services s))) in
    foldl (λ acc '(_, group),
             if ServiceGroup.Enabled group
             then setAll (ServiceGroup.Services group) (ServiceGroup.Version group) acc
             else acc)
          selectedServices (range_ (ServiceGroups (services s)))
  else
    foldl (selectToken s versionInput) ∅ (strings.Split servicesInput strings.comma).

Definition switchContext (context : string) : M error :=
  r <- exec cmd_current_context ;;
  if negb r.2 && bool_decide (strings.TrimSpace r.1 = context) then
    Print (nl ++ "当前 Kubernetes 环境: " ++ context ++ nl) ;;
    ret None
  else
    Print (nl ++ "🔄 切换 Kubernetes 环境: " ++ context ++ nl) ;;
    r <- exec (cmd_use_context context) ;;
    if r.2 then ret (Some ("切换集群失败: " ++ r.1))
    else
      r <- exec cmd_get_nodes ;;
      if r.2 then ret (Some ("集群连接检查失败: " ++ r.1))
      else ret None.

Definition confirmDeploy : M bool :=
  Print (nl ++ "是否确认部署? [y/N]: ") ;;
  response <- Scanln ;;
  ret (bool_decide (strings.ToLower response = "y")).

(** [deployService] returns the result line.  [writeLog(result)] passes
    [result] as the format. *)
Definition deployService (service registry namespace version : string) : M string :=
  let image := registry ++ "/" ++ service ++ ":" ++ version in
  writeLog ("开始发布服务 " ++ service ++ " -> " ++ image) ;;
  Print ("🚀 发布 " ++ service ++ " -> " ++ image ++ nl) ;;
  r <- exec (cmd_set_image service image namespace) ;;
  if r.2 then
    let errMsg := strings.ReplaceAll r.1 "exit status 1" "" in
    let result := "❌ " ++ service ++ " 发布失败: " ++ strings.TrimSpace errMsg in
    writeLogf result ;; ret result
  else
    let result := "✅ " ++ service ++ " 发布成功" in
    writeLogf result ;; ret result.

(** The fan-out of [Deploy]: one goroutine per entry of [selectedServices],
    joined by [wg.Wait()].  [deployTask] is the body of the goroutine.  Each
    task is run whole, in the order in which [range_] enumerates the map; as
    [range_] is any enumeration, every order in which the tasks can complete
    is covered. *)
Definition deployTask (envConfig : Environment) (entry : string * string) : M string :=
  let '(service, ver) := entry in
  result <- deployService service (Registry envConfig) (Namespace envConfig) ver ;;
  writeLog ("部署结果: " ++ result) ;;
  ret result.

Definition deployAll (envConfig : Environment) (selectedServices : gmap string string)
    : M (list string) :=
  forM (range_ selectedServices) (deployTask envConfig).

Definition Deploy (s : Service) (env servicesInput versionInput : string) : M error :=
  writeLog ("开始部署操作 - 环境: " ++ env ++ ", 服务: " ++ servicesInput
            ++ ", 版本: " ++ versionInput) ;;
  match Environments (config s) !! env with
  | None =>
      writeLog ("错误: 无效的环境: " ++ env) ;;
      ret (Some ("无效的环境: " ++ env))
  | Some envConfig =>
      err <- switchContext (Context envConfig) ;;
      match err with
      | Some e => writeLog ("错误: 切换环境失败: " ++ e) ;; ret (Some e)
      | None =>
          writeLog ("成功切换到环境: " ++ Context envConfig) ;;
          cur <- getCurrentVersions s (Namespace envConfig) ∅ ;;
          let currentVersions := cur.1 in
          match cur.2 with
          | Some e =>
              writeLog ("警告: 获取当前版本信息失败: " ++ e) ;;
              Print ("获取当前版本信息失败: " ++ e ++ nl)
          | None => ret tt
          end ;;
          let selectedServices := getSelectedServices s servicesInput versionInput in
          if decide (size selectedServices = 0) then
            writeLog "错误: 没有可用的服务进行发布" ;;
            ret (Some "没有可用的服务进行发布")
          else
            writeLog ("选中的服务: " ++ fmt_map selectedServices) ;;
            previewVersions currentVersions selectedServices ;;
            confirmed <- confirmDeploy ;;
            if negb confirmed then
              writeLog "用户取消部署" ;;
              Print (nl ++ "❌ 已取消部署" ++ nl) ;;
              ret None
            else
              writeLog "用户确认部署，开始执行..." ;;
              Print (nl ++ "开始部署..." ++ nl) ;;
              deployResults <- deployAll envConfig selectedServices ;;
              forM (sort.Strings deployResults) (λ result, Print (result ++ nl)) ;;
              upd <- getCurrentVersions s (Namespace envConfig) ∅ ;;
              let updatedVersions := upd.1 in
              match upd.2 with
              | Some e =>
                  writeLog ("警告: 获取更新后版本信息失败: " ++ e) ;;
                  Print ("获取更新后版本信息失败: " ++ e ++ nl)
              | None => ret tt
              end ;;
              printVersionComparison currentVersions updatedVersions ;;
              writeLog "部署操作完成" ;;
              ret None
      end
  end.

Definition Check (s : Service) (env servicesInput versionInput : string) : M error :=
  match Environments (config s) !! env with
  | None => ret (Some ("无效的环境: " ++ env))
  | Some envConfig =>
      err <- switchContext (Context envConfig) ;;
      match err with
      | Some e => ret (Some e)
      | None =>
          cur <- getCurrentVersions s (Namespace envConfig) ∅ ;;
          let currentVersions := cur.1 in
          match cur.2 with
          | Some e => Print ("获取当前版本信息失败: " ++ e ++ nl)
          | None => ret tt
          end ;;
          let selectedServices := getSelectedServices s servicesInput versionInput in
          if decide (size selectedServices = 0) then
            ret (Some "没有可用的服务进行检查")
          else
            previewVersions currentVersions selectedServices ;;
            ret None
      end
  end.

(** The end of [main], once the flags are parsed and both documents are
    loaded into [s]: run the operation and turn its error into the exit
    code. *)
Definition main (s : Service) (isCheck : bool) (env services version : string) : M nat :=
  err <- (if isCheck then Check s env services version
          else Deploy s env services version) ;;
  match err with
  | Some e => Print ("❌ " ++ e ++ nl) ;; ret 1
  | None => ret 0
  end.
End Program.
End MainGo.

(** ** [src/unnamed/part_001] *)

Module Part001.
Section Program.
Context `{Runtime}.

(** [s.logger.Log]: one line appended to the log file (its error is
    dropped at every call site). *)
Definition Log (msg : string) : M unit := emit (EvLog msg).

Definition previewVersions (currentVersions targetVersions : gmap string string) : M unit :=
  emit (EvPreview currentVersions targetVersions).

Definition printVersionComparison (oldVersions newVersions : gmap string string) : M unit :=
  Print (nl ++ "部署结果:" ++ nl) ;;
  emit (EvComparison oldVersions newVersions).

(** [getCurrentVersions] returns a fresh map, or [nil] and the error.  A
    [nil] map reads as the empty map. *)
Definition getCurrentVersions (s : Service) (namespace : string)
    : M (gmap string string * error) :=
  r <- exec (cmd_get_deployment namespace) ;;
  if r.2 then ret (∅, Some ("获取部署信息失败: " ++ r.1))
  else
    let enabledServices := getEnabledServices s in
    let lines := strings.Split (strings.TrimSpace r.1) strings.newline in
    ret (foldl (recordLine enabledServices) ∅ lines, None).

(** The body of the token loop of [getSelectedServices].  The state is the
    map built so far and the lines handed to [s.logger.Log], oldest first.
    [checkGroup] is what follows the single-service test when that test
    fails; when it succeeds the [continue] skips it. *)
Definition selectToken (s : Service) (versionInput : string)
    (st : gmap string string * list string) (service : string)
    : gmap string string * list string :=
  let '(selectedServices, logged) := st in
  let service := strings.TrimSpace service in
  let notFound :=
    (selectedServices,
     app logged ["警告: 服务 " ++ service ++ " 未找到或未启用"]) in
  let checkGroup :=
    match ServiceGroups (services s) !! service with
    | Some group =>
        if ServiceGroup.Enabled group
        then (setAll (ServiceGroup.Services group)
                     (selectVersion versionInput (ServiceGroup.Version group))
                     selectedServices, logged)
        else notFound
    | None => notFound
    end in
  match SingleServices (services s) !! service with
  | Some info =>
      if ServiceInfo.Enabled info
      then (<[service := selectVersion versionInput (ServiceInfo.Version info)]>
              selectedServices, logged)
      else checkGroup
  | None => checkGroup
  end.

(** [getSelectedServices], with the warnings it logs as second component. *)
Definition getSelectedServices (s : Service) (servicesInput versionInput : string)
    : gmap string string * list string :=
  if decide (servicesInput = "") then
    let selectedServices :=
      foldl (λ acc '(service, info),
               if ServiceInfo.Enabled info
               then <[service := selectVersion versionInput (ServiceInfo.Version info)]> acc
               else acc)
            ∅ (range_ (SingleServices (services s))) in
    (foldl (λ acc '(_, group),
              if ServiceGroup.Enabled group
              then setAll (ServiceGroup.Services group)
                          (selectVersion versionInput (ServiceGroup.Version group)) acc
              else acc)
           selectedServices (range_ (ServiceGroups (services s))), [])
  else
    foldl (selectToken s versionInput) (∅, []) (strings.Split servicesInput strings.comma).

Definition switchContext (context : string) : M error :=
  r <- exec (cmd_use_context context) ;;
  if r.2 then ret (Some ("切换上下文失败: " ++ r.1)) else ret None.

Definition confirmDeploy : M bool :=
  Print (nl ++ "是否确认部署? [y/N]: ") ;;
  response <- Scanln ;;
  ret (bool_decide (strings.ToLower response = "y")).

Definition deployService (service registry namespace version : string) : M error :=
  let image := registry ++ "/" ++ service ++ ":" ++ version in
  Log ("开始发布服务 " ++ service ++ " -> " ++ image) ;;
  Print ("🚀 发布 " ++ service ++ " -> " ++ image ++ nl) ;;
  r <- exec (cmd_set_image service image namespace) ;;
  if r.2 then
    let errMsg := strings.ReplaceAll r.1 "exit status 1" "" in
    Log ("服务 " ++ service ++ " 发布失败: " ++ errMsg) ;;
    ret (Some ("❌ " ++ service ++ " 发布失败: " ++ strings.TrimSpace errMsg))
  else
    Log ("服务 " ++ service ++ " 发布成功") ;;
    ret None.

(** The fan-out of [Deploy]: one goroutine per entry, joined by
    [wg.Wait()]; the errors sent on [errChan] are read back in the order
    they were sent.  [deployTask] is the body of the goroutine; tasks are
    run whole in the order of [range_]. *)
Definition deployTask (envConfig : Environment) (entry : string * string) : M error :=
  let '(service, version) := entry in
  deployService service (Registry envConfig) (Namespace envConfig) version.

Definition deployAll (envConfig : Environment) (selectedServices : gmap string string)
    : M (list string) :=
  results <- forM (range_ selectedServices) (deployTask envConfig) ;;
  ret (omap id results).

Definition Deploy (s : Service) (env servicesInput versionInput : string) : M error :=
  Log ("开始部署操作 - 环境: " ++ env ++ ", 服务: " ++ servicesInput
       ++ ", 版本: " ++ versionInput) ;;
  match Environments (config s) !! env with
  | None => ret (Some ("无效的环境: " ++ env))
  | Some envConfig =>
      err <- switchContext (Context envConfig) ;;
      match err with
      | Some e => ret (Some e)
      | None =>
          Log ("成功切换到环境: " ++ Context envConfig) ;;
          cur <- getCurrentVersions s (Namespace envConfig) ;;
          let currentVersions := cur.1 in
          match cur.2 with
          | Some e => Log ("警告: " ++ e) ;; Print ("警告: " ++ e ++ nl)
          | None => ret tt
          end ;;
          let sel := getSelectedServices s servicesInput versionInput in
          let selectedServices := sel.1 in
          forM sel.2 Log ;;
          if decide (size selectedServices = 0) then
            ret (Some "没有可用的服务进行发布")
          else
            Log ("选中的服务: " ++ fmt_map selectedServices) ;;
            previewVersions currentVersions selectedServices ;;
            confirmed <- confirmDeploy ;;
            if negb confirmed then
              Log "用户取消部署" ;;
              Print (nl ++ "❌ 已取消部署" ++ nl) ;;
              ret None
            else
              Log "用户确认部署，开始执行..." ;;
              Print (nl ++ "开始部署..." ++ nl) ;;
              errors <- deployAll envConfig selectedServices ;;
              if decide (0 < List.length errors)%nat then
                ret (Some ("部署过程中出现错误:" ++ nl ++ strings.Join errors nl))
              else
                upd <- getCurrentVersions s (Namespace envConfig) ;;
                let updatedVersions := upd.1 in
                match upd.2 with
                | Some e =>
                    Log ("警告: 获取更新后版本信息失败: " ++ e) ;;
                    Print ("警告: 获取更新后版本信息失败: " ++ e ++ nl)
                | None => ret tt
                end ;;
                printVersionComparison currentVersions updatedVersions ;;
                Log "部署操作完成" ;;
                ret None
      end
  end.

Definition Check (s : Service) (env servicesInput versionInput : string) : M error :=
  match Environments (config s) !! env with
  | None => ret (Some ("无效的环境: " ++ env))
  | Some envConfig =>
      err <- switchContext (Context envConfig) ;;
      match err with
      | Some e => ret (Some e)
      | None =>
          cur <- getCurrentVersions s (Namespace envConfig) ;;
          match cur.2 with
          | Some e => ret (Some e)
          | None =>
              let currentVersions := cur.1 in
              let sel := getSelectedServices s servicesInput versionInput in
              let selectedServices := sel.1 in
              forM sel.2 Log ;;
              if decide (size selectedServices = 0) then
                ret (Some "没有可用的服务进行检查")
              else
                previewVersions currentVersions selectedServices ;;
                ret None
          end
      end
  end.

(** The end of [main], once the flags are parsed and [Init] has loaded
    both documents into [s]. *)
Definition main (s : Service) (isCheck : bool) (env services version : string) : M nat :=
  operationErr <- (if isCheck then Check s env services version
                   else Deploy s env services version) ;;
  match operationErr with
  | Some e => Print ("操作失败: " ++ e ++ nl) ;; ret 1
  | None => ret 0
  end.
End Program.
End Part001.

(** ** Reading traces *)

Definition is_set_image (args : list string) : bool :=
  bool_decide (take 3 args = ["set"; "image"; "deployment"]).

(** An update command: [kubectl set image deployment ...]. *)
Definition is_update (e : Event) : bool :=
  match e with EvKubectl args _ _ => is_set_image args | _ => false end.

(** A read of the deployments: [kubectl get deployment ...]. *)
Definition is_cluster_read (e : Event) : bool :=
  match e with
  | EvKubectl args _ _ => bool_decide (take 2 args = ["get"; "deployment"])
  | _ => false
  end.

(** A context switch: [kubectl config use-context ...]. *)
Definition is_switch (e : Event) : bool :=
  match e with
  | EvKubectl args _ _ => bool_decide (take 2 args = ["config"; "use-context"])
  | _ => false
  end.

(** An answer read from standard input. *)
Definition is_answer (e : Event) : bool :=
  match e with EvScanln _ => true | _ => false end.

(** [confirmDeploy]'s test of the answer. *)
Definition affirmative (response : string) : Prop := strings.ToLower response = "y".

(** No event of the trace is of kind [p]. *)
Definition never (p : Event → bool) (trace : list Event) : Prop :=
  Forall (λ e, p e = false) trace.

(** The trace holds an affirmative answer before which no update command
    is issued: whatever update it has comes after that answer. *)
Definition confirmed_first (trace : list Event) : Prop :=
  ∃ pre response post,
    trace = (pre ++ EvScanln response :: post)%list
    ∧ affirmative response ∧ never is_update pre.

(** The command lines of the update commands of a trace, in order. *)
Definition update_cmds (trace : list Event) : list (list string) :=
  omap (λ e, match e with
             | EvKubectl args _ _ => if is_set_image args then Some args else None
             | _ => None
             end) trace.

(** The diagnostic both variants build for a failed update of [service]
    whose command printed [output]. *)
Definition failure_line (service output : string) : string :=
  "❌ " ++ service ++ " 发布失败: "
  ++ strings.TrimSpace (strings.ReplaceAll output "exit status 1" "").

(** The diagnostics of the failed update commands of a trace, in order. *)
Definition failure_lines (trace : list Event) : list string :=
  omap (λ e, match e with
             | EvKubectl args output true =>
                 if is_set_image args
                 then Some (failure_line (default "" (args !! 3%nat)) output)
                 else None
             | _ => None
             end) trace.

(** The error that [Deploy] of [src/unnamed/part_001] builds from the errors
    it collected. *)
Definition deploy_error (errors : list string) : error :=
  match errors with
  | [] => None
  | _ :: _ => Some ("部署过程中出现错误:" ++ nl ++ strings.Join errors nl)
  end.

(** The update command [Deploy] is to issue for one entry of the target. *)
Definition update_for (envConfig : Environment) (entry : string * string) : list string :=
  cmd_set_image entry.1
    (Registry envConfig ++ "/" ++ entry.1 ++ ":" ++ entry.2) (Namespace envConfig).

(** One row of the cluster query's output: a deployment name, a tab, and an
    image reference [repo:tag]. *)
Definition image_row (name repo tag : string) : string :=
  name ++ String strings.tab (repo ++ String strings.colon tag).

(** The text after the last [sep] of [s]. *)
Definition afterLast (sep : ascii) (s : string) : string :=
  default "" (last (strings.Split s sep)).

(** ** What it means for a name to be enabled *)

Definition enabled_single (s : Service) (name : string) : Prop :=
  ∃ info, SingleServices (services s) !! name = Some info
          ∧ ServiceInfo.Enabled info = true.

Definition enabled_group (s : Service) (name : string) : Prop :=
  ∃ group, ServiceGroups (services s) !! name = Some group
           ∧ ServiceGroup.Enabled group = true.

(** [service] is an enabled single service or a member of an enabled group. *)
Definition enabled_service (s : Service) (service : string) : Prop :=
  enabled_single s service
  ∨ ∃ name group, ServiceGroups (services s) !! name = Some group
                  ∧ ServiceGroup.Enabled group = true
                  ∧ service ∈ ServiceGroup.Services group.

(** An enabled entry gives [service] the version [version] under the
    override [versionInput]. *)
Definition assigns (s : Service) (versionInput service version : string) : Prop :=
  (∃ info, SingleServices (services s) !! service = Some info
           ∧ ServiceInfo.Enabled info = true
           ∧ version = selectVersion versionInput (ServiceInfo.Version info))
  ∨ (∃ name group, ServiceGroups (services s) !! name = Some group
                   ∧ ServiceGroup.Enabled group = true
                   ∧ service ∈ ServiceGroup.Services group
                   ∧ version = selectVersion versionInput (ServiceGroup.Version group)).

(** No service is given two different versions by the enabled entries. *)
Definition unambiguous (s : Service) (versionInput : string) : Prop :=
  ∀ service v1 v2,
    assigns s versionInput service v1 → assigns s versionInput service v2 → v1 = v2.

(** The scan over all enabled entries, as both variants write it; [v1]
    and [v2] are the versions given to a single service and to the members
    of a group. *)
Definition allEnabled `{Runtime} (s : Service) (v1 : ServiceInfo.t → string)
    (v2 : ServiceGroup.t → string) : gmap string string :=
  foldl (λ acc '(_, group),
           if ServiceGroup.Enabled group
           then setAll (ServiceGroup.Services group) (v2 group) acc
           else acc)
        (foldl (λ acc '(service, info),
                  if ServiceInfo.Enabled info
                  then <[service := v1 info]> acc else acc)
               ∅ (range_ (SingleServices (services s))))
        (range_ (ServiceGroups (services s))).

(** ** A concrete runtime and sample documents

    A world without state: every [kubectl] command line has one fixed reply,
    standard input holds one fixed token, maps are enumerated in the order
    of [map_to_list], and [%v] prints a map as Go does, keys ascending. *)
Record Script := {
  reply : list string → string * bool;
  answer : string
}.

Definition scripted (sc : Script) : Runtime := {|
  World := unit;
  kubectl := λ args w, (reply sc args, w);
  scanln := λ w, (answer sc, w);
  range_ := λ V m, map_to_list m;
  range_perm := λ V m, reflexivity (map_to_list m);
  fmt_map := λ m,
    "map[" ++ strings.Join
                ((λ kv, kv.1 ++ ":" ++ kv.2)
                   <$> merge_sort (λ a b : string * string, Is_true (String.leb a.1 b.1))
                         (map_to_list m)) " "
    ++ "]"
|}.

Definition mkService (envs : list (string * Environment))
    (singles : list (string * ServiceInfo.t))
    (groups : list (string * ServiceGroup.t)) : Service :=
  {| config := {| Environments := list_to_map envs |};
     services := {| SingleServices := list_to_map singles;
                    ServiceGroups := list_to_map groups |} |}.

Definition pre : Environment :=
  {| Context := "pre-cluster"; Registry := "registry.example"; Namespace := "default" |}.

(** The documents of the README, cut down to one group. *)
Definition sample : Service :=
  mkService [("pre", pre)]
    [("docs-fe", ServiceInfo.Build_t true "v3.48.1")]
    [("nft", ServiceGroup.Build_t true "v1.15.5" ["nft-core-be"; "nft-ethereum-be"])].

(** One name used both for a single service and for a group. *)
Definition clash : Service :=
  mkService [("pre", pre)]
    [("x", ServiceInfo.Build_t true "v1")]
    [("x", ServiceGroup.Build_t true "v2" ["a"; "b"])].

(** A single service that an enabled group lists as well. *)
Definition overlap : Service :=
  mkService [("pre", pre)]
    [("a", ServiceInfo.Build_t true "v1")]
    [("g", ServiceGroup.Build_t true "v2" ["a"])].

(** Every command succeeds with empty output; the prompt is answered [y]. *)
Definition all_fine : Script := {| reply := λ _, ("", false); answer := "y" |}.

(** The update of [nft-core-be] fails; the prompt is answered [y]. *)
Definition one_fails : Script := {|
  reply := λ args,
    if bool_decide (take 4 args = ["set"; "image"; "deployment"; "nft-core-be"])
    then ("Error from server (NotFound)", true) else ("", false);
  answer := "y"
|}.

(** The active context is already [pre-cluster]. *)
Definition already_active : Script := {|
  reply := λ args,
    if bool_decide (args = cmd_current_context) then ("pre-cluster" ++ nl, false)
    else ("", false);
  answer := "n"
|}.

(** The cluster cannot be queried for its deployments. *)
Definition query_fails : Script := {|
  reply := λ args,
    if bool_decide (take 2 args = ["get"; "deployment"])
    then ("Unable to connect to the server", true) else ("", false);
  answer := "n"
|}.

(** The cluster runs [docs-fe] at [v3.48.0]. *)
Definition one_row : Script := {|
  reply := λ args,
    if bool_decide (take 2 args = ["get"; "deployment"])
    then (image_row "docs-fe" "registry.example/docs-fe" "v3.48.0" ++ nl, false)
    else ("", false);
  answer := "n"
|}.

(** A registry with a port in its host name. *)
Definition ported_registry : Script := {|
  reply := λ args,
    if bool_decide (take 2 args = ["get"; "deployment"])
    then ("docs-fe" ++ String strings.tab "registry.example:5000/docs-fe:v3.48.1" ++ nl, false)
    else ("", false);
  answer := "n"
|}.

(** ** The listed scope, token by token

    What one token of a listed scope gives to the service [name], as a
    function of [services.json]. *)

Definition is_enabled_single (s : Service) (token : string) : bool :=
  match SingleServices (services s) !! token with
  | Some info => ServiceInfo.Enabled info
  | None => false
  end.

Definition is_enabled_group (s : Service) (token : string) : bool :=
  match ServiceGroups (services s) !! token with
  | Some group => ServiceGroup.Enabled group
  | None => false
  end.

(** The enabled single service called [token] gives its version to the
    service of that name. *)
Definition single_gives (s : Service) (versionInput token name : string) : option string :=
  match SingleServices (services s) !! token with
  | Some info =>
      if ServiceInfo.Enabled info && bool_decide (name = token)
      then Some (selectVersion versionInput (ServiceInfo.Version info))
      else None
  | None => None
  end.

(** The enabled group called [token] gives its version to its members. *)
Definition group_gives (s : Service) (versionInput token name : string) : option string :=
  match ServiceGroups (services s) !! token with
  | Some group =>
      if ServiceGroup.Enabled group && bool_decide (name ∈ ServiceGroup.Services group)
      then Some (selectVersion versionInput (ServiceGroup.Version group))
      else None
  | None => None
  end.

(** In [src/main.go] a token is tried as a single service and then as a
    group, so what the group gives comes last. *)
Definition main_token_gives (s : Service) (versionInput token name : string) : option string :=
  match group_gives s versionInput token name with
  | Some version => Some version
  | None => single_gives s versionInput token name
  end.

(** In [src/unnamed/part_001] the token is trimmed, and tried as a group only
    when it is not an enabled single service. *)
Definition p1_token_gives (s : Service) (versionInput token name : string) : option string :=
  let token := strings.TrimSpace token in
  if is_enabled_single s token then single_gives s versionInput token name
  else group_gives s versionInput token name.

(** The warning [src/unnamed/part_001] logs for a token that selects nothing. *)
Definition token_warning (s : Service) (token : string) : option string :=
  let token := strings.TrimSpace token in
  if is_enabled_single s token || is_enabled_group s token then None
  else Some ("警告: 服务 " ++ token ++ " 未找到或未启用").

(** Any [kubectl] command. *)
Definition is_kubectl (e : Event) : bool :=
  match e with EvKubectl _ _ _ => true | _ => false end.

(** A line written to the log file. *)
Definition is_log (e : Event) : bool :=
  match e with EvLog _ | EvLogf _ => true | _ => false end.

(** The commands of the context switcher and the read of the deployments:
    whatever they print, they leave the workloads of the cluster alone. *)
Definition is_housekeeping (e : Event) : bool :=
  match e with
  | EvKubectl args _ _ =>
      bool_decide (args = cmd_current_context) || bool_decide (args = cmd_get_nodes)
      || is_switch e || is_cluster_read e
  | _ => false
  end.

(** A [kubectl] command that is neither an update command nor one of
    these: a rollback, a deletion, anything else. *)
Definition is_foreign (e : Event) : bool :=
  is_kubectl e && negb (is_update e || is_housekeeping e).

(** An event that leaves something changed outside the process: a line
    appended to the log file, or a [kubectl] command other than a query
    ([config current-context], [get ...]). *)
Definition changes_state (e : Event) : bool :=
  match e with
  | EvKubectl args _ _ =>
      negb (bool_decide (args = cmd_current_context) || bool_decide (take 1 args = ["get"]))
  | EvLog _ | EvLogf _ => true
  | _ => false
  end.

(** The table of [previewVersions], and that of [printVersionComparison]. *)
Definition is_preview (e : Event) : bool :=
  match e with EvPreview _ _ => true | _ => false end.

Definition is_comparison (e : Event) : bool :=
  match e with EvComparison _ _ => true | _ => false end.

(** The prompt was answered, and the answer was an affirmative one. *)
Definition confirmed (trace : list Event) : Prop :=
  ∃ response, EvScanln response ∈ trace ∧ affirmative response.

(** ** The version tables

    [previewVersions] and [printVersionComparison] print a table of which the
    events [EvPreview] and [EvComparison] keep the data.  [layout] is what
    these functions compute from that data before they print, alike in both
    variants: the service names in the order of the rows, and the widths of
    the columns, counted in bytes as [len] counts them.  (The version
    columns start from [len] of the title of the second column, which is
    目标版本 in three of the four functions and 之前版本 in
    [printVersionComparison] of [src/main.go]: twelve bytes both.) *)

Module Table.
Record t := {
  services : list string;
  maxNameLen : nat;
  maxVersionLen : nat;
  totalWidth : nat
}.
End Table.

(** One round of the loop [for _, svc := range services] that widens the
    columns; a missing key of a Go map reads as the empty string. *)
Definition widen (currentVersions targetVersions : gmap string string)
    (widths : nat * nat) (svc : string) : nat * nat :=
  let '(maxNameLen, maxVersionLen) := widths in
  let maxNameLen :=
    if decide (maxNameLen < String.length svc)%nat then String.length svc else maxNameLen in
  let currentVer := default "" (currentVersions !! svc) in
  let targetVer := default "" (targetVersions !! svc) in
  let maxVersionLen :=
    if decide (maxVersionLen < String.length currentVer)%nat
    then String.length currentVer else maxVersionLen in
  let maxVersionLen :=
    if decide (maxVersionLen < String.length targetVer)%nat
    then String.length targetVer else maxVersionLen in
  (maxNameLen, maxVersionLen).

Definition layout `{Runtime} (currentVersions targetVersions : gmap string string) : Table.t :=
  let services := sort.Strings ((range_ targetVersions).*1) in
  let widths :=
    foldl (widen currentVersions targetVersions)
          (String.length "服务名称", String.length "目标版本") services in
  let maxNameLen := (widths.1 + 2)%nat in
  let maxVersionLen := (widths.2 + 2)%nat in
  {| Table.services := services;
     Table.maxNameLen := maxNameLen;
     Table.maxVersionLen := maxVersionLen;
     Table.totalWidth := (maxNameLen + (maxVersionLen * 2) + 7)%nat |}.

(** The byte-wise order of [sort.Strings]. *)
Definition string_le (a b : string) : Prop := Is_true (String.leb a b).

(** ** [src/internal/logger/logger.go] *)

(** The escape byte that starts an ANSI colour code. *)
Definition esc : string := String "027"%char EmptyString.

Module logger.

Definition Reset : string := esc ++ "[0m".
Definition Red : string := esc ++ "[31m".
Definition Green : string := esc ++ "[32m".
Definition Yellow : string := esc ++ "[33m".
Definition Blue : string := esc ++ "[34m".
Definition Purple : string := esc ++ "[35m".
Definition Cyan : string := esc ++ "[36m".
Definition White : string := esc ++ "[37m".
Definition BoldWhite : string := esc ++ "[1;37m".
Definition BoldGreen : string := esc ++ "[1;32m".
Definition BoldYellow : string := esc ++ "[1;33m".

Definition colorCodes : list string :=
  [Reset; Red; Green; Yellow; Blue; Purple; Cyan; White; BoldWhite; BoldGreen; BoldYellow].

(** [removeColorCodes]: one [strings.ReplaceAll] per colour code, in the
    order of the list. *)
Definition removeColorCodes (s : string) : string :=
  foldl (λ result code, strings.ReplaceAll result code "") s colorCodes.

(** The body of the loop of [FormatJSON]: one line and its colours.  (The
    line holds a [:] where [parts[1]] is read, so that part exists.) *)
Definition colorLine (line : string) : string :=
  let trimmedLine := strings.TrimSpace line in
  if strings.HasSuffix trimmedLine "{" || strings.HasSuffix trimmedLine "[" then
    BoldWhite ++ line ++ Reset
  else if strings.HasSuffix trimmedLine "}" || strings.HasSuffix trimmedLine "]" then
    BoldWhite ++ line ++ Reset
  else if strings.Contains line ":" then
    match strings.SplitN line strings.colon 2 with
    | [key; value] =>
        if strings.Contains value dquote
        then Cyan ++ key ++ BoldWhite ++ ":" ++ Green ++ value ++ Reset
        else Cyan ++ key ++ BoldWhite ++ ":" ++ Yellow ++ value ++ Reset
    | _ => line
    end
  else line.

(** [FormatJSON], given what [json.MarshalIndent(data, "", "  ")] returned:
    the text ([inl]) or the error ([inr]). *)
Definition FormatJSON (marshalled : string + string) : string :=
  match marshalled with
  | inr err => "JSON转换错误: " ++ err
  | inl jsonStr =>
      strings.Join (colorLine <$> strings.Split jsonStr strings.newline) nl
  end.

End logger.

(** A text put together from colour codes and from pieces that hold no
    escape byte. *)
Inductive Piece :=
| Code (code : string)
| Text (text : string).

Definition piece_ok (p : Piece) : Prop :=
  match p with
  | Code code => code ∈ logger.colorCodes
  | Text text => "027"%char ∉ list_ascii_of_string text
  end.

(** The text with its colour codes, and the text without them. *)
Fixpoint render (pieces : list Piece) : string :=
  match pieces with
  | [] => ""
  | Code code :: rest => code ++ render rest
  | Text text :: rest => text ++ render rest
  end.

Fixpoint plain (pieces : list Piece) : string :=
  match pieces with
  | [] => ""
  | Code _ :: rest => plain rest
  | Text text :: rest => text ++ plain rest
  end.

(** The pieces that are left when the codes [codes] are taken out. *)
Fixpoint strips (codes : list string) (pieces : list Piece) : list Piece :=
  match pieces with
  | [] => []
  | Code code :: rest =>
      if decide (code ∈ codes) then strips codes rest else Code code :: strips codes rest
  | Text text :: rest => Text text :: strips codes rest
  end.

(** * Proofs *)

Example Split_examples :
  strings.Split "a,b" strings.comma = ["a"; "b"]
  ∧ strings.Split "" strings.comma = [""]
  ∧ strings.Split "a," strings.comma = ["a"; ""]
  ∧ strings.TrimSpace "  docs-fe	" = "docs-fe"
  ∧ strings.ToLower "Y" = "y"
  ∧ strings.ReplaceAll "error: exit status 1 x" "exit status 1" "" = "error:  x"
  ∧ sort.Strings ["b"; "a"; "c"] = ["a"; "b"; "c"].
Proof. repeat split; reflexivity. Qed.

(** The two resolver scenarios of the specification. *)
Example scenario_single_service :
  @MainGo.getSelectedServices (scripted all_fine)
     (mkService [("pre", pre)] [("docs-fe", ServiceInfo.Build_t true "v3.48.1")] []) "" ""
  = {[ "docs-fe" := "v3.48.1" ]}.
Proof. by vm_compute. Qed.

Example scenario_group_scope :
  @MainGo.getSelectedServices (scripted all_fine) sample "nft" ""
  = {[ "nft-core-be" := "v1.15.5"; "nft-ethereum-be" := "v1.15.5" ]}
  ∧ (@Part001.getSelectedServices (scripted all_fine) sample "nft" "").1
    = {[ "nft-core-be" := "v1.15.5"; "nft-ethereum-be" := "v1.15.5" ]}.
Proof. split; by vm_compute. Qed.

Example resolve_sample :
  @MainGo.getSelectedServices (scripted all_fine) sample "" ""
  = {[ "docs-fe" := "v3.48.1"; "nft-core-be" := "v1.15.5"; "nft-ethereum-be" := "v1.15.5" ]}.
Proof. vm_compute. reflexivity. Qed.

(** ** Folds and maps *)

Lemma foldl_invariant {A B} (Inv : B → Prop) (f : B → A → B) (l : list A) (b : B) :
  Inv b → (∀ acc x, x ∈ l → Inv acc → Inv (f acc x)) → Inv (foldl f b l).
Proof.
  revert b. induction l as [|x l IH]; intros b Hb Hstep; [done|].
  simpl. apply IH.
  - apply Hstep; [left | done].
  - intros acc y Hy. apply Hstep. by right.
Qed.

(** A key that some step puts into the state is still there at the end, when
    no step removes keys; [keys] reads the keys off the state. *)
Lemma foldl_reaches {A B} (keys : B → gset string) (f : B → A → B) (l : list A)
    (b : B) (x : A) (k : string) :
  (∀ acc y, keys acc ⊆ keys (f acc y)) →
  x ∈ l → (∀ acc, k ∈ keys (f acc x)) → k ∈ keys (foldl f b l).
Proof.
  intros Hmono Hx Hk. revert b.
  induction l as [|y l IH]; intros b; [by apply elem_of_nil in Hx|].
  simpl. apply elem_of_cons in Hx as [->|Hx]; [|by apply IH].
  assert (Hgrow : ∀ l' b', keys b' ⊆ keys (foldl f b' l')).
  { clear -Hmono. induction l' as [|z l' IH]; intros b'; [done|].
    simpl. etrans; [apply Hmono | apply IH]. }
  by apply Hgrow.
Qed.

Lemma lookup_setAll {V} (members : list string) (v : V) (m : gmap string V) (k : string) :
  setAll members v m !! k = if decide (k ∈ members) then Some v else m !! k.
Proof.
  unfold setAll. revert m. induction members as [|x l IH]; intros m; simpl.
  - destruct (decide (k ∈ [])) as [Hk|Hk]; [by apply elem_of_nil in Hk | done].
  - rewrite IH. destruct (decide (k ∈ l)) as [Hl|Hl].
    + rewrite decide_True; [done | by right].
    + destruct (decide (k = x)) as [->|Hne].
      * rewrite decide_True; [|by left]. by rewrite lookup_insert_eq.
      * rewrite decide_False; [by rewrite lookup_insert_ne|].
        intros [?|?]%elem_of_cons; done.
Qed.

Lemma setAll_Forall {V} (P : string → V → Prop) members v (m : gmap string V) :
  (∀ k, k ∈ members → P k v) → map_Forall P m → map_Forall P (setAll members v m).
Proof.
  intros Hv Hm k w. rewrite lookup_setAll. case_decide; [|by apply Hm].
  intros [= <-]. by apply Hv.
Qed.

Lemma dom_setAll {V} members (v : V) (m : gmap string V) :
  dom m ⊆ dom (setAll members v m).
Proof.
  intros k [w Hw]%elem_of_dom. apply elem_of_dom.
  rewrite lookup_setAll. case_decide; eauto.
Qed.

Lemma elem_of_dom_setAll {V} members (v : V) (m : gmap string V) k :
  k ∈ members → k ∈ dom (setAll members v m).
Proof.
  intros Hk. apply elem_of_dom. rewrite lookup_setAll, decide_True by done. eauto.
Qed.

Lemma selectVersion_override versionInput defaultVersion :
  versionInput ≠ "" → selectVersion versionInput defaultVersion = versionInput.
Proof. intros Hne. unfold selectVersion. by rewrite decide_True. Qed.

Lemma selectVersion_default defaultVersion : selectVersion "" defaultVersion = defaultVersion.
Proof. unfold selectVersion. by rewrite decide_False by (intros Hne; by apply Hne). Qed.

Lemma assigns_override s versionInput service version :
  versionInput ≠ "" → assigns s versionInput service version → version = versionInput.
Proof.
  intros Hne [(info & _ & _ & ->)|(name & group & _ & _ & _ & ->)];
    by apply selectVersion_override.
Qed.

Lemma assigns_enabled s versionInput service version :
  assigns s versionInput service version → enabled_service s service.
Proof.
  intros [(info & ? & ? & _)|(name & group & ? & ? & ? & _)].
  - left. by exists info.
  - right. by exists name, group.
Qed.

Section RangeFacts.
Context `{Runtime}.

Lemma elem_of_range {V} (m : gmap string V) (k : string) (v : V) :
  (k, v) ∈ range_ m ↔ m !! k = Some v.
Proof. rewrite (range_perm V m). apply elem_of_map_to_list. Qed.
End RangeFacts.

(** ** The resolvers only make assignments that an enabled entry supports *)

Lemma resolved_unique (s : Service) (versionInput : string) (m1 m2 : gmap string string) :
  unambiguous s versionInput →
  map_Forall (assigns s versionInput) m1 → map_Forall (assigns s versionInput) m2 →
  (∀ k, enabled_service s k → k ∈ dom m1) → (∀ k, enabled_service s k → k ∈ dom m2) →
  m1 = m2.
Proof.
  intros Hun H1 H2 C1 C2. apply map_eq. intros k.
  destruct (m1 !! k) as [v1|] eqn:E1, (m2 !! k) as [v2|] eqn:E2; [| | |done].
  - f_equal. eapply Hun; eauto.
  - apply H1, assigns_enabled, C2, elem_of_dom in E1 as [v2 E1]. congruence.
  - apply H2, assigns_enabled, C1, elem_of_dom in E2 as [v1 E2]. congruence.
Qed.

Section ResolverFacts.
Context `{Runtime}.
Implicit Types (s : Service) (acc : gmap string string).

Lemma single_step_sound s versionInput acc service info :
  SingleServices (services s) !! service = Some info →
  map_Forall (assigns s versionInput) acc →
  map_Forall (assigns s versionInput)
    (if ServiceInfo.Enabled info
     then <[service := selectVersion versionInput (ServiceInfo.Version info)]> acc
     else acc).
Proof.
  intros Hl Hacc. destruct (ServiceInfo.Enabled info) eqn:E; [|done].
  apply map_Forall_insert_2; [|done]. left. by exists info.
Qed.

Lemma group_step_sound s versionInput acc name group :
  ServiceGroups (services s) !! name = Some group →
  map_Forall (assigns s versionInput) acc →
  map_Forall (assigns s versionInput)
    (if ServiceGroup.Enabled group
     then setAll (ServiceGroup.Services group)
                 (selectVersion versionInput (ServiceGroup.Version group)) acc
     else acc).
Proof.
  intros Hl Hacc. destruct (ServiceGroup.Enabled group) eqn:E; [|done].
  apply setAll_Forall; [|done]. intros k Hk. right. by exists name, group.
Qed.

Lemma all_enabled_sound s versionInput v1 v2 :
  (∀ info, v1 info = selectVersion versionInput (ServiceInfo.Version info)) →
  (∀ group, v2 group = selectVersion versionInput (ServiceGroup.Version group)) →
  map_Forall (assigns s versionInput) (allEnabled s v1 v2).
Proof.
  intros E1 E2. unfold allEnabled. apply foldl_invariant.
  - apply foldl_invariant; [apply map_Forall_empty|].
    intros acc [service info] Hin%elem_of_range Hacc. rewrite E1.
    by apply single_step_sound.
  - intros acc [name group] Hin%elem_of_range Hacc. rewrite E2.
    by eapply group_step_sound.
Qed.

Lemma all_enabled_covers s v1 v2 k :
  enabled_service s k → k ∈ dom (allEnabled s v1 v2).
Proof.
  assert (Hmono : ∀ (acc : gmap string string) (y : string * ServiceGroup.t),
    dom acc ⊆ dom (let '(_, group) := y in
                   if ServiceGroup.Enabled group
                   then setAll (ServiceGroup.Services group) (v2 group) acc else acc)).
  { intros acc [name group]. destruct (ServiceGroup.Enabled group); [apply dom_setAll|done]. }
  intros [(info & Hl & He)|(name & group & Hl & He & Hk)]; unfold allEnabled.
  - eapply (foldl_invariant (λ m : gmap string string, k ∈ dom m)).
    + eapply (foldl_reaches dom _ _ _ (k, info)).
      * intros acc [service i]. destruct (ServiceInfo.Enabled i); [|done].
        rewrite dom_insert. set_solver.
      * by apply elem_of_range.
      * intros acc. simpl. rewrite He, dom_insert. set_solver.
    + intros acc y _ Hacc. by apply Hmono.
  - eapply (foldl_reaches dom _ _ _ (name, group)); [done| by apply elem_of_range |].
    intros acc. simpl. rewrite He. by apply elem_of_dom_setAll.
Qed.

(** *** [src/main.go] *)

Lemma main_empty_scope s versionInput :
  MainGo.getSelectedServices s "" versionInput
  = allEnabled s ServiceInfo.Version ServiceGroup.Version.
Proof. done. Qed.

Lemma main_listed_scope s servicesInput versionInput :
  servicesInput ≠ "" →
  MainGo.getSelectedServices s servicesInput versionInput
  = foldl (MainGo.selectToken s versionInput) ∅
      (strings.Split servicesInput strings.comma).
Proof. intros Hne. unfold MainGo.getSelectedServices. by rewrite decide_False. Qed.

Lemma main_selectToken_sound s versionInput acc token :
  map_Forall (assigns s versionInput) acc →
  map_Forall (assigns s versionInput) (MainGo.selectToken s versionInput acc token).
Proof.
  intros Hacc. unfold MainGo.selectToken.
  destruct (ServiceGroups (services s) !! token) as [group|] eqn:Eg.
  - eapply group_step_sound; [done|].
    destruct (SingleServices (services s) !! token) as [info|] eqn:Es; [|done].
    by apply single_step_sound.
  - destruct (SingleServices (services s) !! token) as [info|] eqn:Es; [|done].
    by apply single_step_sound.
Qed.

Lemma main_selectToken_mono s versionInput acc token :
  dom acc ⊆ dom (MainGo.selectToken s versionInput acc token).
Proof.
  unfold MainGo.selectToken.
  assert (dom acc ⊆ dom (match SingleServices (services s) !! token with
    | Some info =>
        if ServiceInfo.Enabled info
        then <[token := selectVersion versionInput (ServiceInfo.Version info)]> acc
        else acc
    | None => acc end)) as Hs.
  { destruct (SingleServices (services s) !! token) as [info|]; [|done].
    destruct (ServiceInfo.Enabled info); [|done]. rewrite dom_insert. set_solver. }
  destruct (ServiceGroups (services s) !! token) as [group|]; [|done].
  destruct (ServiceGroup.Enabled group); [|done].
  etrans; [apply Hs | apply dom_setAll].
Qed.

Lemma main_listed_sound s servicesInput versionInput :
  servicesInput ≠ "" →
  map_Forall (assigns s versionInput)
    (MainGo.getSelectedServices s servicesInput versionInput).
Proof.
  intros Hne. rewrite main_listed_scope by done.
  apply foldl_invariant; [apply map_Forall_empty|].
  intros acc token _. apply main_selectToken_sound.
Qed.

Lemma main_empty_sound s versionInput :
  map_Forall (assigns s "") (MainGo.getSelectedServices s "" versionInput).
Proof.
  rewrite main_empty_scope.
  apply all_enabled_sound; intros; by rewrite selectVersion_default.
Qed.

Lemma main_selected_enabled s servicesInput versionInput k :
  k ∈ dom (MainGo.getSelectedServices s servicesInput versionInput) →
  enabled_service s k.
Proof.
  intros [v Hv]%elem_of_dom. destruct (decide (servicesInput = "")) as [->|Hne].
  - by apply main_empty_sound, assigns_enabled in Hv.
  - by apply main_listed_sound, assigns_enabled in Hv.
Qed.

(** With a listed scope the override reaches every value. *)
Lemma main_listed_override_wins s servicesInput versionInput k v :
  servicesInput ≠ "" → versionInput ≠ "" →
  MainGo.getSelectedServices s servicesInput versionInput !! k = Some v →
  v = versionInput.
Proof.
  intros Hs Hv Hk. apply main_listed_sound in Hk; [|done].
  by eapply assigns_override.
Qed.

(** *** [src/unnamed/part_001] *)

Lemma p1_empty_scope s versionInput :
  Part001.getSelectedServices s "" versionInput
  = (allEnabled s (λ info, selectVersion versionInput (ServiceInfo.Version info))
                  (λ group, selectVersion versionInput (ServiceGroup.Version group)), []).
Proof. done. Qed.

Lemma p1_listed_scope s servicesInput versionInput :
  servicesInput ≠ "" →
  Part001.getSelectedServices s servicesInput versionInput
  = foldl (Part001.selectToken s versionInput) (∅, [])
      (strings.Split servicesInput strings.comma).
Proof. intros Hne. unfold Part001.getSelectedServices. by rewrite decide_False. Qed.

Lemma p1_selectToken_sound s versionInput st token :
  map_Forall (assigns s versionInput) st.1 →
  map_Forall (assigns s versionInput) (Part001.selectToken s versionInput st token).1.
Proof.
  destruct st as [acc logged]. simpl. intros Hacc.
  destruct (SingleServices (services s) !! strings.TrimSpace token) as [info|] eqn:Es;
    [destruct (ServiceInfo.Enabled info) eqn:Ee|].
  - simpl. apply map_Forall_insert_2; [|done]. left. by exists info.
  - destruct (ServiceGroups (services s) !! strings.TrimSpace token) as [group|] eqn:Eg;
      [destruct (ServiceGroup.Enabled group) eqn:Ege|]; simpl; [|done..].
    apply setAll_Forall; [|done]. intros k Hk. right.
    by exists (strings.TrimSpace token), group.
  - destruct (ServiceGroups (services s) !! strings.TrimSpace token) as [group|] eqn:Eg;
      [destruct (ServiceGroup.Enabled group) eqn:Ege|]; simpl; [|done..].
    apply setAll_Forall; [|done]. intros k Hk. right.
    by exists (strings.TrimSpace token), group.
Qed.

Lemma p1_selectToken_mono s versionInput st token :
  dom st.1 ⊆ dom (Part001.selectToken s versionInput st token).1.
Proof.
  destruct st as [acc logged]. simpl.
  destruct (SingleServices (services s) !! strings.TrimSpace token) as [info|];
    [destruct (ServiceInfo.Enabled info)|];
    [simpl; rewrite dom_insert; set_solver|..];
    (destruct (ServiceGroups (services s) !! strings.TrimSpace token) as [group|];
      [destruct (ServiceGroup.Enabled group)|]; simpl; [apply dom_setAll|done..]).
Qed.

Lemma p1_sound s servicesInput versionInput :
  map_Forall (assigns s versionInput)
    (Part001.getSelectedServices s servicesInput versionInput).1.
Proof.
  destruct (decide (servicesInput = "")) as [->|Hne].
  - rewrite p1_empty_scope. simpl. by apply all_enabled_sound.
  - rewrite p1_listed_scope by done.
    apply (foldl_invariant (λ st, map_Forall (assigns s versionInput) st.1));
      [apply map_Forall_empty|].
    intros st token _. apply p1_selectToken_sound.
Qed.

Lemma p1_selected_enabled s servicesInput versionInput k :
  k ∈ dom (Part001.getSelectedServices s servicesInput versionInput).1 →
  enabled_service s k.
Proof. intros [v Hv]%elem_of_dom. by apply p1_sound, assigns_enabled in Hv. Qed.

(** In this variant the override reaches every value, whatever the scope. *)
Lemma p1_override_wins s servicesInput versionInput k v :
  versionInput ≠ "" →
  (Part001.getSelectedServices s servicesInput versionInput).1 !! k = Some v →
  v = versionInput.
Proof. intros Hv Hk. apply p1_sound in Hk. by eapply assigns_override. Qed.
End ResolverFacts.

(** ** The cluster state reader *)

Section ReaderFacts.
Context `{Runtime}.
Implicit Types (s : Service) (w : World).

Lemma enabled_services_sound s k b :
  getEnabledServices s !! k = Some b → enabled_service s k.
Proof.
  revert k b. change (map_Forall (λ k _, enabled_service s k) (getEnabledServices s)).
  unfold getEnabledServices. apply foldl_invariant.
  - apply foldl_invariant; [apply map_Forall_empty|].
    intros acc [service info] Hin%elem_of_range Hacc.
    destruct (ServiceInfo.Enabled info) eqn:E; [|done].
    apply map_Forall_insert_2; [|done]. left. by exists info.
  - intros acc [name group] Hin%elem_of_range Hacc.
    destruct (ServiceGroup.Enabled group) eqn:E; [|done].
    apply setAll_Forall; [|done]. intros k Hk. right. by exists name, group.
Qed.

Lemma enabled_services_complete s k :
  enabled_service s k → getEnabledServices s !! k = Some true.
Proof.
  intros Hk.
  assert (map_Forall (λ _ b, b = true) (getEnabledServices s)) as Htrue.
  { unfold getEnabledServices. apply foldl_invariant.
    - apply foldl_invariant; [apply map_Forall_empty|].
      intros acc [service info] _ Hacc. destruct (ServiceInfo.Enabled info); [|done].
      by apply map_Forall_insert_2.
    - intros acc [name group] _ Hacc. destruct (ServiceGroup.Enabled group); [|done].
      by apply setAll_Forall. }
  assert (k ∈ dom (getEnabledServices s)) as [b Hb]%elem_of_dom.
  { unfold getEnabledServices.
    assert (Hmono : ∀ (acc : gmap string bool) (y : string * ServiceGroup.t),
      dom acc ⊆ dom (let '(_, group) := y in
                     if ServiceGroup.Enabled group
                     then setAll (ServiceGroup.Services group) true acc else acc)).
    { intros acc [name group].
      destruct (ServiceGroup.Enabled group); [apply dom_setAll|done]. }
    destruct Hk as [(info & Hl & He)|(name & group & Hl & He & Hk)].
    - eapply (foldl_invariant (λ m : gmap string bool, k ∈ dom m)).
      + eapply (foldl_reaches dom _ _ _ (k, info)).
        * intros acc [service i]. destruct (ServiceInfo.Enabled i); [|done].
          rewrite dom_insert. set_solver.
        * by apply elem_of_range.
        * intros acc. simpl. rewrite He, dom_insert. set_solver.
      + intros acc y _ Hacc. by apply Hmono.
    - eapply (foldl_reaches dom _ _ _ (name, group)); [done| by apply elem_of_range |].
      intros acc. simpl. rewrite He. by apply elem_of_dom_setAll. }
  rewrite Hb. f_equal. by eapply Htrue.
Qed.

Lemma recordLine_keys enabledServices versions line k :
  k ∈ dom (recordLine enabledServices versions line) →
  k ∈ dom versions ∨ k ∈ dom enabledServices.
Proof.
  unfold recordLine. case_decide; [by left|].
  destruct (strings.Split line strings.tab) as [|serviceName [|image [|??]]]; [by left..| |by left].
  destruct (enabledServices !! serviceName) as [b|] eqn:En; [|by left].
  destruct (strings.Split image strings.colon) as [|repo [|tag [|??]]]; [by left..| |by left].
  rewrite dom_insert. intros [->%elem_of_singleton|?]%elem_of_union; [right|by left].
  apply elem_of_dom. eauto.
Qed.

Lemma recordLines_keys enabledServices versions lines k :
  k ∈ dom (foldl (recordLine enabledServices) versions lines) →
  k ∈ dom versions ∨ k ∈ dom enabledServices.
Proof.
  revert versions. induction lines as [|line lines IH]; intros versions; [by left|].
  simpl. intros [Hk|Hk]%IH; [|by right]. by apply recordLine_keys in Hk.
Qed.

(** What one call of [getCurrentVersions] does, in [src/main.go]... *)
Lemma main_getCurrentVersions_run s namespace versions w :
  let r := kubectl (cmd_get_deployment namespace) w in
  MainGo.getCurrentVersions s namespace versions w
  = mkOut
      (if r.1.2 then (versions, Some ("获取部署信息失败: " ++ r.1.1))
       else (foldl (recordLine (getEnabledServices s)) versions
               (strings.Split (strings.TrimSpace r.1.1) strings.newline), None))
      [EvKubectl (cmd_get_deployment namespace) r.1.1 r.1.2]
      r.2.
Proof.
  unfold MainGo.getCurrentVersions, bind, exec, ret. simpl.
  by destruct (kubectl (cmd_get_deployment namespace) w).1.2.
Qed.

(** ... and in [src/unnamed/part_001]. *)
Lemma p1_getCurrentVersions_run s namespace w :
  let r := kubectl (cmd_get_deployment namespace) w in
  Part001.getCurrentVersions s namespace w
  = mkOut
      (if r.1.2 then (∅, Some ("获取部署信息失败: " ++ r.1.1))
       else (foldl (recordLine (getEnabledServices s)) ∅
               (strings.Split (strings.TrimSpace r.1.1) strings.newline), None))
      [EvKubectl (cmd_get_deployment namespace) r.1.1 r.1.2]
      r.2.
Proof.
  unfold Part001.getCurrentVersions, bind, exec, ret. simpl.
  by destruct (kubectl (cmd_get_deployment namespace) w).1.2.
Qed.

Lemma main_observed_enabled s namespace versions w k :
  k ∈ dom (res (MainGo.getCurrentVersions s namespace versions w)).1 →
  k ∈ dom versions ∨ enabled_service s k.
Proof.
  rewrite main_getCurrentVersions_run. simpl.
  destruct (kubectl (cmd_get_deployment namespace) w).1.2; simpl; [by left|].
  intros [?|[b Hb]%elem_of_dom]%recordLines_keys; [by left|right].
  by eapply enabled_services_sound.
Qed.

Lemma p1_observed_enabled s namespace w k :
  k ∈ dom (res (Part001.getCurrentVersions s namespace w)).1 → enabled_service s k.
Proof.
  rewrite p1_getCurrentVersions_run. simpl.
  destruct (kubectl (cmd_get_deployment namespace) w).1.2; simpl.
  - by rewrite dom_empty, elem_of_empty.
  - intros [Hk|[b Hb]%elem_of_dom]%recordLines_keys.
    + by rewrite dom_empty, elem_of_empty in Hk.
    + by eapply enabled_services_sound.
Qed.
End ReaderFacts.

(** ** A listed scope that names every enabled entry *)

Section ListedScope.
Context `{Runtime}.
Implicit Types (s : Service) (acc : gmap string string).

Lemma main_selectToken_single s versionInput acc token :
  enabled_single s token → token ∈ dom (MainGo.selectToken s versionInput acc token).
Proof.
  intros (info & Hl & He). unfold MainGo.selectToken. rewrite Hl, He.
  assert (token ∈ dom (<[token := selectVersion versionInput (ServiceInfo.Version info)]> acc))
    as Hin by (rewrite dom_insert; set_solver).
  destruct (ServiceGroups (services s) !! token) as [group|]; [|done].
  destruct (ServiceGroup.Enabled group); [|done].
  by apply dom_setAll.
Qed.

Lemma main_selectToken_group s versionInput acc token group k :
  ServiceGroups (services s) !! token = Some group →
  ServiceGroup.Enabled group = true → k ∈ ServiceGroup.Services group →
  k ∈ dom (MainGo.selectToken s versionInput acc token).
Proof.
  intros Hl He Hk. unfold MainGo.selectToken. rewrite Hl, He.
  by apply elem_of_dom_setAll.
Qed.

Lemma main_listed_covers s servicesInput versionInput k :
  servicesInput ≠ "" →
  (∀ name, enabled_single s name ∨ enabled_group s name →
           name ∈ strings.Split servicesInput strings.comma) →
  enabled_service s k →
  k ∈ dom (MainGo.getSelectedServices s servicesInput versionInput).
Proof.
  intros Hne Hlisted Hk. rewrite main_listed_scope by done.
  destruct Hk as [Hs|(name & group & Hl & He & Hk)].
  - eapply (foldl_reaches dom _ _ _ k).
    + intros acc y. apply main_selectToken_mono.
    + apply Hlisted. by left.
    + intros acc. by apply main_selectToken_single.
  - eapply (foldl_reaches dom _ _ _ name).
    + intros acc y. apply main_selectToken_mono.
    + apply Hlisted. right. by exists group.
    + intros acc. by eapply main_selectToken_group.
Qed.

Lemma p1_selectToken_single s versionInput st token :
  enabled_single s (strings.TrimSpace token) →
  Part001.selectToken s versionInput st token
  = (<[strings.TrimSpace token :=
         selectVersion versionInput
           (default "" (ServiceInfo.Version
                          <$> SingleServices (services s) !! strings.TrimSpace token))]> st.1,
     st.2).
Proof.
  intros (info & Hl & He). destruct st as [acc logged]. simpl. by rewrite Hl, He.
Qed.

Lemma p1_selectToken_group s versionInput st token group :
  ¬ enabled_single s (strings.TrimSpace token) →
  ServiceGroups (services s) !! strings.TrimSpace token = Some group →
  ServiceGroup.Enabled group = true →
  Part001.selectToken s versionInput st token
  = (setAll (ServiceGroup.Services group)
            (selectVersion versionInput (ServiceGroup.Version group)) st.1, st.2).
Proof.
  intros Hns Hl He. destruct st as [acc logged]. simpl. rewrite Hl, He.
  destruct (SingleServices (services s) !! strings.TrimSpace token) as [info|] eqn:Es; [|done].
  destruct (ServiceInfo.Enabled info) eqn:Ee; [|done].
  destruct Hns. by exists info.
Qed.

Lemma p1_listed_covers s servicesInput versionInput k :
  servicesInput ≠ "" →
  (∀ name, enabled_single s name → ¬ enabled_group s name) →
  (∀ name, enabled_single s name ∨ enabled_group s name →
           name ∈ strings.TrimSpace <$> strings.Split servicesInput strings.comma) →
  enabled_service s k →
  k ∈ dom (Part001.getSelectedServices s servicesInput versionInput).1.
Proof.
  intros Hne Hclash Hlisted Hk. rewrite p1_listed_scope by done.
  destruct Hk as [Hs|(name & group & Hl & He & Hk)].
  - assert (enabled_single s k ∨ enabled_group s k) as Hn by (by left).
    apply Hlisted, list_elem_of_fmap in Hn as (token & -> & Hin).
    eapply (foldl_reaches (λ st, dom st.1) _ _ _ token); [|done|].
    + intros st y. apply p1_selectToken_mono.
    + intros st. rewrite p1_selectToken_single by done. simpl.
      rewrite dom_insert. set_solver.
  - assert (enabled_single s name ∨ enabled_group s name) as Hn
      by (right; by exists group).
    apply Hlisted, list_elem_of_fmap in Hn as (token & -> & Hin).
    eapply (foldl_reaches (λ st, dom st.1) _ _ _ token); [|done|].
    + intros st y. apply p1_selectToken_mono.
    + intros st. erewrite p1_selectToken_group; [|..|done|done].
      * simpl. by apply elem_of_dom_setAll.
      * intros Hs. eapply Hclash; [done|]. by exists group.
Qed.
End ListedScope.

(** ** Lookups in a listed scope *)

Lemma foldl_last_gives {A B} (get : B → option string) (f : B → A → B)
    (g : A → option string) (l : list A) (b : B) :
  (∀ b x, get (f b x) = match g x with Some v => Some v | None => get b end) →
  get (foldl f b l) = match last (omap g l) with Some v => Some v | None => get b end.
Proof.
  intros Hstep. revert b. induction l as [|x l IH]; intros b; [done|].
  simpl. rewrite IH, Hstep.
  destruct (g x) as [v|]; simpl; change (list_omap A string g l) with (omap g l);
    [rewrite last_cons|]; by destruct (last (omap g l)).
Qed.

Lemma foldl_collects {A B C} (get : B → list C) (f : B → A → B)
    (g : A → option C) (l : list A) (b : B) :
  (∀ b x, get (f b x) = (get b ++ match g x with Some c => [c] | None => [] end)%list) →
  get (foldl f b l) = (get b ++ omap g l)%list.
Proof.
  intros Hstep. revert b. induction l as [|x l IH]; intros b; simpl.
  - by rewrite app_nil_r.
  - rewrite IH, Hstep, <- app_assoc. by destruct (g x).
Qed.

(** A property that one step establishes and no step destroys holds at the
    end. *)
Lemma foldl_establishes {A B} (P : B → Prop) (f : B → A → B) (l : list A) (b : B) (x : A) :
  x ∈ l → (∀ acc, P (f acc x)) → (∀ acc y, y ∈ l → P acc → P (f acc y)) →
  P (foldl f b l).
Proof.
  intros Hx Hset Hkeep. revert b. induction l as [|y l IH]; intros b;
    [by apply elem_of_nil in Hx|].
  simpl. apply elem_of_cons in Hx as [<-|Hx].
  - apply foldl_invariant; [apply Hset|]. intros acc z Hz. apply Hkeep. by right.
  - apply IH; [done|]. intros acc z Hz. apply Hkeep. by right.
Qed.

Lemma main_selectToken_lookup (s : Service) versionInput acc token name :
  MainGo.selectToken s versionInput acc token !! name
  = match main_token_gives s versionInput token name with
    | Some version => Some version
    | None => acc !! name
    end.
Proof.
  unfold MainGo.selectToken, main_token_gives, group_gives, single_gives.
  destruct (ServiceGroups (services s) !! token) as [group|];
    [destruct (ServiceGroup.Enabled group)|]; cbn [andb];
    rewrite ?lookup_setAll;
    try (case_bool_decide; [rewrite decide_True by done; done | rewrite decide_False by done]);
    (destruct (SingleServices (services s) !! token) as [info|];
      [destruct (ServiceInfo.Enabled info)|]; cbn [andb]; [|done..];
      case_bool_decide as Hn; [subst; by rewrite lookup_insert_eq | by rewrite lookup_insert_ne]).
Qed.

Lemma p1_selectToken_lookup (s : Service) versionInput st token name :
  (Part001.selectToken s versionInput st token).1 !! name
  = match p1_token_gives s versionInput token name with
    | Some version => Some version
    | None => st.1 !! name
    end.
Proof.
  destruct st as [acc logged].
  unfold Part001.selectToken, p1_token_gives, is_enabled_single, group_gives, single_gives.
  cbv zeta.
  destruct (SingleServices (services s) !! strings.TrimSpace token) as [info|];
    [destruct (ServiceInfo.Enabled info)|]; cbn [andb fst].
  - case_bool_decide as Hn; [subst; by rewrite lookup_insert_eq | by rewrite lookup_insert_ne].
  - destruct (ServiceGroups (services s) !! strings.TrimSpace token) as [group|];
      [destruct (ServiceGroup.Enabled group)|]; cbn [andb fst]; [|done..].
    rewrite lookup_setAll.
    case_bool_decide; [by rewrite decide_True | by rewrite decide_False].
  - destruct (ServiceGroups (services s) !! strings.TrimSpace token) as [group|];
      [destruct (ServiceGroup.Enabled group)|]; cbn [andb fst]; [|done..].
    rewrite lookup_setAll.
    case_bool_decide; [by rewrite decide_True | by rewrite decide_False].
Qed.

Lemma p1_selectToken_logged (s : Service) versionInput st token :
  (Part001.selectToken s versionInput st token).2
  = (st.2 ++ match token_warning s token with Some line => [line] | None => [] end)%list.
Proof.
  destruct st as [acc logged].
  unfold Part001.selectToken, token_warning, is_enabled_single, is_enabled_group.
  cbv zeta.
  destruct (SingleServices (services s) !! strings.TrimSpace token) as [info|];
    [destruct (ServiceInfo.Enabled info)|]; cbn [orb snd]; rewrite ?app_nil_r; [done|..];
    (destruct (ServiceGroups (services s) !! strings.TrimSpace token) as [group|];
      [destruct (ServiceGroup.Enabled group)|]; cbn [snd]; by rewrite ?app_nil_r).
Qed.



Section ListedLookup.
Context `{Runtime}.

Lemma p1_listed_lookup (s : Service) (servicesInput versionInput name : string) :
  servicesInput ≠ "" →
  (Part001.getSelectedServices s servicesInput versionInput).1 !! name
  = last (omap (λ token, p1_token_gives s versionInput token name)
            (strings.Split servicesInput strings.comma)).
Proof.
  intros Hne. rewrite p1_listed_scope by done.
  rewrite (foldl_last_gives (λ st : gmap string string * list string, st.1 !! name) _
             (λ token, p1_token_gives s versionInput token name)).
  - simpl. rewrite lookup_empty. by destruct (last _).
  - intros st token. apply p1_selectToken_lookup.
Qed.
End ListedLookup.


(** ** The service resolver: claims *)

(** Lookups in the sample documents, for the concrete instances below. *)
Ltac invert_lookup H :=
  repeat (apply lookup_insert_Some in H as [[? ?]|[? H]]; simplify_eq);
  try (by rewrite lookup_empty in H).

Ltac absurd_member H :=
  simpl in H; repeat (apply elem_of_cons in H as [?|H]; [done|]);
  by apply elem_of_nil in H.

(** C1 (the code departs from it).  In [src/main.go] the branch for an empty
    scope filter never consults [versionInput]: the resolved target is the one
    of an absent override, so that on the sample documents the override [v9]
    leaves every service at its default version. *)
Theorem C1_main_empty_scope_ignores_override :
  (∀ (RT : Runtime) (s : Service) (versionInput : string),
     MainGo.getSelectedServices s "" versionInput = MainGo.getSelectedServices s "" "")
  ∧ @MainGo.getSelectedServices (scripted all_fine) sample "" "v9"
    = {[ "docs-fe" := "v3.48.1"; "nft-core-be" := "v1.15.5"; "nft-ethereum-be" := "v1.15.5" ]}.
Proof. split; [done | by vm_compute]. Qed.

(** C3.  Every key of a resolved target, and every key that
    [getCurrentVersions] adds to the observed state, is an enabled single
    service or a member of an enabled group: a disabled single service that
    no enabled group lists, and the members of a disabled group as such,
    never appear.  This holds in both variants. *)
Theorem C3_only_enabled_services_appear `{Runtime} (s : Service)
    (servicesInput versionInput namespace : string) (versions : gmap string string)
    (w : World) (k : string) :
  (k ∈ dom (MainGo.getSelectedServices s servicesInput versionInput) → enabled_service s k)
  ∧ (k ∈ dom (res (MainGo.getCurrentVersions s namespace versions w)).1 →
     k ∈ dom versions ∨ enabled_service s k)
  ∧ (k ∈ dom (Part001.getSelectedServices s servicesInput versionInput).1 →
     enabled_service s k)
  ∧ (k ∈ dom (res (Part001.getCurrentVersions s namespace w)).1 → enabled_service s k).
Proof.
  split_and!.
  - apply main_selected_enabled.
  - apply main_observed_enabled.
  - apply p1_selected_enabled.
  - apply p1_observed_enabled.
Qed.

Lemma C3_witness : enabled_service sample "nft-core-be".
Proof.
  apply (proj1 (@C3_only_enabled_services_appear (scripted all_fine) sample "nft" ""
                  "default" ∅ tt "nft-core-be")).
  apply elem_of_dom. exists "v1.15.5". vm_compute. reflexivity.
Defined.

(** The same in the words of the claim: a disabled single service that is in
    no enabled group is a key of neither map. *)
Corollary disabled_single_absent `{Runtime} (s : Service)
    (servicesInput versionInput namespace : string) (w : World) (k : string) (info : ServiceInfo.t) :
  SingleServices (services s) !! k = Some info →
  ServiceInfo.Enabled info = false →
  (∀ name group, ServiceGroups (services s) !! name = Some group →
                 ServiceGroup.Enabled group = true → k ∉ ServiceGroup.Services group) →
  (k ∉ dom (MainGo.getSelectedServices s servicesInput versionInput))
  ∧ (k ∉ dom (res (MainGo.getCurrentVersions s namespace ∅ w)).1)
  ∧ (k ∉ dom (Part001.getSelectedServices s servicesInput versionInput).1)
  ∧ (k ∉ dom (res (Part001.getCurrentVersions s namespace w)).1).
Proof.
  intros Hl He Hg.
  assert (¬ enabled_service s k) as Hno.
  { intros [(info' & Hl' & He')|(name & group & ? & ? & ?)]; [congruence|].
    by eapply Hg. }
  split_and!; intros Hk; apply Hno.
  - by eapply main_selected_enabled.
  - apply main_observed_enabled in Hk as [Hk|Hk]; [|done].
    by rewrite dom_empty, elem_of_empty in Hk.
  - by eapply p1_selected_enabled.
  - by eapply p1_observed_enabled.
Qed.



Example p1_token_selects_single_only :
  @Part001.getSelectedServices (scripted all_fine) clash "x" "" = ({[ "x" := "v1" ]}, []).
Proof. by vm_compute. Qed.

(** In [src/main.go] the same token adds the group's members as well. *)
Example main_token_adds_single_and_group :
  @MainGo.getSelectedServices (scripted all_fine) clash "x" ""
  = {[ "x" := "v1"; "a" := "v2"; "b" := "v2" ]}.
Proof. by vm_compute. Qed.

Lemma sample_enabled_names (name : string) :
  enabled_single sample name ∨ enabled_group sample name → name ∈ ["docs-fe"; "nft"].
Proof.
  intros [(info & Hl & _)|(group & Hl & _)]; simpl in Hl.
  - invert_lookup Hl. set_solver.
  - invert_lookup Hl. set_solver.
Qed.

Lemma sample_unambiguous (versionInput : string) : unambiguous sample versionInput.
Proof.
  intros k v1 v2
    [(i1 & L1 & _ & ->)|(n1 & g1 & L1 & _ & M1 & ->)]
    [(i2 & L2 & _ & ->)|(n2 & g2 & L2 & _ & M2 & ->)];
    simpl in L1, L2; invert_lookup L1; invert_lookup L2; try done;
    first [absurd_member M1 | absurd_member M2].
Qed.

(** The claim of C4 as it is written fails in [src/unnamed/part_001]: with a
    name shared by an enabled single service and an enabled group, the listed
    scope [x] yields the single service only, the empty scope the group's
    members too. *)
Lemma C4_counterexample :
  ¬ (∀ (RT : Runtime) (s : Service) (servicesInput versionInput : string),
       (∀ name, name ∈ strings.TrimSpace <$> strings.Split servicesInput strings.comma
                ↔ enabled_single s name ∨ enabled_group s name) →
       (Part001.getSelectedServices s "" versionInput).1
       = (Part001.getSelectedServices s servicesInput versionInput).1).
Proof.
  intros Hclaim. specialize (Hclaim (scripted all_fine) clash "x" "").
  assert ((@Part001.getSelectedServices (scripted all_fine) clash "" "").1 !! "a"
          = (@Part001.getSelectedServices (scripted all_fine) clash "x" "").1 !! "a") as Ha.
  { rewrite Hclaim; [done|]. intros name. split.
    - intros ->%list_elem_of_singleton. left.
      exists (ServiceInfo.Build_t true "v1"). by split.
    - intros [(info & Hl & _)|(group & Hl & _)]; simpl in Hl; invert_lookup Hl;
        by apply list_elem_of_singleton. }
  vm_compute in Ha. discriminate Ha.
Qed.

(** A second reason, in both variants: when two enabled entries give one
    service different versions, the winner depends on the order of the
    tokens. *)
Example order_decides_when_ambiguous :
  @MainGo.getSelectedServices (scripted all_fine) overlap "" "" = {[ "a" := "v2" ]}
  ∧ @MainGo.getSelectedServices (scripted all_fine) overlap "g,a" "" = {[ "a" := "v1" ]}
  ∧ (@Part001.getSelectedServices (scripted all_fine) overlap "" "").1 = {[ "a" := "v2" ]}
  ∧ (@Part001.getSelectedServices (scripted all_fine) overlap "g,a" "").1 = {[ "a" := "v1" ]}.
Proof. split_and!; by vm_compute. Qed.

(** C4 (amended).  When no service is given two different versions by the
    enabled entries, the empty scope filter and any scope filter whose tokens
    include every enabled single service name and every enabled group name
    resolve to the same map: in [src/main.go] for an empty override, in
    [src/unnamed/part_001] for every override, the tokens being trimmed and
    no enabled single service sharing its name with an enabled group. *)
Theorem C4_empty_scope_equals_full_listing `{Runtime} (s : Service)
    (servicesInput versionInput : string) :
  unambiguous s versionInput →
  (versionInput = "" →
   (∀ name, enabled_single s name ∨ enabled_group s name →
            name ∈ strings.Split servicesInput strings.comma) →
   MainGo.getSelectedServices s "" versionInput
   = MainGo.getSelectedServices s servicesInput versionInput)
  ∧ ((∀ name, enabled_single s name → ¬ enabled_group s name) →
     (∀ name, enabled_single s name ∨ enabled_group s name →
              name ∈ strings.TrimSpace <$> strings.Split servicesInput strings.comma) →
     (Part001.getSelectedServices s "" versionInput).1
     = (Part001.getSelectedServices s servicesInput versionInput).1).
Proof.
  intros Hun. destruct (decide (servicesInput = "")) as [->|Hne]; [done|]. split.
  - intros -> Hlisted. apply (resolved_unique s ""); [done|..].
    + apply main_empty_sound.
    + by apply main_listed_sound.
    + intros k Hk. rewrite main_empty_scope. by apply all_enabled_covers.
    + intros k Hk. by apply main_listed_covers.
  - intros Hclash Hlisted. apply (resolved_unique s versionInput); [done|..].
    + apply p1_sound.
    + apply p1_sound.
    + intros k Hk. rewrite p1_empty_scope. by apply all_enabled_covers.
    + intros k Hk. by apply p1_listed_covers.
Qed.

Lemma C4_witness :
  @MainGo.getSelectedServices (scripted all_fine) sample "" ""
  = @MainGo.getSelectedServices (scripted all_fine) sample "docs-fe,nft" ""
  ∧ (@Part001.getSelectedServices (scripted all_fine) sample "" "").1
    = (@Part001.getSelectedServices (scripted all_fine) sample "docs-fe,nft" "").1.
Proof.
  destruct (@C4_empty_scope_equals_full_listing (scripted all_fine) sample "docs-fe,nft" ""
              (sample_unambiguous "")) as [Hmain Hp1].
  split.
  - apply Hmain; [reflexivity|]. apply sample_enabled_names.
  - apply Hp1; [|apply sample_enabled_names].
    intros name (info & Hl & _) (group & Hg & _). simpl in Hl, Hg.
    invert_lookup Hl; invert_lookup Hg.
Defined.

(** ** Splitting on a separator byte *)

Lemma Split_nonempty (s : string) (c : ascii) : strings.Split s c ≠ [].
Proof.
  destruct s as [|x s]; simpl; [done|].
  destruct (Ascii.eqb x c); [done|]. by destruct (strings.Split s c).
Qed.

Lemma Split_no_sep (s : string) (c : ascii) :
  c ∉ list_ascii_of_string s → strings.Split s c = [s].
Proof.
  induction s as [|x s IH]; simpl; [done|].
  intros [Hx Hs]%not_elem_of_cons.
  destruct (Ascii.eqb_spec x c) as [->|_]; [done|]. by rewrite IH.
Qed.

Lemma Split_app (a b : string) (c : ascii) :
  c ∉ list_ascii_of_string a →
  strings.Split (a ++ String c b) c = a :: strings.Split b c.
Proof.
  induction a as [|x a IH]; simpl.
  - intros _. by rewrite Ascii.eqb_refl.
  - intros [Hx Ha]%not_elem_of_cons.
    destruct (Ascii.eqb_spec x c) as [->|_]; [done|]. by rewrite IH.
Qed.

Lemma Split_inv (s : string) (c : ascii) (a : string) (rest : list string) :
  strings.Split s c = a :: rest →
  (c ∉ list_ascii_of_string a)
  ∧ ((rest = [] ∧ s = a) ∨ ∃ b, s = a ++ String c b ∧ rest = strings.Split b c).
Proof.
  revert a rest. induction s as [|x s IH]; intros a rest; simpl.
  - intros [= <- <-]. split; [apply not_elem_of_nil | by left].
  - destruct (Ascii.eqb_spec x c) as [->|Hne].
    + intros [= <- <-]. split; [apply not_elem_of_nil|]. right. by exists s.
    + destruct (strings.Split s c) as [|t ts] eqn:E; [by apply Split_nonempty in E|].
      intros [= <- <-]. destruct (IH t ts eq_refl) as [Ht Hcases]. split.
      * simpl. apply not_elem_of_cons. split; [congruence | done].
      * destruct Hcases as [[-> ->]|(b & -> & ->)]; [by left|]. right. by exists b.
Qed.

(** A string splits into exactly two parts when it holds the separator
    exactly once. *)
Lemma Split_two (s : string) (c : ascii) (a b : string) :
  strings.Split s c = [a; b] ↔
  s = a ++ String c b ∧ (c ∉ list_ascii_of_string a) ∧ (c ∉ list_ascii_of_string b).
Proof.
  split.
  - intros (Ha & [[? _]|(b' & -> & Hb')])%Split_inv; [done|].
    symmetry in Hb'. apply Split_inv in Hb' as (Hb & [[_ ->]|(? & _ & Hno)]); [done|].
    symmetry in Hno. by apply Split_nonempty in Hno.
  - intros (-> & Ha & Hb). by rewrite Split_app, Split_no_sep.
Qed.

(** ** Rows of the cluster query *)

Lemma recordLine_cases enabledServices versions line :
  recordLine enabledServices versions line = versions
  ∨ ∃ name repo tag,
      strings.Split line strings.tab = [name; repo ++ String strings.colon tag]
      ∧ line = image_row name repo tag
      ∧ is_Some (enabledServices !! name)
      ∧ (strings.colon ∉ list_ascii_of_string repo)
      ∧ (strings.colon ∉ list_ascii_of_string tag)
      ∧ recordLine enabledServices versions line = <[name := tag]> versions.
Proof.
  unfold recordLine. case_decide; [by left|].
  destruct (strings.Split line strings.tab) as [|name [|image [|??]]] eqn:El; [by left..| |by left].
  destruct (enabledServices !! name) as [b|] eqn:En; [|by left].
  destruct (strings.Split image strings.colon) as [|repo [|tag [|??]]] eqn:Ei; [by left..| |by left].
  right. exists name, repo, tag.
  apply Split_two in Ei as (-> & Hr & Ht). apply Split_two in El as (-> & _ & _).
  split_and!; eauto.
Qed.

Lemma recordLine_row enabledServices versions name repo tag :
  is_Some (enabledServices !! name) →
  strings.tab ∉ list_ascii_of_string name →
  strings.tab ∉ list_ascii_of_string (repo ++ String strings.colon tag) →
  strings.colon ∉ list_ascii_of_string repo →
  strings.colon ∉ list_ascii_of_string tag →
  recordLine enabledServices versions (image_row name repo tag)
  = <[name := tag]> versions.
Proof.
  intros [b Hb] Hn Hi Hr Ht. unfold recordLine, image_row.
  rewrite decide_False by (by destruct name).
  assert (strings.Split (name ++ String strings.tab (repo ++ String strings.colon tag))
            strings.tab = [name; repo ++ String strings.colon tag]) as ->
    by (by apply Split_two).
  rewrite Hb.
  assert (strings.Split (repo ++ String strings.colon tag) strings.colon = [repo; tag]) as ->
    by (by apply Split_two).
  done.
Qed.

(** Rows are recorded in order, so the last row of a name decides. *)
Lemma recordLines_settled enabledServices k tag lines versions :
  (∀ acc line, line ∈ lines →
     recordLine enabledServices acc line !! k = acc !! k
     ∨ recordLine enabledServices acc line !! k = Some tag) →
  (versions !! k = Some tag
   ∨ ∃ line, line ∈ lines ∧ ∀ acc, recordLine enabledServices acc line !! k = Some tag) →
  foldl (recordLine enabledServices) versions lines !! k = Some tag.
Proof.
  revert versions. induction lines as [|x lines IH]; intros versions Hstep Hsrc; simpl.
  - destruct Hsrc as [?|(line & []%elem_of_nil & _)]. done.
  - apply IH; [intros acc line Hin; apply Hstep; by right|].
    destruct Hsrc as [Hv|(line & [->|Hin]%elem_of_cons & Hline)].
    + left. destruct (Hstep versions x) as [->| ->]; [by left|done..].
    + by left.
    + right. by exists line.
Qed.

Section ObservedState.
Context `{Runtime}.

Lemma observed_rows (s : Service) (lines : list string) (k v : string) :
  foldl (recordLine (getEnabledServices s)) ∅ lines !! k = Some v →
  enabled_service s k
  ∧ ∃ repo, image_row k repo v ∈ lines
            ∧ (strings.colon ∉ list_ascii_of_string repo)
            ∧ (strings.colon ∉ list_ascii_of_string v).
Proof.
  revert k v.
  apply (foldl_invariant (λ m : gmap string string, ∀ k v, m !! k = Some v → _)).
  - intros k v Hk. by rewrite lookup_empty in Hk.
  - intros acc line Hin Hacc k v.
    destruct (recordLine_cases (getEnabledServices s) acc line)
      as [->|(name & repo & tag & _ & -> & [b Hb] & Hr & Ht & ->)]; [apply Hacc|].
    intros [[<- <-]|[_ Hk]]%lookup_insert_Some; [|by apply Hacc].
    split; [by eapply enabled_services_sound | by exists repo].
Qed.

Lemma observed_row_recorded (s : Service) (lines : list string) (k repo tag : string) :
  enabled_service s k →
  strings.tab ∉ list_ascii_of_string k →
  strings.tab ∉ list_ascii_of_string (repo ++ String strings.colon tag) →
  strings.colon ∉ list_ascii_of_string repo →
  strings.colon ∉ list_ascii_of_string tag →
  image_row k repo tag ∈ lines →
  (∀ line image, line ∈ lines → strings.Split line strings.tab = [k; image] →
                 line = image_row k repo tag) →
  foldl (recordLine (getEnabledServices s)) ∅ lines !! k = Some tag.
Proof.
  intros Hen Hk Hi Hr Ht Hin Huniq.
  assert (∀ acc, recordLine (getEnabledServices s) acc (image_row k repo tag) !! k
                 = Some tag) as Hrow.
  { intros acc. rewrite recordLine_row; [by rewrite lookup_insert_eq| |done..].
    rewrite (enabled_services_complete s k Hen). eauto. }
  apply recordLines_settled; [|right; by exists (image_row k repo tag)].
  intros acc line Hline.
  destruct (recordLine_cases (getEnabledServices s) acc line)
    as [->|(name & repo' & tag' & Hsplit & _ & _ & _ & _ & Hrec)]; [by left|].
  destruct (decide (name = k)) as [->|Hne].
  - right. rewrite (Huniq line _ Hline Hsplit). apply Hrow.
  - left. rewrite Hrec. by rewrite lookup_insert_ne.
Qed.
End ObservedState.

(** The claim of C9 as it is written fails: a row whose image reference has
    a second [:] (a registry host with a port) is dropped, although the text
    after its last [:] is the tag. *)
Lemma C9_counterexample :
  ¬ (∀ (RT : Runtime) (s : Service) (namespace : string) (w : World) (name image : string),
       (kubectl (cmd_get_deployment namespace) w).1.2 = false →
       name ++ String strings.tab image
         ∈ strings.Split (strings.TrimSpace (kubectl (cmd_get_deployment namespace) w).1.1)
             strings.newline →
       enabled_service s name →
       (res (Part001.getCurrentVersions s namespace w)).1 !! name
       = Some (afterLast strings.colon image)).
Proof.
  intros Hclaim.
  specialize (Hclaim (scripted ported_registry) sample "default" tt
                "docs-fe" "registry.example:5000/docs-fe:v3.48.1").
  assert (afterLast strings.colon "registry.example:5000/docs-fe:v3.48.1" = "v3.48.1")
    as Htag by reflexivity.
  rewrite Htag in Hclaim.
  assert ((res (@Part001.getCurrentVersions (scripted ported_registry) sample "default" tt)).1
            !! "docs-fe" = None) as Hnone by (by vm_compute).
  rewrite Hnone in Hclaim. discriminate Hclaim.
  - reflexivity.
  - vm_compute. by left.
  - left. exists (ServiceInfo.Build_t true "v3.48.1"). by split.
Qed.

(** C9 (amended).  After a successful query both variants build the same
    observed state from the lines of the trimmed output.  Every entry [k ↦ v]
    comes from a row [k<TAB>repo:v] whose name is an enabled service and
    whose image reference holds [:] exactly once, [v] being the text after
    it; such a row of an enabled service is recorded when no other row with
    two fields bears its name.  Hence services outside the enabled set,
    enabled services without such a row, and image references with no [:] or
    more than one leave no entry, and none of this is an error. *)
Theorem C9_observed_state_from_rows `{Runtime} (s : Service) (namespace : string) (w : World) :
  let output := (kubectl (cmd_get_deployment namespace) w).1.1 in
  let lines := strings.Split (strings.TrimSpace output) strings.newline in
  let observed := res (Part001.getCurrentVersions s namespace w) in
  (kubectl (cmd_get_deployment namespace) w).1.2 = false →
  observed.2 = None
  ∧ res (MainGo.getCurrentVersions s namespace ∅ w) = observed
  ∧ (∀ k v, observed.1 !! k = Some v →
       enabled_service s k
       ∧ ∃ repo, image_row k repo v ∈ lines
                 ∧ (strings.colon ∉ list_ascii_of_string repo)
                 ∧ (strings.colon ∉ list_ascii_of_string v))
  ∧ (∀ k repo tag,
       enabled_service s k →
       strings.tab ∉ list_ascii_of_string k →
       strings.tab ∉ list_ascii_of_string (repo ++ String strings.colon tag) →
       strings.colon ∉ list_ascii_of_string repo →
       strings.colon ∉ list_ascii_of_string tag →
       image_row k repo tag ∈ lines →
       (∀ line image, line ∈ lines → strings.Split line strings.tab = [k; image] →
                      line = image_row k repo tag) →
       observed.1 !! k = Some tag).
Proof.
  intros output lines observed Hok. subst observed.
  rewrite p1_getCurrentVersions_run, main_getCurrentVersions_run. simpl.
  rewrite Hok. simpl. split_and!; [done..| |].
  - intros k v. apply observed_rows.
  - intros k repo tag. apply observed_row_recorded.
Qed.

Lemma C9_witness :
  (res (@Part001.getCurrentVersions (scripted one_row) sample "default" tt)).1 !! "docs-fe"
  = Some "v3.48.0".
Proof.
  destruct (@C9_observed_state_from_rows (scripted one_row) sample "default" tt eq_refl)
    as (_ & _ & _ & Hrow).
  apply (Hrow "docs-fe" "registry.example/docs-fe" "v3.48.0").
  - left. exists (ServiceInfo.Build_t true "v3.48.1"). by split.
  - apply (bool_decide_unpack _). by vm_compute.
  - apply (bool_decide_unpack _). by vm_compute.
  - apply (bool_decide_unpack _). by vm_compute.
  - apply (bool_decide_unpack _). by vm_compute.
  - vm_compute. by left.
  - intros line image Hline _. vm_compute in Hline.
    by apply list_elem_of_singleton in Hline.
Defined.

(** ** Traces of the building blocks *)

Lemma out_eq {W A} (o1 o2 : Out W A) :
  res o1 = res o2 → evs o1 = evs o2 → fin o1 = fin o2 → o1 = o2.
Proof. destruct o1, o2. simpl. by intros -> -> ->. Qed.

Lemma never_nil p : never p [].
Proof. apply Forall_nil_2. Qed.

Lemma never_cons p e trace : p e = false → never p trace → never p (e :: trace).
Proof. intros. by apply Forall_cons_2. Qed.

Lemma never_app p t1 t2 : never p t1 → never p t2 → never p (t1 ++ t2).
Proof. intros. by apply Forall_app_2. Qed.

Lemma never_elem p e trace : never p trace → e ∈ trace → p e = false.
Proof. intros Hn He. by eapply (proj1 (Forall_forall _ _)) in Hn. Qed.

Lemma update_cmds_app t1 t2 : update_cmds (t1 ++ t2) = (update_cmds t1 ++ update_cmds t2)%list.
Proof. apply omap_app. Qed.

Lemma update_cmds_never trace : never is_update trace → update_cmds trace = [].
Proof.
  induction 1 as [|e trace He _ IH]; [done|].
  change (e :: trace) with ([e] ++ trace)%list.
  rewrite update_cmds_app, IH, app_nil_r.
  destruct e as [args ? ?| | | | | |]; [|done..]. unfold update_cmds. simpl in *. by rewrite He.
Qed.

Lemma failure_lines_app t1 t2 :
  failure_lines (t1 ++ t2) = (failure_lines t1 ++ failure_lines t2)%list.
Proof. apply omap_app. Qed.

Lemma failure_lines_never trace : never is_update trace → failure_lines trace = [].
Proof.
  induction 1 as [|e trace He _ IH]; [done|].
  change (e :: trace) with ([e] ++ trace)%list.
  rewrite failure_lines_app, IH, app_nil_r.
  destruct e as [args ? [|]| | | | | |]; [|done..]. unfold failure_lines. simpl in *. by rewrite He.
Qed.

Section Blocks.
Context `{Runtime}.
Implicit Types (s : Service) (w : World).

(** The context switcher of [src/main.go], case by case. *)
Lemma main_switchContext_run context w :
  let r0 := kubectl cmd_current_context w in
  let r1 := kubectl (cmd_use_context context) r0.2 in
  let r2 := kubectl cmd_get_nodes r1.2 in
  let asked := EvKubectl cmd_current_context r0.1.1 r0.1.2 in
  let told := EvPrint (nl ++ "🔄 切换 Kubernetes 环境: " ++ context ++ nl) in
  let switched := EvKubectl (cmd_use_context context) r1.1.1 r1.1.2 in
  MainGo.switchContext context w =
    if negb r0.1.2 && bool_decide (strings.TrimSpace r0.1.1 = context)
    then mkOut None [asked; EvPrint (nl ++ "当前 Kubernetes 环境: " ++ context ++ nl)] r0.2
    else if r1.1.2
    then mkOut (Some ("切换集群失败: " ++ r1.1.1)) [asked; told; switched] r1.2
    else mkOut (if r2.1.2 then Some ("集群连接检查失败: " ++ r2.1.1) else None)
           [asked; told; switched; EvKubectl cmd_get_nodes r2.1.1 r2.1.2] r2.2.
Proof.
  intros. unfold MainGo.switchContext, bind, exec, Print, emit, ret. simpl.
  fold r0. destruct (negb r0.1.2 && bool_decide (strings.TrimSpace r0.1.1 = context)); [done|].
  simpl. fold r1. destruct (r1.1.2) eqn:E1; [|simpl; fold r2; destruct (r2.1.2) eqn:E2];
    subst asked told switched; simpl; by rewrite ?E1, ?E2.
Qed.

(** The context switcher of [src/unnamed/part_001]. *)
Lemma p1_switchContext_run context w :
  let r := kubectl (cmd_use_context context) w in
  Part001.switchContext context w =
    mkOut (if r.1.2 then Some ("切换上下文失败: " ++ r.1.1) else None)
      [EvKubectl (cmd_use_context context) r.1.1 r.1.2] r.2.
Proof.
  intros. unfold Part001.switchContext, bind, exec, ret. simpl. fold r.
  by destruct (r.1.2).
Qed.

Lemma main_switchContext_never (p : Event → bool) context w :
  (∀ msg, p (EvPrint msg) = false) →
  (∀ out f, p (EvKubectl cmd_current_context out f) = false) →
  (∀ out f, p (EvKubectl (cmd_use_context context) out f) = false) →
  (∀ out f, p (EvKubectl cmd_get_nodes out f) = false) →
  never p (evs (MainGo.switchContext context w)).
Proof.
  intros Hprint H0 H1 H2. rewrite main_switchContext_run.
  repeat match goal with |- context [if ?b then _ else _] => destruct b end;
    repeat (apply never_cons; [done|]); apply never_nil.
Qed.

Lemma p1_switchContext_never (p : Event → bool) context w :
  (∀ out f, p (EvKubectl (cmd_use_context context) out f) = false) →
  never p (evs (Part001.switchContext context w)).
Proof.
  intros H1. rewrite p1_switchContext_run. by apply never_cons, never_nil.
Qed.

Lemma main_getCurrentVersions_never (p : Event → bool) s namespace versions w :
  (∀ out f, p (EvKubectl (cmd_get_deployment namespace) out f) = false) →
  never p (evs (MainGo.getCurrentVersions s namespace versions w)).
Proof. intros Hp. rewrite main_getCurrentVersions_run. by apply never_cons, never_nil. Qed.

Lemma p1_getCurrentVersions_never (p : Event → bool) s namespace w :
  (∀ out f, p (EvKubectl (cmd_get_deployment namespace) out f) = false) →
  never p (evs (Part001.getCurrentVersions s namespace w)).
Proof. intros Hp. rewrite p1_getCurrentVersions_run. by apply never_cons, never_nil. Qed.

Lemma logs_never (p : Event → bool) (lines : list string) w :
  (∀ msg, p (EvLog msg) = false) → never p (evs (forM lines Part001.Log w)).
Proof.
  intros Hp. revert w. induction lines as [|msg lines IH]; intros w; [apply never_nil|].
  cbn [forM bind evs res fin Part001.Log emit ret].
  apply never_cons; [done|]. apply never_app; [apply IH | apply never_nil].
Qed.

Lemma prints_never (p : Event → bool) (lines : list string) (f : string → string) w :
  (∀ msg, p (EvPrint msg) = false) →
  never p (evs (forM lines (λ line, Print (f line)) w)).
Proof.
  intros Hp. revert w. induction lines as [|msg lines IH]; intros w; [apply never_nil|].
  cbn [forM bind evs res fin Print emit ret].
  apply never_cons; [done|]. apply never_app; [apply IH | apply never_nil].
Qed.
End Blocks.


(** Symbolic execution of the monadic code: unfold the plumbing, split on the
    next branch. *)
Ltac go_cbn :=
  cbn [bind ret emit Print Scanln res evs fin forM fst snd
       MainGo.writeLog MainGo.previewVersions MainGo.printVersionComparison
       MainGo.confirmDeploy
       Part001.Log Part001.previewVersions Part001.printVersionComparison
       Part001.confirmDeploy].

Ltac go_case :=
  match goal with
  | |- context [match Environments ?c !! ?e with _ => _ end] =>
      destruct (Environments c !! e) as [?envConfig|] eqn:?
  | |- context [match res ?o with Some _ => _ | None => _ end] =>
      destruct (res o) as [?e|] eqn:?
  | |- context [match (res ?o).2 with Some _ => _ | None => _ end] =>
      destruct (res o).2 as [?e|] eqn:?
  | |- context [if decide ?P then _ else _] => destruct (decide P)
  | |- context [if negb ?b then _ else _] => destruct b eqn:?; cbn [negb]
  | |- context [if ?b then _ else _] => destruct b eqn:?
  end.

Ltac go_run := go_cbn; repeat (go_case; go_cbn).


(** ** The deployment executor *)

Section Executor.
Context `{Runtime}.
Implicit Types (w : World) (envConfig : Environment).

Lemma main_deployService_run service registry namespace version w :
  let image := registry ++ "/" ++ service ++ ":" ++ version in
  let r := kubectl (cmd_set_image service image namespace) w in
  let result := if r.1.2 then failure_line service r.1.1
                else "✅ " ++ service ++ " 发布成功" in
  MainGo.deployService service registry namespace version w =
    mkOut result
      [EvLog ("开始发布服务 " ++ service ++ " -> " ++ image);
       EvPrint ("🚀 发布 " ++ service ++ " -> " ++ image ++ nl);
       EvKubectl (cmd_set_image service image namespace) r.1.1 r.1.2;
       EvLogf result] r.2.
Proof.
  intros. subst result r image.
  unfold MainGo.deployService, MainGo.writeLog, MainGo.writeLogf, bind, exec, Print, emit, ret.
  cbn [res evs fin app].
  match goal with |- context [(kubectl ?c w).1.2] => destruct (kubectl c w).1.2 end;
    reflexivity.
Qed.

Lemma p1_deployService_run service registry namespace version w :
  let image := registry ++ "/" ++ service ++ ":" ++ version in
  let r := kubectl (cmd_set_image service image namespace) w in
  Part001.deployService service registry namespace version w =
    mkOut (if r.1.2 then Some (failure_line service r.1.1) else None)
      [EvLog ("开始发布服务 " ++ service ++ " -> " ++ image);
       EvPrint ("🚀 发布 " ++ service ++ " -> " ++ image ++ nl);
       EvKubectl (cmd_set_image service image namespace) r.1.1 r.1.2;
       EvLog (if r.1.2
              then "服务 " ++ service ++ " 发布失败: "
                   ++ strings.ReplaceAll r.1.1 "exit status 1" ""
              else "服务 " ++ service ++ " 发布成功")] r.2.
Proof.
  intros. subst r image.
  unfold Part001.deployService, Part001.Log, bind, exec, Print, emit, ret.
  cbn [res evs fin app].
  match goal with |- context [(kubectl ?c w).1.2] => destruct (kubectl c w).1.2 end;
    reflexivity.
Qed.

(** The fan-out issues exactly one update command per entry, whatever the
    outcome of the others. *)
Lemma main_tasks_update_cmds envConfig (entries : list (string * string)) w :
  update_cmds (evs (forM entries (MainGo.deployTask envConfig) w)) = update_for envConfig <$> entries.
Proof.
  revert w. induction entries as [|[service ver] entries IH]; intros w; [done|].
  cbn [forM bind evs res fin ret MainGo.deployTask MainGo.writeLog emit].
  rewrite main_deployService_run. cbn [evs fin res].
  rewrite !update_cmds_app, IH.
  change (update_cmds []) with (@nil (list string)). rewrite !app_nil_r. reflexivity.
Qed.

Lemma p1_tasks_update_cmds envConfig (entries : list (string * string)) w :
  update_cmds (evs (forM entries (Part001.deployTask envConfig) w)) = update_for envConfig <$> entries.
Proof.
  revert w. induction entries as [|[service ver] entries IH]; intros w; [done|].
  cbn [forM bind evs res fin ret Part001.deployTask].
  rewrite p1_deployService_run. cbn [evs fin res].
  rewrite !update_cmds_app, IH.
  change (update_cmds []) with (@nil (list string)). rewrite !app_nil_r. reflexivity.
Qed.

Lemma main_tasks_never (p : Event → bool) envConfig (entries : list (string * string)) w :
  (∀ msg, p (EvLog msg) = false) → (∀ format, p (EvLogf format) = false) →
  (∀ msg, p (EvPrint msg) = false) →
  (∀ service image namespace out f,
     p (EvKubectl (cmd_set_image service image namespace) out f) = false) →
  never p (evs (forM entries (MainGo.deployTask envConfig) w)).
Proof.
  intros Hl Hf Hp Hk. revert w.
  induction entries as [|[service ver] entries IH]; intros w; [apply never_nil|].
  cbn [forM bind evs res fin ret MainGo.deployTask MainGo.writeLog emit].
  rewrite main_deployService_run. cbn [evs fin res].
  repeat first [apply never_nil | apply never_cons; [done|] | apply never_app | apply IH].
Qed.

Lemma p1_tasks_never (p : Event → bool) envConfig (entries : list (string * string)) w :
  (∀ msg, p (EvLog msg) = false) → (∀ msg, p (EvPrint msg) = false) →
  (∀ service image namespace out f,
     p (EvKubectl (cmd_set_image service image namespace) out f) = false) →
  never p (evs (forM entries (Part001.deployTask envConfig) w)).
Proof.
  intros Hl Hp Hk. revert w.
  induction entries as [|[service ver] entries IH]; intros w; [apply never_nil|].
  cbn [forM bind evs res fin ret Part001.deployTask].
  rewrite p1_deployService_run. cbn [evs fin res].
  repeat first [apply never_nil | apply never_cons; [done|] | apply never_app | apply IH].
Qed.

Lemma failure_lines_task started shown service image namespace out f logged :
  failure_lines [EvLog started; EvPrint shown;
                 EvKubectl (cmd_set_image service image namespace) out f; EvLog logged]
  = if f then [failure_line service out] else [].
Proof. by destruct f. Qed.

Lemma main_failure_lines_task started shown service image namespace out f logged :
  failure_lines [EvLog started; EvPrint shown;
                 EvKubectl (cmd_set_image service image namespace) out f; EvLogf logged]
  = if f then [failure_line service out] else [].
Proof. by destruct f. Qed.

(** In [src/main.go] the result line of every failed update is among the
    collected results... *)
Lemma main_tasks_failures envConfig (entries : list (string * string)) w :
  failure_lines (evs (forM entries (MainGo.deployTask envConfig) w))
  ⊆ res (forM entries (MainGo.deployTask envConfig) w).
Proof.
  revert w. induction entries as [|[service ver] entries IH]; intros w; [done|].
  cbn [forM bind evs res fin ret MainGo.deployTask MainGo.writeLog emit].
  rewrite main_deployService_run. cbn [evs fin res].
  rewrite !failure_lines_app, main_failure_lines_task.
  change (failure_lines []) with (@nil string).
  match goal with |- context [EvLog ?m] =>
    change (failure_lines [EvLog m]) with (@nil string) end.
  rewrite !app_nil_r.
  match goal with |- context [kubectl ?c w] => destruct (kubectl c w).1.2 end.
  - intros d [->%list_elem_of_singleton|Hd]%elem_of_app; [by left|].
    right. by apply IH.
  - intros d Hd. right. by apply IH.
Qed.

(** ... and in [src/unnamed/part_001] the errors read back from the channel
    are exactly the diagnostics of the failed updates. *)
Lemma p1_tasks_failures envConfig (entries : list (string * string)) w :
  omap id (res (forM entries (Part001.deployTask envConfig) w))
  = failure_lines (evs (forM entries (Part001.deployTask envConfig) w)).
Proof.
  revert w. induction entries as [|[service ver] entries IH]; intros w; [done|].
  cbn [forM bind evs res fin ret Part001.deployTask].
  rewrite p1_deployService_run. cbn [evs fin res].
  rewrite !failure_lines_app, failure_lines_task, <- IH.
  change (failure_lines []) with (@nil string). rewrite !app_nil_r.
  match goal with |- context [kubectl ?c w] => by destruct (kubectl c w).1.2 end.
Qed.
End Executor.

(** ** The operations *)

(** Discharge [never p trace] for a trace assembled from the blocks. *)
Ltac quiet_all :=
  repeat lazymatch goal with
  | |- never _ [] => apply never_nil
  | |- never _ (_ :: _) => apply never_cons; [done|]
  | |- never _ (_ ++ _)%list => apply never_app
  | |- never _ (evs (MainGo.switchContext _ _)) => apply main_switchContext_never; done
  | |- never _ (evs (Part001.switchContext _ _)) => apply p1_switchContext_never; done
  | |- never _ (evs (MainGo.getCurrentVersions _ _ _ _)) =>
      apply main_getCurrentVersions_never; done
  | |- never _ (evs (Part001.getCurrentVersions _ _ _)) =>
      apply p1_getCurrentVersions_never; done
  | |- never _ (evs (forM _ Part001.Log _)) => apply logs_never; done
  | |- never _ (evs (forM _ (λ _, Print _) _)) => apply prints_never; done
  | |- never _ (evs (forM _ (MainGo.deployTask _) _)) => apply main_tasks_never; done
  | |- never _ (evs (forM _ (Part001.deployTask _) _)) => apply p1_tasks_never; done
  end.

Section Operations.
Context `{Runtime}.
Implicit Types (s : Service) (w : World).

(** [main] turns the error of the operation into the exit code. *)
Lemma main_main_run s (isCheck : bool) env servicesInput versionInput w :
  let o := if isCheck then MainGo.Check s env servicesInput versionInput w
           else MainGo.Deploy s env servicesInput versionInput w in
  MainGo.main s isCheck env servicesInput versionInput w =
    match res o with
    | Some e => mkOut 1 (evs o ++ [EvPrint ("❌ " ++ e ++ nl)]) (fin o)
    | None => mkOut 0 (evs o) (fin o)
    end.
Proof.
  intros o. subst o. unfold MainGo.main.
  destruct isCheck; apply out_eq; go_run; rewrite ?app_nil_r; reflexivity.
Qed.

Lemma p1_main_run s (isCheck : bool) env servicesInput versionInput w :
  let o := if isCheck then Part001.Check s env servicesInput versionInput w
           else Part001.Deploy s env servicesInput versionInput w in
  Part001.main s isCheck env servicesInput versionInput w =
    match res o with
    | Some e => mkOut 1 (evs o ++ [EvPrint ("操作失败: " ++ e ++ nl)]) (fin o)
    | None => mkOut 0 (evs o) (fin o)
    end.
Proof.
  intros o. subst o. unfold Part001.main.
  destruct isCheck; apply out_eq; go_run; rewrite ?app_nil_r; reflexivity.
Qed.

(** *** Nothing selected *)

Lemma main_Deploy_empty s env servicesInput versionInput w :
  MainGo.getSelectedServices s servicesInput versionInput = ∅ →
  is_Some (res (MainGo.Deploy s env servicesInput versionInput w))
  ∧ never is_update (evs (MainGo.Deploy s env servicesInput versionInput w))
  ∧ (∀ envConfig, Environments (config s) !! env = Some envConfig →
       res (MainGo.switchContext (Context envConfig) w) = None →
       res (MainGo.Deploy s env servicesInput versionInput w)
       = Some "没有可用的服务进行发布").
Proof.
  intros Hsel. unfold MainGo.Deploy. rewrite Hsel. go_run;
    try (by rewrite map_size_empty in *);
    (split_and!; [eauto | quiet_all | intros; simplify_eq; done]).
Qed.

Lemma main_Check_empty s env servicesInput versionInput w :
  MainGo.getSelectedServices s servicesInput versionInput = ∅ →
  is_Some (res (MainGo.Check s env servicesInput versionInput w))
  ∧ never is_update (evs (MainGo.Check s env servicesInput versionInput w))
  ∧ (∀ envConfig, Environments (config s) !! env = Some envConfig →
       res (MainGo.switchContext (Context envConfig) w) = None →
       res (MainGo.Check s env servicesInput versionInput w)
       = Some "没有可用的服务进行检查").
Proof.
  intros Hsel. unfold MainGo.Check. rewrite Hsel. go_run;
    try (by rewrite map_size_empty in *);
    (split_and!; [eauto | quiet_all | intros; simplify_eq; done]).
Qed.

Lemma p1_Deploy_empty s env servicesInput versionInput w :
  (Part001.getSelectedServices s servicesInput versionInput).1 = ∅ →
  is_Some (res (Part001.Deploy s env servicesInput versionInput w))
  ∧ never is_update (evs (Part001.Deploy s env servicesInput versionInput w))
  ∧ (∀ envConfig, Environments (config s) !! env = Some envConfig →
       res (Part001.switchContext (Context envConfig) w) = None →
       res (Part001.Deploy s env servicesInput versionInput w)
       = Some "没有可用的服务进行发布").
Proof.
  intros Hsel. unfold Part001.Deploy. rewrite Hsel. go_run;
    try (by rewrite map_size_empty in *);
    (split_and!; [eauto | quiet_all | intros; simplify_eq; done]).
Qed.

(** With nothing selected, no operation reads an answer or runs a [kubectl]
    command other than those of the context switcher and the read of the
    deployments. *)
Lemma main_Deploy_empty_quiet s env servicesInput versionInput w :
  MainGo.getSelectedServices s servicesInput versionInput = ∅ →
  never is_foreign (evs (MainGo.Deploy s env servicesInput versionInput w))
  ∧ never is_answer (evs (MainGo.Deploy s env servicesInput versionInput w)).
Proof.
  intros Hsel. unfold MainGo.Deploy. rewrite Hsel. go_run;
    try (by rewrite map_size_empty in *); (split; quiet_all).
Qed.

Lemma main_Check_quiet s env servicesInput versionInput w :
  never is_foreign (evs (MainGo.Check s env servicesInput versionInput w))
  ∧ never is_answer (evs (MainGo.Check s env servicesInput versionInput w)).
Proof. unfold MainGo.Check. go_run; (split; quiet_all). Qed.

Lemma p1_Deploy_empty_quiet s env servicesInput versionInput w :
  (Part001.getSelectedServices s servicesInput versionInput).1 = ∅ →
  never is_foreign (evs (Part001.Deploy s env servicesInput versionInput w))
  ∧ never is_answer (evs (Part001.Deploy s env servicesInput versionInput w)).
Proof.
  intros Hsel. unfold Part001.Deploy. rewrite Hsel. go_run;
    try (by rewrite map_size_empty in *); (split; quiet_all).
Qed.

Lemma p1_Check_quiet s env servicesInput versionInput w :
  never is_foreign (evs (Part001.Check s env servicesInput versionInput w))
  ∧ never is_answer (evs (Part001.Check s env servicesInput versionInput w)).
Proof. unfold Part001.Check. go_run; (split; quiet_all). Qed.

(** [Deploy] runs no [kubectl] command other than its update commands, those
    of the context switcher and the reads of the deployments. *)
Lemma main_Deploy_no_foreign s env servicesInput versionInput w :
  never is_foreign (evs (MainGo.Deploy s env servicesInput versionInput w)).
Proof. unfold MainGo.Deploy, MainGo.deployAll. go_run; quiet_all. Qed.

Lemma p1_Deploy_no_foreign s env servicesInput versionInput w :
  never is_foreign (evs (Part001.Deploy s env servicesInput versionInput w)).
Proof. unfold Part001.Deploy, Part001.deployAll. go_run; quiet_all. Qed.

Lemma p1_Check_empty s env servicesInput versionInput w :
  (Part001.getSelectedServices s servicesInput versionInput).1 = ∅ →
  is_Some (res (Part001.Check s env servicesInput versionInput w))
  ∧ never is_update (evs (Part001.Check s env servicesInput versionInput w))
  ∧ (∀ envConfig, Environments (config s) !! env = Some envConfig →
       res (Part001.switchContext (Context envConfig) w) = None →
       (res (Part001.getCurrentVersions s (Namespace envConfig)
               (fin (Part001.switchContext (Context envConfig) w)))).2 = None →
       res (Part001.Check s env servicesInput versionInput w)
       = Some "没有可用的服务进行检查").
Proof.
  intros Hsel. unfold Part001.Check. rewrite Hsel. go_run;
    try (by rewrite map_size_empty in *);
    (split_and!; [eauto | quiet_all | intros; simplify_eq; done]).
Qed.
End Operations.

(** What changes, in a trace without update commands and without foreign
    commands: the active context and the log file. *)
Lemma changes_are_switch_or_log (trace : list Event) (e : Event) :
  never is_update trace → never is_foreign trace →
  e ∈ trace → changes_state e = true → is_switch e = true ∨ is_log e = true.
Proof.
  intros Hu Hf He Hc.
  apply (never_elem _ e) in Hu; [|done]. apply (never_elem _ e) in Hf; [|done].
  destruct e as [args out f|msg| | | | |format]; try done; [|by right..].
  left. unfold is_foreign, is_housekeeping in Hf. cbn [is_kubectl andb] in Hf.
  cbn [is_update] in Hu. cbn [is_update] in Hf. rewrite Hu in Hf. cbn [orb] in Hf.
  apply negb_false_iff in Hf. cbn [changes_state] in Hc. apply negb_true_iff in Hc.
  apply orb_false_iff in Hc as [Hquery Hget].
  rewrite Hquery in Hf. cbn [orb] in Hf.
  assert (bool_decide (args = cmd_get_nodes) = false) as Hnodes.
  { apply bool_decide_eq_false. intros ->. by apply bool_decide_eq_false in Hget. }
  assert (is_cluster_read (EvKubectl args out f) = false) as Hread.
  { apply bool_decide_eq_false. intros Htake. apply bool_decide_eq_false in Hget.
    apply Hget. destruct args as [|x [|y rest]]; [done..|].
    cbn in Htake. injection Htake as -> _. done. }
  rewrite Hnodes, Hread in Hf. cbn [orb] in Hf. by rewrite orb_false_r in Hf.
Qed.

(** The claim of C7 as it is written fails in its last clause: with nothing
    selected, [Check] of [src/main.go] has by then run
    [kubectl config use-context], which changes the active context. *)
Lemma C7_counterexample :
  ¬ (∀ (RT : Runtime) (s : Service) (isCheck : bool)
       (env servicesInput versionInput : string) (w : World),
       MainGo.getSelectedServices s servicesInput versionInput = ∅ →
       never changes_state
         (evs (if isCheck then MainGo.Check s env servicesInput versionInput w
               else MainGo.Deploy s env servicesInput versionInput w))).
Proof.
  intros Hclaim.
  assert (@MainGo.getSelectedServices (scripted all_fine) sample "zz" "" = ∅) as Hsel
    by (by vm_compute).
  specialize (Hclaim (scripted all_fine) sample true "pre" "zz" "" tt Hsel).
  apply (never_elem _ (EvKubectl (cmd_use_context "pre-cluster") "" false)) in Hclaim;
    [discriminate Hclaim|].
  vm_compute. repeat first [apply list_elem_of_here | apply list_elem_of_further].
Qed.

(** C7 (amended).  When the resolver returns an empty map, the operation
    ([Check] when [isCheck], [Deploy] otherwise) returns an error and its
    trace holds no update command; [main] prints the diagnostic after it and
    exits with code 1.  When the environment exists and the context switch
    succeeded (and, for [Check] in [src/unnamed/part_001], the cluster query
    too), the diagnostic is the one for an empty selection.  The operation
    reads no answer, and the only [kubectl] commands it runs are those of
    the context switcher and the read of the deployments: whatever it
    changes is the active context or a line of the log file, and the
    workloads of the cluster are left alone.  In both variants. *)
Theorem C7_empty_selection_is_terminal `{Runtime} (s : Service) (isCheck : bool)
    (env servicesInput versionInput : string) (w : World) :
  (MainGo.getSelectedServices s servicesInput versionInput = ∅ →
   let op := if isCheck then MainGo.Check s env servicesInput versionInput w
             else MainGo.Deploy s env servicesInput versionInput w in
   ∃ msg,
     res op = Some msg
     ∧ never is_update (evs op)
     ∧ MainGo.main s isCheck env servicesInput versionInput w
       = mkOut 1 (evs op ++ [EvPrint ("❌ " ++ msg ++ nl)]) (fin op)
     ∧ (∀ envConfig, Environments (config s) !! env = Some envConfig →
          res (MainGo.switchContext (Context envConfig) w) = None →
          msg = if isCheck then "没有可用的服务进行检查" else "没有可用的服务进行发布")
     ∧ never is_foreign (evs op)
     ∧ never is_answer (evs op)
     ∧ (∀ e, e ∈ evs op → changes_state e = true → is_switch e = true ∨ is_log e = true))
  ∧ ((Part001.getSelectedServices s servicesInput versionInput).1 = ∅ →
     let op := if isCheck then Part001.Check s env servicesInput versionInput w
               else Part001.Deploy s env servicesInput versionInput w in
     ∃ msg,
       res op = Some msg
       ∧ never is_update (evs op)
       ∧ Part001.main s isCheck env servicesInput versionInput w
         = mkOut 1 (evs op ++ [EvPrint ("操作失败: " ++ msg ++ nl)]) (fin op)
       ∧ (∀ envConfig, Environments (config s) !! env = Some envConfig →
            res (Part001.switchContext (Context envConfig) w) = None →
            (isCheck = true →
             (res (Part001.getCurrentVersions s (Namespace envConfig)
                     (fin (Part001.switchContext (Context envConfig) w)))).2 = None) →
            msg = if isCheck then "没有可用的服务进行检查" else "没有可用的服务进行发布")
       ∧ never is_foreign (evs op)
       ∧ never is_answer (evs op)
       ∧ (∀ e, e ∈ evs op → changes_state e = true →
            is_switch e = true ∨ is_log e = true)).
Proof.
  split; intros Hsel op; subst op.
  - rewrite main_main_run. destruct isCheck.
    + destruct (main_Check_empty s env servicesInput versionInput w Hsel)
        as ([msg Hmsg] & Hquiet & Hreached).
      destruct (main_Check_quiet s env servicesInput versionInput w) as [Hforeign Hasked].
      exists msg. rewrite Hmsg. split_and!; [done..| |done|done|].
      * intros envConfig Henv Hsw. specialize (Hreached envConfig Henv Hsw). congruence.
      * intros e. by apply changes_are_switch_or_log.
    + destruct (main_Deploy_empty s env servicesInput versionInput w Hsel)
        as ([msg Hmsg] & Hquiet & Hreached).
      destruct (main_Deploy_empty_quiet s env servicesInput versionInput w Hsel)
        as [Hforeign Hasked].
      exists msg. rewrite Hmsg. split_and!; [done..| |done|done|].
      * intros envConfig Henv Hsw. specialize (Hreached envConfig Henv Hsw). congruence.
      * intros e. by apply changes_are_switch_or_log.
  - rewrite p1_main_run. destruct isCheck.
    + destruct (p1_Check_empty s env servicesInput versionInput w Hsel)
        as ([msg Hmsg] & Hquiet & Hreached).
      destruct (p1_Check_quiet s env servicesInput versionInput w) as [Hforeign Hasked].
      exists msg. rewrite Hmsg. split_and!; [done..| |done|done|].
      * intros envConfig Henv Hsw Hq. specialize (Hreached envConfig Henv Hsw (Hq eq_refl)).
        congruence.
      * intros e. by apply changes_are_switch_or_log.
    + destruct (p1_Deploy_empty s env servicesInput versionInput w Hsel)
        as ([msg Hmsg] & Hquiet & Hreached).
      destruct (p1_Deploy_empty_quiet s env servicesInput versionInput w Hsel)
        as [Hforeign Hasked].
      exists msg. rewrite Hmsg. split_and!; [done..| |done|done|].
      * intros envConfig Henv Hsw _. specialize (Hreached envConfig Henv Hsw). congruence.
      * intros e. by apply changes_are_switch_or_log.
Qed.

Lemma C7_witness :
  res (@MainGo.main (scripted all_fine) sample false "pre" "zz" "" tt) = 1
  ∧ res (@Part001.main (scripted all_fine) sample true "pre" "zz" "" tt) = 1.
Proof.
  destruct (@C7_empty_selection_is_terminal (scripted all_fine) sample false "pre" "zz" "" tt)
    as [Hmain _].
  destruct (@C7_empty_selection_is_terminal (scripted all_fine) sample true "pre" "zz" "" tt)
    as [_ Hp1].
  destruct Hmain as (msg & _ & _ & -> & _); [vm_compute; reflexivity|].
  destruct Hp1 as (msg' & _ & _ & -> & _); [vm_compute; reflexivity|].
  split; reflexivity.
Defined.

(** *** The confirmation gate *)

Lemma confirmed_first_here response post :
  affirmative response → confirmed_first (EvScanln response :: post).
Proof. intros Hr. exists [], response, post. split_and!; [done..|apply never_nil]. Qed.

Lemma confirmed_first_cons e trace :
  is_update e = false → confirmed_first trace → confirmed_first (e :: trace).
Proof.
  intros He (pre & response & post & -> & Hr & Hpre).
  exists (e :: pre), response, post. split_and!; [done..|by apply never_cons].
Qed.

Lemma confirmed_first_app t1 t2 :
  never is_update t1 → confirmed_first t2 → confirmed_first (t1 ++ t2).
Proof.
  intros H1 (pre & response & post & -> & Hr & Hpre).
  exists (t1 ++ pre)%list, response, post.
  split_and!; [by rewrite app_assoc | done | by apply never_app].
Qed.

(** Bring a trace into the form [e1 :: (t1 ++ e2 :: ...)]. *)
Ltac flatten := rewrite <- ?app_assoc; cbn [app].
Ltac flatten_in H := rewrite <- ?app_assoc in H; cbn [app] in H.

(** Where can an answer sit in a trace assembled from the blocks? *)
Ltac answer_in Hin :=
  repeat lazymatch type of Hin with
  | _ ∈ (_ ++ _)%list => apply elem_of_app in Hin as [Hin|Hin]
  | _ ∈ (_ :: _) => apply elem_of_cons in Hin as [Hin|Hin]
  | _ ∈ [] => by apply elem_of_nil in Hin
  | EvScanln ?a = EvScanln ?b => assert (a = b) as -> by congruence; clear Hin
  | EvScanln _ = _ => discriminate Hin
  | _ ∈ evs _ =>
      exfalso; apply (never_elem is_answer) in Hin; [discriminate Hin | quiet_all]
  end.

Ltac find_event :=
  lazymatch goal with
  | |- _ ∈ (_ :: _) => apply elem_of_cons; first [by left | right; find_event]
  | |- _ ∈ (_ ++ _)%list => apply elem_of_app; first [left; find_event | right; find_event]
  end.

Section Gate.
Context `{Runtime}.
Implicit Types (s : Service) (w : World).

Lemma main_Deploy_gate s env servicesInput versionInput w :
  let o := MainGo.Deploy s env servicesInput versionInput w in
  (∀ response, EvScanln response ∈ evs o → ¬ affirmative response →
     never is_update (evs o) ∧ EvLog "用户取消部署" ∈ evs o ∧ res o = None)
  ∧ (never is_update (evs o) ∨ confirmed_first (evs o)).
Proof.
  intros o. subst o. unfold MainGo.Deploy, MainGo.deployAll. go_run; flatten;
    (split; [intros response Hin Hno; answer_in Hin|]);
    try match goal with
        | Hy : bool_decide _ = true, Hn : ¬ affirmative _ |- _ =>
            by apply bool_decide_eq_true in Hy
        end;
    try (left; by quiet_all);
    try (split_and!; [by quiet_all | by find_event | done]);
    right;
    repeat lazymatch goal with
    | |- confirmed_first (EvScanln _ :: _) =>
        apply confirmed_first_here; unfold affirmative;
        match goal with Hy : bool_decide _ = true |- _ =>
          exact (bool_decide_eq_true_1 _ Hy) end
    | |- confirmed_first (_ :: _) => apply confirmed_first_cons; [done|]
    | |- confirmed_first (_ ++ _)%list => apply confirmed_first_app; [quiet_all|]
    end.
Qed.

Lemma p1_Deploy_gate s env servicesInput versionInput w :
  let o := Part001.Deploy s env servicesInput versionInput w in
  (∀ response, EvScanln response ∈ evs o → ¬ affirmative response →
     never is_update (evs o) ∧ EvLog "用户取消部署" ∈ evs o ∧ res o = None)
  ∧ (never is_update (evs o) ∨ confirmed_first (evs o)).
Proof.
  intros o. subst o. unfold Part001.Deploy, Part001.deployAll. go_run; flatten;
    (split; [intros response Hin Hno; answer_in Hin|]);
    try match goal with
        | Hy : bool_decide _ = true, Hn : ¬ affirmative _ |- _ =>
            by apply bool_decide_eq_true in Hy
        end;
    try (left; by quiet_all);
    try (split_and!; [by quiet_all | by find_event | done]);
    right;
    repeat lazymatch goal with
    | |- confirmed_first (EvScanln _ :: _) =>
        apply confirmed_first_here; unfold affirmative;
        match goal with Hy : bool_decide _ = true |- _ =>
          exact (bool_decide_eq_true_1 _ Hy) end
    | |- confirmed_first (_ :: _) => apply confirmed_first_cons; [done|]
    | |- confirmed_first (_ ++ _)%list => apply confirmed_first_app; [quiet_all|]
    end.
Qed.
End Gate.

(** Find an event in a trace that has been computed. *)
Ltac in_trace := vm_compute; repeat first [apply list_elem_of_here | apply list_elem_of_further].

(** C6.  In [Deploy], an answer to the confirmation prompt that is not an
    affirmative one (the empty answer included) means that the trace holds no
    update command, that the cancellation is logged, and that [Deploy]
    returns [nil], so that [main] exits with code 0; and whatever update
    command a trace holds comes after an affirmative answer.  In
    [src/main.go] and in [src/unnamed/part_001]. *)
Theorem C6_updates_only_after_confirmation `{Runtime} (s : Service)
    (env servicesInput versionInput : string) (w : World) :
  let o := MainGo.Deploy s env servicesInput versionInput w in
  let o' := Part001.Deploy s env servicesInput versionInput w in
  ((∀ response, EvScanln response ∈ evs o → ¬ affirmative response →
      never is_update (evs o) ∧ EvLog "用户取消部署" ∈ evs o ∧ res o = None
      ∧ res (MainGo.main s false env servicesInput versionInput w) = 0)
   ∧ (never is_update (evs o) ∨ confirmed_first (evs o)))
  ∧ ((∀ response, EvScanln response ∈ evs o' → ¬ affirmative response →
        never is_update (evs o') ∧ EvLog "用户取消部署" ∈ evs o' ∧ res o' = None
        ∧ res (Part001.main s false env servicesInput versionInput w) = 0)
     ∧ (never is_update (evs o') ∨ confirmed_first (evs o'))).
Proof.
  cbv zeta.
  destruct (main_Deploy_gate s env servicesInput versionInput w) as [Hno Hgate].
  destruct (p1_Deploy_gate s env servicesInput versionInput w) as [Hno' Hgate'].
  split; (split; [|done]); intros response Hin Hrefused.
  - destruct (Hno response Hin Hrefused) as (Hquiet & Hlog & Hnil).
    split_and!; [done..|]. rewrite main_main_run. cbv beta iota zeta. by rewrite Hnil.
  - destruct (Hno' response Hin Hrefused) as (Hquiet & Hlog & Hnil).
    split_and!; [done..|]. rewrite p1_main_run. cbv beta iota zeta. by rewrite Hnil.
Qed.

Lemma C6_witness :
  never is_update (evs (@MainGo.Deploy (scripted already_active) sample "pre" "" "" tt))
  ∧ EvLog "用户取消部署" ∈ evs (@MainGo.Deploy (scripted already_active) sample "pre" "" "" tt)
  ∧ res (@MainGo.Deploy (scripted already_active) sample "pre" "" "" tt) = None
  ∧ res (@MainGo.main (scripted already_active) sample false "pre" "" "" tt) = 0.
Proof.
  apply (proj1 (proj1 (@C6_updates_only_after_confirmation (scripted already_active)
                         sample "pre" "" "" tt)) "n").
  - in_trace.
  - unfold affirmative. vm_compute. discriminate.
Defined.

(** The empty answer and any other word are refused; only [y] and [Y] pass. *)
Example answers :
  ¬ affirmative "" ∧ ¬ affirmative "yes" ∧ ¬ affirmative "n"
  ∧ affirmative "y" ∧ affirmative "Y".
Proof. unfold affirmative. split_and!; by vm_compute. Qed.

(** *** The context switcher *)

Section Switcher.
Context `{Runtime}.
Implicit Types (s : Service) (w : World).

Lemma main_Deploy_switch_fatal s env servicesInput versionInput w envConfig e :
  Environments (config s) !! env = Some envConfig →
  res (MainGo.switchContext (Context envConfig) w) = Some e →
  let o := MainGo.Deploy s env servicesInput versionInput w in
  res o = Some e ∧ never is_cluster_read (evs o) ∧ never is_update (evs o).
Proof.
  intros Henv Hsw o. subst o. unfold MainGo.Deploy. rewrite Henv. go_cbn.
  rewrite Hsw. go_cbn. split_and!; [done|quiet_all..].
Qed.

Lemma main_Check_switch_fatal s env servicesInput versionInput w envConfig e :
  Environments (config s) !! env = Some envConfig →
  res (MainGo.switchContext (Context envConfig) w) = Some e →
  let o := MainGo.Check s env servicesInput versionInput w in
  res o = Some e ∧ never is_cluster_read (evs o) ∧ never is_update (evs o).
Proof.
  intros Henv Hsw o. subst o. unfold MainGo.Check. rewrite Henv. go_cbn.
  rewrite Hsw. go_cbn. split_and!; [done|quiet_all..].
Qed.

Lemma p1_Deploy_switch_fatal s env servicesInput versionInput w envConfig e :
  Environments (config s) !! env = Some envConfig →
  res (Part001.switchContext (Context envConfig) w) = Some e →
  let o := Part001.Deploy s env servicesInput versionInput w in
  res o = Some e ∧ never is_cluster_read (evs o) ∧ never is_update (evs o).
Proof.
  intros Henv Hsw o. subst o. unfold Part001.Deploy. rewrite Henv. go_cbn.
  rewrite Hsw. go_cbn. split_and!; [done|quiet_all..].
Qed.

Lemma p1_Check_switch_fatal s env servicesInput versionInput w envConfig e :
  Environments (config s) !! env = Some envConfig →
  res (Part001.switchContext (Context envConfig) w) = Some e →
  let o := Part001.Check s env servicesInput versionInput w in
  res o = Some e ∧ never is_cluster_read (evs o) ∧ never is_update (evs o).
Proof.
  intros Henv Hsw o. subst o. unfold Part001.Check. rewrite Henv. go_cbn.
  rewrite Hsw. go_cbn. split_and!; [done|quiet_all..].
Qed.
End Switcher.

(** The claim of C5 as it is written fails in [src/unnamed/part_001], whose
    switcher never asks for the active context: it issues the switch command
    although the active context is the target. *)
Lemma C5_counterexample :
  ¬ (∀ (RT : Runtime) (context : string) (w : World),
       (kubectl cmd_current_context w).1.2 = false →
       strings.TrimSpace (kubectl cmd_current_context w).1.1 = context →
       never is_switch (evs (Part001.switchContext context w))).
Proof.
  intros Hclaim.
  specialize (Hclaim (scripted already_active) "pre-cluster" tt eq_refl eq_refl).
  apply (never_elem _ (EvKubectl (cmd_use_context "pre-cluster") "" false)) in Hclaim.
  - discriminate Hclaim.
  - in_trace.
Qed.

(** C5 (amended).  [src/main.go]: when the query for the active context
    succeeds and its trimmed output is the target, the switcher issues nothing
    else and returns [nil]; otherwise it issues the switch command and, when
    that succeeds, the node-list probe, and a failure of either is returned
    as the error.  [src/unnamed/part_001]: the switcher always issues the
    switch command, and nothing else.  In both variants an error of the
    switcher is the error of [Deploy] and of [Check], whose traces then hold
    neither a read of the deployments nor an update. *)
Theorem C5_context_switcher `{Runtime} (s : Service)
    (context env servicesInput versionInput : string) (w : World) :
  let r0 := kubectl cmd_current_context w in
  let r1 := kubectl (cmd_use_context context) r0.2 in
  let r2 := kubectl cmd_get_nodes r1.2 in
  let active := negb r0.1.2 && bool_decide (strings.TrimSpace r0.1.1 = context) in
  let asked := EvKubectl cmd_current_context r0.1.1 r0.1.2 in
  let told := EvPrint (nl ++ "🔄 切换 Kubernetes 环境: " ++ context ++ nl) in
  let switched := EvKubectl (cmd_use_context context) r1.1.1 r1.1.2 in
  let probed := EvKubectl cmd_get_nodes r2.1.1 r2.1.2 in
  let p := kubectl (cmd_use_context context) w in
  (active = true →
     MainGo.switchContext context w
     = mkOut None [asked; EvPrint (nl ++ "当前 Kubernetes 环境: " ++ context ++ nl)] r0.2)
  ∧ (active = false →
       MainGo.switchContext context w
       = if r1.1.2
         then mkOut (Some ("切换集群失败: " ++ r1.1.1)) [asked; told; switched] r1.2
         else mkOut (if r2.1.2 then Some ("集群连接检查失败: " ++ r2.1.1) else None)
                [asked; told; switched; probed] r2.2)
  ∧ Part001.switchContext context w
    = mkOut (if p.1.2 then Some ("切换上下文失败: " ++ p.1.1) else None)
        [EvKubectl (cmd_use_context context) p.1.1 p.1.2] p.2
  ∧ (∀ envConfig e,
       Environments (config s) !! env = Some envConfig →
       (res (MainGo.switchContext (Context envConfig) w) = Some e →
        (let o := MainGo.Deploy s env servicesInput versionInput w in
         res o = Some e ∧ never is_cluster_read (evs o) ∧ never is_update (evs o))
        ∧ (let o := MainGo.Check s env servicesInput versionInput w in
           res o = Some e ∧ never is_cluster_read (evs o) ∧ never is_update (evs o)))
       ∧ (res (Part001.switchContext (Context envConfig) w) = Some e →
          (let o := Part001.Deploy s env servicesInput versionInput w in
           res o = Some e ∧ never is_cluster_read (evs o) ∧ never is_update (evs o))
          ∧ (let o := Part001.Check s env servicesInput versionInput w in
             res o = Some e ∧ never is_cluster_read (evs o) ∧ never is_update (evs o)))).
Proof.
  intros. split_and!.
  - intros Hactive. rewrite main_switchContext_run. fold r0. fold active. by rewrite Hactive.
  - intros Hactive. rewrite main_switchContext_run. fold r0. fold active. by rewrite Hactive.
  - apply p1_switchContext_run.
  - intros envConfig e Henv. split; intros Hsw; split.
    + by eapply main_Deploy_switch_fatal.
    + by eapply main_Check_switch_fatal.
    + by eapply p1_Deploy_switch_fatal.
    + by eapply p1_Check_switch_fatal.
Qed.

Lemma C5_witness :
  never is_switch (evs (@MainGo.switchContext (scripted already_active) "pre-cluster" tt))
  ∧ res (@MainGo.switchContext (scripted already_active) "pre-cluster" tt) = None.
Proof.
  rewrite (proj1 (@C5_context_switcher (scripted already_active) sample
                    "pre-cluster" "pre" "" "" tt) eq_refl).
  split; [|reflexivity]. by repeat apply never_cons; try apply never_nil.
Defined.

(** *** A cluster query that fails *)

Section QueryFailure.
Context `{Runtime}.
Implicit Types (s : Service) (w : World).

Lemma main_Deploy_query_warning s env servicesInput versionInput w envConfig :
  Environments (config s) !! env = Some envConfig →
  res (MainGo.switchContext (Context envConfig) w) = None →
  let q := kubectl (cmd_get_deployment (Namespace envConfig))
             (fin (MainGo.switchContext (Context envConfig) w)) in
  let msg := "获取部署信息失败: " ++ q.1.1 in
  let selectedServices := MainGo.getSelectedServices s servicesInput versionInput in
  q.1.2 = true → selectedServices ≠ ∅ →
  let o := MainGo.Deploy s env servicesInput versionInput w in
  EvLog ("警告: 获取当前版本信息失败: " ++ msg) ∈ evs o
  ∧ EvPrint ("获取当前版本信息失败: " ++ msg ++ nl) ∈ evs o
  ∧ EvPreview ∅ selectedServices ∈ evs o
  ∧ (∃ response, EvScanln response ∈ evs o)
  ∧ res o = None.
Proof.
  intros Henv Hsw q msg selectedServices Hq Hsel o. subst o selectedServices msg q.
  unfold MainGo.Deploy. rewrite Henv. go_cbn. rewrite Hsw. go_cbn.
  rewrite main_getCurrentVersions_run. cbn [res evs fin]. rewrite Hq. go_run;
    try (by match goal with He : size _ = 0 |- _ => apply map_size_empty_iff in He end);
    (split_and!; [by find_event..| |done]); eexists; by find_event.
Qed.

Lemma main_Check_query_warning s env servicesInput versionInput w envConfig :
  Environments (config s) !! env = Some envConfig →
  res (MainGo.switchContext (Context envConfig) w) = None →
  let q := kubectl (cmd_get_deployment (Namespace envConfig))
             (fin (MainGo.switchContext (Context envConfig) w)) in
  let msg := "获取部署信息失败: " ++ q.1.1 in
  let selectedServices := MainGo.getSelectedServices s servicesInput versionInput in
  q.1.2 = true → selectedServices ≠ ∅ →
  let o := MainGo.Check s env servicesInput versionInput w in
  EvPrint ("获取当前版本信息失败: " ++ msg ++ nl) ∈ evs o
  ∧ EvPreview ∅ selectedServices ∈ evs o
  ∧ res o = None.
Proof.
  intros Henv Hsw q msg selectedServices Hq Hsel o. subst o selectedServices msg q.
  unfold MainGo.Check. rewrite Henv. go_cbn. rewrite Hsw. go_cbn.
  rewrite main_getCurrentVersions_run. cbn [res evs fin]. rewrite Hq. go_run;
    try (by match goal with He : size _ = 0 |- _ => apply map_size_empty_iff in He end).
  split_and!; [by find_event..|done].
Qed.

Lemma p1_Deploy_query_warning s env servicesInput versionInput w envConfig :
  Environments (config s) !! env = Some envConfig →
  res (Part001.switchContext (Context envConfig) w) = None →
  let q := kubectl (cmd_get_deployment (Namespace envConfig))
             (fin (Part001.switchContext (Context envConfig) w)) in
  let msg := "获取部署信息失败: " ++ q.1.1 in
  let selectedServices := (Part001.getSelectedServices s servicesInput versionInput).1 in
  q.1.2 = true → selectedServices ≠ ∅ →
  let o := Part001.Deploy s env servicesInput versionInput w in
  EvLog ("警告: " ++ msg) ∈ evs o
  ∧ EvPrint ("警告: " ++ msg ++ nl) ∈ evs o
  ∧ EvPreview ∅ selectedServices ∈ evs o
  ∧ (∃ response, EvScanln response ∈ evs o).
Proof.
  intros Henv Hsw q msg selectedServices Hq Hsel o. subst o selectedServices msg q.
  unfold Part001.Deploy. rewrite Henv. go_cbn. rewrite Hsw. go_cbn.
  rewrite p1_getCurrentVersions_run. cbn [res evs fin]. rewrite Hq. go_run;
    try (by match goal with He : size _ = 0 |- _ => apply map_size_empty_iff in He end);
    (split_and!; [by find_event..|]); eexists; by find_event.
Qed.

(** [Check] of [src/unnamed/part_001] stops at the failed query. *)
Lemma p1_Check_query_fatal s env servicesInput versionInput w envConfig :
  Environments (config s) !! env = Some envConfig →
  res (Part001.switchContext (Context envConfig) w) = None →
  let q := kubectl (cmd_get_deployment (Namespace envConfig))
             (fin (Part001.switchContext (Context envConfig) w)) in
  q.1.2 = true →
  let o := Part001.Check s env servicesInput versionInput w in
  res o = Some ("获取部署信息失败: " ++ q.1.1)
  ∧ evs o = (evs (Part001.switchContext (Context envConfig) w)
             ++ [EvKubectl (cmd_get_deployment (Namespace envConfig)) q.1.1 true])%list.
Proof.
  intros Henv Hsw q Hq o. subst o q.
  unfold Part001.Check. rewrite Henv. go_cbn. rewrite Hsw. go_cbn.
  rewrite p1_getCurrentVersions_run. cbn [res evs fin]. rewrite Hq. go_cbn.
  by rewrite app_nil_r.
Qed.
End QueryFailure.

(** The claim of C8 as it is written fails for [Check] in
    [src/unnamed/part_001], which returns the error of the failed query. *)
Lemma C8_counterexample :
  ¬ (∀ (RT : Runtime) (s : Service) (env servicesInput versionInput : string) (w : World)
       (envConfig : Environment),
       Environments (config s) !! env = Some envConfig →
       res (Part001.switchContext (Context envConfig) w) = None →
       (kubectl (cmd_get_deployment (Namespace envConfig))
          (fin (Part001.switchContext (Context envConfig) w))).1.2 = true →
       (Part001.getSelectedServices s servicesInput versionInput).1 ≠ ∅ →
       res (Part001.Check s env servicesInput versionInput w) = None).
Proof.
  intros Hclaim.
  specialize (Hclaim (scripted query_fails) sample "pre" "" "" tt pre).
  assert (res (@Part001.Check (scripted query_fails) sample "pre" "" "" tt)
          = Some ("获取部署信息失败: " ++ "Unable to connect to the server")) as Hres
    by (by vm_compute).
  rewrite Hres in Hclaim. discriminate Hclaim; [by vm_compute..|].
  intros Hempty. apply (f_equal (λ m : gmap string string, m !! "docs-fe")) in Hempty.
  vm_compute in Hempty. discriminate Hempty.
Qed.

(** C8 (amended).  When the query for the current versions fails after a
    successful context switch and the selection is not empty: [Deploy], in
    both variants, logs and prints the failure as a warning, previews the
    selection against an empty snapshot and goes on to the confirmation
    prompt; [Check] of [src/main.go] prints the warning, previews against an
    empty snapshot and returns [nil]; [Check] of [src/unnamed/part_001]
    returns the failure as its error, right after the query. *)
Theorem C8_query_failure `{Runtime} (s : Service) (env servicesInput versionInput : string)
    (w : World) (envConfig : Environment) :
  Environments (config s) !! env = Some envConfig →
  (res (MainGo.switchContext (Context envConfig) w) = None →
   let q := kubectl (cmd_get_deployment (Namespace envConfig))
              (fin (MainGo.switchContext (Context envConfig) w)) in
   let msg := "获取部署信息失败: " ++ q.1.1 in
   let selectedServices := MainGo.getSelectedServices s servicesInput versionInput in
   q.1.2 = true → selectedServices ≠ ∅ →
   (let o := MainGo.Deploy s env servicesInput versionInput w in
    EvLog ("警告: 获取当前版本信息失败: " ++ msg) ∈ evs o
    ∧ EvPrint ("获取当前版本信息失败: " ++ msg ++ nl) ∈ evs o
    ∧ EvPreview ∅ selectedServices ∈ evs o
    ∧ (∃ response, EvScanln response ∈ evs o)
    ∧ res o = None)
   ∧ (let o := MainGo.Check s env servicesInput versionInput w in
      EvPrint ("获取当前版本信息失败: " ++ msg ++ nl) ∈ evs o
      ∧ EvPreview ∅ selectedServices ∈ evs o
      ∧ res o = None))
  ∧ (res (Part001.switchContext (Context envConfig) w) = None →
     let q := kubectl (cmd_get_deployment (Namespace envConfig))
                (fin (Part001.switchContext (Context envConfig) w)) in
     let msg := "获取部署信息失败: " ++ q.1.1 in
     let selectedServices := (Part001.getSelectedServices s servicesInput versionInput).1 in
     q.1.2 = true →
     (selectedServices ≠ ∅ →
      let o := Part001.Deploy s env servicesInput versionInput w in
      EvLog ("警告: " ++ msg) ∈ evs o
      ∧ EvPrint ("警告: " ++ msg ++ nl) ∈ evs o
      ∧ EvPreview ∅ selectedServices ∈ evs o
      ∧ (∃ response, EvScanln response ∈ evs o))
     ∧ (let o := Part001.Check s env servicesInput versionInput w in
        res o = Some msg
        ∧ evs o = (evs (Part001.switchContext (Context envConfig) w)
                   ++ [EvKubectl (cmd_get_deployment (Namespace envConfig)) q.1.1 true])%list)).
Proof.
  intros Henv. split.
  - intros Hsw q msg selectedServices Hq Hsel. split.
    + by apply main_Deploy_query_warning.
    + by apply main_Check_query_warning.
  - intros Hsw q msg selectedServices Hq. split.
    + intros Hsel. by apply p1_Deploy_query_warning.
    + by apply p1_Check_query_fatal.
Qed.

Lemma C8_witness :
  res (@MainGo.Check (scripted query_fails) sample "pre" "" "" tt) = None
  ∧ res (@Part001.Check (scripted query_fails) sample "pre" "" "" tt)
    = Some ("获取部署信息失败: " ++ "Unable to connect to the server").
Proof.
  destruct (@C8_query_failure (scripted query_fails) sample "pre" "" "" tt pre eq_refl)
    as [Hmain Hp1].
  split.
  - refine (proj2 (proj2 (proj2 (Hmain eq_refl eq_refl _)))).
    intros Hempty. apply (f_equal (λ m : gmap string string, m !! "docs-fe")) in Hempty.
    vm_compute in Hempty. discriminate Hempty.
  - exact (proj1 (proj2 (Hp1 eq_refl eq_refl))).
Defined.

(** *** The deployment executor inside [Deploy] *)

Lemma update_cmds_cons_never e trace :
  is_update e = false → update_cmds (e :: trace) = update_cmds trace.
Proof.
  intros He. change (e :: trace) with ([e] ++ trace)%list.
  rewrite update_cmds_app, (update_cmds_never [e]); [done|].
  by apply never_cons, never_nil.
Qed.

Lemma failure_lines_cons_never e trace :
  is_update e = false → failure_lines (e :: trace) = failure_lines trace.
Proof.
  intros He. change (e :: trace) with ([e] ++ trace)%list.
  rewrite failure_lines_app, (failure_lines_never [e]); [done|].
  by apply never_cons, never_nil.
Qed.

Lemma update_cmds_nil : update_cmds [] = [].
Proof. done. Qed.

Lemma failure_lines_nil : failure_lines [] = [].
Proof. done. Qed.

Section ExecutorInDeploy.
Context `{Runtime}.
Implicit Types (s : Service) (w : World).

Lemma prints_elem (lines : list string) (f : string → string) (line : string) w :
  line ∈ lines → EvPrint (f line) ∈ evs (forM lines (λ l, Print (f l)) w).
Proof.
  revert w. induction lines as [|x lines IH]; intros w Hin; [by apply elem_of_nil in Hin|].
  cbn [forM bind evs res fin Print emit ret app].
  apply elem_of_cons in Hin as [->|Hin]; [by left|].
  right. apply elem_of_app. left. by apply IH.
Qed.

Lemma updates_permutation envConfig (selectedServices : gmap string string) :
  update_for envConfig <$> range_ selectedServices
  ≡ₚ update_for envConfig <$> map_to_list selectedServices.
Proof. by rewrite (range_perm _ selectedServices). Qed.

Lemma main_Deploy_executor s env servicesInput versionInput w envConfig response :
  Environments (config s) !! env = Some envConfig →
  let o := MainGo.Deploy s env servicesInput versionInput w in
  EvScanln response ∈ evs o → affirmative response →
  update_cmds (evs o)
    ≡ₚ update_for envConfig <$> map_to_list (MainGo.getSelectedServices s servicesInput versionInput)
  ∧ res o = None
  ∧ (∀ line, line ∈ failure_lines (evs o) → EvPrint (line ++ nl) ∈ evs o).
Proof.
  intros Henv o. subst o. unfold MainGo.Deploy, MainGo.deployAll. rewrite Henv.
  go_run; flatten; intros Hin Hyes; answer_in Hin;
    try (by match goal with Hn : bool_decide _ = false |- _ =>
              apply bool_decide_eq_false in Hn end);
    (split_and!;
      [(repeat first
         [ rewrite update_cmds_cons_never by done
         | rewrite update_cmds_app
         | rewrite update_cmds_nil
         | rewrite main_tasks_update_cmds
         | rewrite (update_cmds_never (evs (MainGo.switchContext _ _))) by quiet_all
         | rewrite (update_cmds_never (evs (MainGo.getCurrentVersions _ _ _ _))) by quiet_all
         | rewrite (update_cmds_never (evs (forM _ (λ l, Print _) _))) by quiet_all ]);
       rewrite ?app_nil_r; cbn [app]; apply updates_permutation | done |]);
    (repeat first
       [ rewrite failure_lines_cons_never by done
       | rewrite failure_lines_app
       | rewrite failure_lines_nil
       | rewrite (failure_lines_never (evs (MainGo.switchContext _ _))) by quiet_all
       | rewrite (failure_lines_never (evs (MainGo.getCurrentVersions _ _ _ _))) by quiet_all
       | rewrite (failure_lines_never (evs (forM _ (λ l, Print _) _))) by quiet_all ]);
    rewrite ?app_nil_r; cbn [app]; intros line Hline%main_tasks_failures;
    assert (line ∈ sort.Strings
              (res (forM (range_ (MainGo.getSelectedServices s servicesInput versionInput))
                      (MainGo.deployTask envConfig)
                      (scanln (fin (MainGo.getCurrentVersions s (Namespace envConfig) ∅
                                      (fin (MainGo.switchContext (Context envConfig) w))))).2)))
      as Hsorted by (unfold sort.Strings; by rewrite merge_sort_Permutation);
    apply (prints_elem _ (λ l, l ++ nl) _
             (fin (forM (range_ (MainGo.getSelectedServices s servicesInput versionInput))
                     (MainGo.deployTask envConfig)
                     (scanln (fin (MainGo.getCurrentVersions s (Namespace envConfig) ∅
                                     (fin (MainGo.switchContext (Context envConfig) w))))).2)))
      in Hsorted;
    repeat first [apply list_elem_of_further | apply elem_of_app; first [by left | right]].
Qed.
End ExecutorInDeploy.

Section ExecutorInDeployP1.
Context `{Runtime}.
Implicit Types (s : Service) (w : World).

Lemma p1_Deploy_executor s env servicesInput versionInput w envConfig response :
  Environments (config s) !! env = Some envConfig →
  let o := Part001.Deploy s env servicesInput versionInput w in
  EvScanln response ∈ evs o → affirmative response →
  update_cmds (evs o)
    ≡ₚ update_for envConfig
         <$> map_to_list (Part001.getSelectedServices s servicesInput versionInput).1
  ∧ res o = deploy_error (failure_lines (evs o)).
Proof.
  intros Henv o. subst o. unfold Part001.Deploy, Part001.deployAll. rewrite Henv.
  go_run; flatten; intros Hin Hyes; answer_in Hin;
    try (by match goal with Hn : bool_decide _ = false |- _ =>
              apply bool_decide_eq_false in Hn end);
    (split;
      [(repeat first
         [ rewrite update_cmds_cons_never by done
         | rewrite update_cmds_app
         | rewrite update_cmds_nil
         | rewrite p1_tasks_update_cmds
         | rewrite (update_cmds_never (evs (Part001.switchContext _ _))) by quiet_all
         | rewrite (update_cmds_never (evs (Part001.getCurrentVersions _ _ _))) by quiet_all
         | rewrite (update_cmds_never (evs (forM _ Part001.Log _))) by quiet_all ]);
       rewrite ?app_nil_r; cbn [app]; apply updates_permutation|]);
    (repeat first
       [ rewrite failure_lines_cons_never by done
       | rewrite failure_lines_app
       | rewrite failure_lines_nil
       | rewrite (failure_lines_never (evs (Part001.switchContext _ _))) by quiet_all
       | rewrite (failure_lines_never (evs (Part001.getCurrentVersions _ _ _))) by quiet_all
       | rewrite (failure_lines_never (evs (forM _ Part001.Log _))) by quiet_all ]);
    rewrite ?app_nil_r; cbn [app]; rewrite <- p1_tasks_failures;
    match goal with
    | Hl : (0 < _)%nat |- _ =>
        destruct (omap id _) as [|x xs]; [by inversion Hl | reflexivity]
    | Hl : ¬ (0 < _)%nat |- _ =>
        destruct (omap id _) as [|x xs]; [reflexivity|]; destruct Hl; simpl; lia
    end.
Qed.
End ExecutorInDeployP1.

(** The claim of C2 as it is written fails in [src/main.go]: an update fails
    and [Deploy] still returns [nil], so that [main] exits with code 0. *)
Lemma C2_counterexample :
  ¬ (∀ (RT : Runtime) (s : Service) (env servicesInput versionInput : string) (w : World),
       (∃ args output, is_set_image args = true
          ∧ EvKubectl args output true ∈ evs (MainGo.Deploy s env servicesInput versionInput w)) →
       is_Some (res (MainGo.Deploy s env servicesInput versionInput w))
       ∧ res (MainGo.main s false env servicesInput versionInput w) ≠ 0).
Proof.
  intros Hclaim.
  destruct (Hclaim (scripted one_fails) sample "pre" "" "" tt) as [[msg Hmsg] _].
  - exists (cmd_set_image "nft-core-be" "registry.example/nft-core-be:v1.15.5" "default"),
      "Error from server (NotFound)".
    split; [reflexivity | in_trace].
  - vm_compute in Hmsg. discriminate Hmsg.
Qed.

(** C2 (amended).  Once the prompt is answered affirmatively, the update
    commands in the trace of [Deploy] are, up to order, exactly one per entry
    of the resolved target, whatever each of them returns: no failure keeps a
    sibling's update from being issued, and all are issued before [Deploy]
    returns.  [Deploy] runs no other [kubectl] command than these, those of
    the context switcher and the reads of the deployments: nothing is rolled
    back or deleted, so that an update that succeeded remains applied.  In
    [src/unnamed/part_001] [Deploy] then returns the error built from the
    diagnostics of exactly the failed updates, in the order in which the
    goroutines report them, and [nil] when there is none, and [main] exits
    with code 1 or 0 accordingly; in [src/main.go] the diagnostic of every failed update
    is printed, [Deploy] returns [nil] and [main] exits with code 0. *)
Theorem C2_partial_failure_isolation `{Runtime} (s : Service)
    (env servicesInput versionInput : string) (w : World) (envConfig : Environment)
    (response : string) :
  Environments (config s) !! env = Some envConfig →
  affirmative response →
  (let o := MainGo.Deploy s env servicesInput versionInput w in
   EvScanln response ∈ evs o →
   update_cmds (evs o)
     ≡ₚ update_for envConfig
          <$> map_to_list (MainGo.getSelectedServices s servicesInput versionInput)
   ∧ (∀ line, line ∈ failure_lines (evs o) → EvPrint (line ++ nl) ∈ evs o)
   ∧ res o = None
   ∧ res (MainGo.main s false env servicesInput versionInput w) = 0
   ∧ never is_foreign (evs o))
  ∧ (let o := Part001.Deploy s env servicesInput versionInput w in
     EvScanln response ∈ evs o →
     update_cmds (evs o)
       ≡ₚ update_for envConfig
            <$> map_to_list (Part001.getSelectedServices s servicesInput versionInput).1
     ∧ (∃ errors, errors ≡ₚ failure_lines (evs o) ∧ res o = deploy_error errors)
     ∧ res (Part001.main s false env servicesInput versionInput w)
       = (if bool_decide (failure_lines (evs o) = []) then 0 else 1)
     ∧ never is_foreign (evs o)).
Proof.
  intros Henv Hyes. split; cbv zeta; intros Hin.
  - destruct (main_Deploy_executor s env servicesInput versionInput w envConfig response
                Henv Hin Hyes) as (Hcmds & Hnil & Hprinted).
    split_and!; [done..| |apply main_Deploy_no_foreign].
    rewrite main_main_run. cbv beta iota zeta. by rewrite Hnil.
  - destruct (p1_Deploy_executor s env servicesInput versionInput w envConfig response
                Henv Hin Hyes) as (Hcmds & Herr).
    split_and!; [done|by eexists| |apply p1_Deploy_no_foreign].
    rewrite p1_main_run. cbv beta iota zeta. rewrite Herr.
    by destruct (failure_lines _).
Qed.

Lemma C2_witness :
  res (@MainGo.main (scripted one_fails) sample false "pre" "" "" tt) = 0
  ∧ res (@Part001.Deploy (scripted one_fails) sample "pre" "" "" tt)
    = deploy_error ["❌ nft-core-be 发布失败: Error from server (NotFound)"].
Proof.
  assert (affirmative "y") as Hyes by reflexivity.
  destruct (@C2_partial_failure_isolation (scripted one_fails) sample "pre" "" "" tt pre "y"
              eq_refl Hyes) as [Hmain Hp1].
  split.
  - apply Hmain. in_trace.
  - destruct Hp1 as (_ & (errors & Hperm & ->) & _); [in_trace|].
    assert (failure_lines (evs (@Part001.Deploy (scripted one_fails) sample "pre" "" "" tt))
            = ["❌ nft-core-be 发布失败: Error from server (NotFound)"]) as Hlines
      by (by vm_compute).
    rewrite Hlines in Hperm. by apply Permutation_singleton_r in Hperm as ->.
Defined.

(** * Further properties of the code *)

(** ** The set of enabled services *)

(** X1.  [getEnabledServices] returns exactly the enabled services: a name
    is mapped to [true] when it is an enabled single service or a member of
    an enabled group, and is absent otherwise, in whatever order the two
    maps are enumerated. *)
Theorem enabled_set_exact `{Runtime} (s : Service) (name : string) :
  (getEnabledServices s !! name = Some true ↔ enabled_service s name)
  ∧ (getEnabledServices s !! name = None ↔ ¬ enabled_service s name).
Proof.
  split; split.
  - apply enabled_services_sound.
  - apply enabled_services_complete.
  - intros Hnone Hen. apply enabled_services_complete in Hen. congruence.
  - intros Hno. destruct (getEnabledServices s !! name) as [b|] eqn:E; [|done].
    destruct Hno. by eapply enabled_services_sound.
Qed.

(** ** The listed scope: the last token decides *)

(** X2.  [src/main.go], [getSelectedServices] with a listed scope: the
    version of a service is the one given by the last token that gives it
    one.  A token gives the members of the enabled group of that name the
    group's version (or the override), and otherwise gives the enabled
    single service of that name its own version (or the override); a
    service that no token gives a version is not selected. *)
Theorem main_listed_scope_lookup `{Runtime} (s : Service)
    (servicesInput versionInput name : string) :
  servicesInput ≠ "" →
  MainGo.getSelectedServices s servicesInput versionInput !! name
  = last (omap (λ token, main_token_gives s versionInput token name)
            (strings.Split servicesInput strings.comma)).
Proof.
  intros Hne. rewrite main_listed_scope by done.
  rewrite (foldl_last_gives (λ m : gmap string string, m !! name) _
             (λ token, main_token_gives s versionInput token name)).
  - rewrite lookup_empty. by destruct (last _).
  - intros acc token. apply main_selectToken_lookup.
Qed.

Lemma main_listed_scope_lookup_witness :
  @MainGo.getSelectedServices (scripted all_fine) overlap "g,a" "" !! "a" = Some "v1"
  ∧ @MainGo.getSelectedServices (scripted all_fine) overlap "a,g" "" !! "a" = Some "v2"
  ∧ @MainGo.getSelectedServices (scripted all_fine) clash "x" "" !! "a" = Some "v2".
Proof.
  split_and!.
  - rewrite (@main_listed_scope_lookup (scripted all_fine) overlap "g,a" "" "a");
      [reflexivity | discriminate].
  - rewrite (@main_listed_scope_lookup (scripted all_fine) overlap "a,g" "" "a");
      [reflexivity | discriminate].
  - rewrite (@main_listed_scope_lookup (scripted all_fine) clash "x" "" "a");
      [reflexivity | discriminate].
Defined.

(** X3.  [src/unnamed/part_001], [getSelectedServices] with a listed scope:
    again the last token that gives a service a version decides, but here a
    token is trimmed first, and it is read as a group only when it does not
    name an enabled single service. *)
Theorem p1_listed_scope_lookup `{Runtime} (s : Service)
    (servicesInput versionInput name : string) :
  servicesInput ≠ "" →
  (Part001.getSelectedServices s servicesInput versionInput).1 !! name
  = last (omap (λ token, p1_token_gives s versionInput token name)
            (strings.Split servicesInput strings.comma)).
Proof. apply p1_listed_lookup. Qed.

Lemma p1_listed_scope_lookup_witness :
  (@Part001.getSelectedServices (scripted all_fine) overlap "g, a" "").1 !! "a" = Some "v1"
  ∧ (@Part001.getSelectedServices (scripted all_fine) clash " x" "").1 !! "a" = None.
Proof.
  split.
  - rewrite (@p1_listed_scope_lookup (scripted all_fine) overlap "g, a" "" "a");
      [reflexivity | discriminate].
  - rewrite (@p1_listed_scope_lookup (scripted all_fine) clash " x" "" "a");
      [reflexivity | discriminate].
Defined.

(** X4.  [src/unnamed/part_001], [getSelectedServices] with a listed scope
    logs one warning for every token that, once trimmed, names neither an
    enabled single service nor an enabled group, in the order of the tokens,
    and nothing else. *)
Theorem p1_listed_scope_warnings `{Runtime} (s : Service)
    (servicesInput versionInput : string) :
  servicesInput ≠ "" →
  (Part001.getSelectedServices s servicesInput versionInput).2
  = omap (token_warning s) (strings.Split servicesInput strings.comma).
Proof.
  intros Hne. rewrite p1_listed_scope by done.
  rewrite (foldl_collects (λ st : gmap string string * list string, st.2) _ (token_warning s)).
  - done.
  - intros st token. apply p1_selectToken_logged.
Qed.

Lemma p1_listed_scope_warnings_witness :
  (@Part001.getSelectedServices (scripted all_fine) sample "nft, zz ,docs-fe" "").2
  = ["警告: 服务 zz 未找到或未启用"].
Proof.
  rewrite (@p1_listed_scope_warnings (scripted all_fine) sample "nft, zz ,docs-fe" "");
    [reflexivity | discriminate].
Defined.

(** ** The empty scope: groups come last *)

Section EmptyScope.
Context `{Runtime}.
Implicit Types (s : Service).

Lemma all_enabled_group_wins s (v1 : ServiceInfo.t → string) (v2 : ServiceGroup.t → string)
    name g group :
  ServiceGroups (services s) !! g = Some group →
  ServiceGroup.Enabled group = true →
  name ∈ ServiceGroup.Services group →
  ∃ g' group',
    ServiceGroups (services s) !! g' = Some group'
    ∧ ServiceGroup.Enabled group' = true
    ∧ name ∈ ServiceGroup.Services group'
    ∧ allEnabled s v1 v2 !! name = Some (v2 group').
Proof.
  intros Hl He Hin. unfold allEnabled.
  apply (foldl_establishes
           (λ m : gmap string string, ∃ g' group',
              ServiceGroups (services s) !! g' = Some group'
              ∧ ServiceGroup.Enabled group' = true
              ∧ name ∈ ServiceGroup.Services group'
              ∧ m !! name = Some (v2 group')) _ _ _ (g, group)).
  - by apply elem_of_range.
  - intros acc. simpl. rewrite He. exists g, group.
    by rewrite lookup_setAll, decide_True.
  - intros acc [g2 group2] Hin2%elem_of_range Hacc.
    destruct (ServiceGroup.Enabled group2) eqn:E2; [|done].
    destruct (decide (name ∈ ServiceGroup.Services group2)) as [Hm|Hm].
    + exists g2, group2. by rewrite lookup_setAll, decide_True.
    + destruct Hacc as (g' & group' & ? & ? & ? & Hv). exists g', group'.
      by rewrite lookup_setAll, decide_False.
Qed.

Lemma all_enabled_ungrouped s (v1 : ServiceInfo.t → string) (v2 : ServiceGroup.t → string) name :
  (∀ g group, ServiceGroups (services s) !! g = Some group →
              ServiceGroup.Enabled group = true → name ∉ ServiceGroup.Services group) →
  allEnabled s v1 v2 !! name
  = match SingleServices (services s) !! name with
    | Some info => if ServiceInfo.Enabled info then Some (v1 info) else None
    | None => None
    end.
Proof.
  intros Hno. unfold allEnabled.
  apply (foldl_invariant (λ m : gmap string string, m !! name = _)).
  - destruct (SingleServices (services s) !! name) as [info|] eqn:Es;
      [destruct (ServiceInfo.Enabled info) eqn:Ee|].
    + apply (foldl_establishes (λ m : gmap string string, m !! name = Some (v1 info))
               _ _ _ (name, info)).
      * by apply elem_of_range.
      * intros acc. simpl. by rewrite Ee, lookup_insert_eq.
      * intros acc [k i] Hk%elem_of_range Hacc.
        destruct (ServiceInfo.Enabled i); [|done].
        destruct (decide (k = name)) as [->|Hne].
        -- rewrite lookup_insert_eq. congruence.
        -- by rewrite lookup_insert_ne.
    + apply (foldl_invariant (λ m : gmap string string, m !! name = None)); [done|].
      intros acc [k i] Hk%elem_of_range Hacc.
      destruct (ServiceInfo.Enabled i) eqn:Ei; [|done].
      rewrite lookup_insert_ne; [done|]. intros ->. congruence.
    + apply (foldl_invariant (λ m : gmap string string, m !! name = None)); [done|].
      intros acc [k i] Hk%elem_of_range Hacc.
      destruct (ServiceInfo.Enabled i) eqn:Ei; [|done].
      rewrite lookup_insert_ne; [done|]. intros ->. congruence.
  - intros acc [g group] Hg%elem_of_range Hacc.
    destruct (ServiceGroup.Enabled group) eqn:Eg; [|done].
    rewrite lookup_setAll, decide_False; [done|]. by eapply Hno.
Qed.
End EmptyScope.

(** X5.  [getSelectedServices] with an empty scope: a service that an
    enabled group lists gets the version of an enabled group that lists it
    (in [src/unnamed/part_001], the override when one is given), never the
    version of the single-service entry of the same name, because the
    groups are scanned after the single services. *)
Theorem empty_scope_group_beats_single `{Runtime} (s : Service)
    (versionInput name g : string) (group : ServiceGroup.t) :
  ServiceGroups (services s) !! g = Some group →
  ServiceGroup.Enabled group = true →
  name ∈ ServiceGroup.Services group →
  (∃ g' group',
     ServiceGroups (services s) !! g' = Some group'
     ∧ ServiceGroup.Enabled group' = true
     ∧ name ∈ ServiceGroup.Services group'
     ∧ MainGo.getSelectedServices s "" versionInput !! name
       = Some (ServiceGroup.Version group'))
  ∧ (∃ g' group',
       ServiceGroups (services s) !! g' = Some group'
       ∧ ServiceGroup.Enabled group' = true
       ∧ name ∈ ServiceGroup.Services group'
       ∧ (Part001.getSelectedServices s "" versionInput).1 !! name
         = Some (selectVersion versionInput (ServiceGroup.Version group'))).
Proof.
  intros Hl He Hin. split.
  - rewrite main_empty_scope. by eapply all_enabled_group_wins.
  - rewrite p1_empty_scope. cbn [fst].
    by eapply (all_enabled_group_wins s _
                 (λ group, selectVersion versionInput (ServiceGroup.Version group))).
Qed.

Lemma empty_scope_group_beats_single_witness :
  @MainGo.getSelectedServices (scripted all_fine) overlap "" "" !! "a" = Some "v2".
Proof.
  destruct (@empty_scope_group_beats_single (scripted all_fine) overlap "" "a" "g"
              (ServiceGroup.Build_t true "v2" ["a"]))
    as [(g' & group' & Hl & _ & _ & ->) _].
  - reflexivity.
  - reflexivity.
  - by left.
  - unfold overlap, mkService in Hl. cbn [services ServiceGroups list_to_map foldr] in Hl.
    apply lookup_insert_Some in Hl as [[_ <-]|[_ Hl]]; [reflexivity|].
    by rewrite lookup_empty in Hl.
Defined.

(** X6.  [getSelectedServices] with an empty scope: a service that no
    enabled group lists is selected exactly when it is an enabled single
    service, with the version of its entry in [src/main.go] and with the
    override, when one is given, in [src/unnamed/part_001]. *)
Theorem empty_scope_ungrouped_service `{Runtime} (s : Service) (versionInput name : string) :
  (∀ g group, ServiceGroups (services s) !! g = Some group →
              ServiceGroup.Enabled group = true → name ∉ ServiceGroup.Services group) →
  MainGo.getSelectedServices s "" versionInput !! name = single_gives s "" name name
  ∧ (Part001.getSelectedServices s "" versionInput).1 !! name
    = single_gives s versionInput name name.
Proof.
  intros Hno. rewrite main_empty_scope, p1_empty_scope. cbn [fst].
  rewrite !all_enabled_ungrouped by done. unfold single_gives.
  destruct (SingleServices (services s) !! name) as [info|]; [|done].
  rewrite bool_decide_eq_true_2 by done. rewrite andb_true_r.
  by rewrite selectVersion_default.
Qed.

Lemma empty_scope_ungrouped_service_witness :
  @MainGo.getSelectedServices (scripted all_fine) sample "" "v9" !! "docs-fe" = Some "v3.48.1"
  ∧ (@Part001.getSelectedServices (scripted all_fine) sample "" "v9").1 !! "docs-fe" = Some "v9".
Proof.
  apply (@empty_scope_ungrouped_service (scripted all_fine) sample "v9" "docs-fe").
  intros g group Hl _ Hin. unfold sample, mkService in Hl.
  cbn [services ServiceGroups list_to_map foldr] in Hl.
  apply lookup_insert_Some in Hl as [[_ <-]|[_ Hl]]; [|by rewrite lookup_empty in Hl].
  cbn [ServiceGroup.Services] in Hin.
  repeat (apply elem_of_cons in Hin as [Hin|Hin]; [discriminate Hin|]).
  by apply elem_of_nil in Hin.
Defined.

(** ** What an update writes, the reader reads back *)

Lemma string_app_assoc (a b c : string) : (a ++ b) ++ c = a ++ b ++ c.
Proof.
  induction a as [|x a IH]; [done|].
  change (String x ((a ++ b) ++ c) = String x (a ++ b ++ c)). by rewrite IH.
Qed.

Lemma list_ascii_of_string_app (a b : string) :
  list_ascii_of_string (a ++ b) = (list_ascii_of_string a ++ list_ascii_of_string b)%list.
Proof.
  induction a as [|x a IH]; [done|].
  change (x :: list_ascii_of_string (a ++ b)
          = x :: (list_ascii_of_string a ++ list_ascii_of_string b)%list).
  by rewrite IH.
Qed.

(** A string is cut at its last separator in one way only. *)
Lemma last_sep_unique (c : ascii) (a b a' b' : string) :
  c ∉ list_ascii_of_string b → c ∉ list_ascii_of_string b' →
  a ++ String c b = a' ++ String c b' → a = a' ∧ b = b'.
Proof.
  intros Hb Hb'. revert a'. induction a as [|x a IH]; intros [|y a']; simpl.
  - by intros [= ->].
  - intros [= -> ->]. destruct Hb. rewrite list_ascii_of_string_app.
    apply elem_of_app. right. by left.
  - intros [= -> <-]. destruct Hb'. rewrite list_ascii_of_string_app.
    apply elem_of_app. right. by left.
  - intros [= -> Heq]. apply IH in Heq as [-> ->]. done.
Qed.

(** X7.  [deployService] of both variants issues one update command, for
    the image [registry/service:version].  When the cluster query reports
    that very image for the deployment [service], an enabled service, the
    line loop of [getCurrentVersions] records [version] for it, provided the
    registry holds no [:]; when the registry holds a [:] (a host with a
    port), the row is dropped and the snapshot is left as it was.  Names and
    versions are taken free of tabs and colons. *)
Theorem deployed_image_reads_back `{Runtime} (s : Service)
    (service registry namespace version : string) (w : World)
    (versions : gmap string string) :
  let image := registry ++ "/" ++ service ++ ":" ++ version in
  enabled_service s service →
  strings.tab ∉ list_ascii_of_string service →
  strings.tab ∉ list_ascii_of_string registry →
  strings.tab ∉ list_ascii_of_string version →
  strings.colon ∉ list_ascii_of_string service →
  strings.colon ∉ list_ascii_of_string version →
  update_cmds (evs (MainGo.deployService service registry namespace version w))
  = [cmd_set_image service image namespace]
  ∧ update_cmds (evs (Part001.deployService service registry namespace version w))
    = [cmd_set_image service image namespace]
  ∧ recordLine (getEnabledServices s) versions (service ++ String strings.tab image)
    = if bool_decide (strings.colon ∈ list_ascii_of_string registry)
      then versions else <[service := version]> versions.
Proof.
  intros image Hen Hts Htr Htv Hcs Hcv. split_and!.
  - by rewrite main_deployService_run.
  - by rewrite p1_deployService_run.
  - assert (image = (registry ++ "/" ++ service) ++ String strings.colon version) as Himage
      by (subst image; by rewrite string_app_assoc, string_app_assoc).
    assert (strings.tab ∉ list_ascii_of_string image) as Hti.
    { subst image. rewrite !list_ascii_of_string_app. simpl. intros Hin.
      repeat first [ apply elem_of_app in Hin as [Hin|Hin]
                   | apply elem_of_cons in Hin as [Hin|Hin] ];
        first [done | by apply elem_of_nil in Hin]. }
    unfold recordLine. rewrite decide_False by (by destruct service).
    assert (strings.Split (service ++ String strings.tab image) strings.tab
            = [service; image]) as -> by (by apply Split_two).
    rewrite (enabled_services_complete s service Hen).
    case_bool_decide as Hport.
    + destruct (strings.Split image strings.colon) as [|repo [|tag [|??]]] eqn:E; [done..| |done].
      apply Split_two in E as (E & Hrepo & Htag). rewrite Himage in E.
      apply last_sep_unique in E as [<- _]; [|done..].
      destruct Hrepo. rewrite list_ascii_of_string_app. apply elem_of_app. by left.
    + assert (strings.Split image strings.colon = [registry ++ "/" ++ service; version]) as ->;
        [|done].
      apply Split_two. split_and!; [done| |done].
      rewrite !list_ascii_of_string_app. simpl. intros Hin.
      repeat first [ apply elem_of_app in Hin as [Hin|Hin]
                   | apply elem_of_cons in Hin as [Hin|Hin] ];
        first [done | by apply elem_of_nil in Hin].
Qed.

Lemma deployed_image_reads_back_witness :
  recordLine (@getEnabledServices (scripted all_fine) sample) ∅
    ("docs-fe" ++ String strings.tab ("registry.example" ++ "/" ++ "docs-fe" ++ ":" ++ "v3.48.1"))
  = {[ "docs-fe" := "v3.48.1" ]}
  ∧ recordLine (@getEnabledServices (scripted all_fine) sample) ∅
      ("docs-fe" ++ String strings.tab
                      ("registry.example:5000" ++ "/" ++ "docs-fe" ++ ":" ++ "v3.48.1"))
    = ∅.
Proof.
  assert (enabled_service sample "docs-fe") as Hen.
  { left. exists (ServiceInfo.Build_t true "v3.48.1"). by split. }
  split.
  - refine (proj2 (proj2 (@deployed_image_reads_back (scripted all_fine) sample
                            "docs-fe" "registry.example" "default" "v3.48.1" tt ∅
                            Hen _ _ _ _ _)));
      apply (bool_decide_unpack _); by vm_compute.
  - refine (proj2 (proj2 (@deployed_image_reads_back (scripted all_fine) sample
                            "docs-fe" "registry.example:5000" "default" "v3.48.1" tt ∅
                            Hen _ _ _ _ _)));
      apply (bool_decide_unpack _); by vm_compute.
Defined.

(** ** The confirmation prompt *)

Lemma ToLower_y (response : string) :
  strings.ToLower response = "y" ↔ response = "y" ∨ response = "Y".
Proof.
  split.
  - destruct response as [|c [|c' rest]]; [done| |done].
    intros Hc. simpl in Hc. injection Hc as Hc.
    destruct c as [[] [] [] [] [] [] [] []]; vm_compute in Hc; try discriminate Hc; auto.
  - by intros [-> | ->].
Qed.

(** X8.  [confirmDeploy] prints the prompt, reads one answer, and returns
    [true] for the answers [y] and [Y] and for no other: the empty answer,
    [yes] and any other word are refusals.  In both variants. *)
Theorem confirmDeploy_accepts_only_y `{Runtime} (w : World) :
  (res (MainGo.confirmDeploy w) = true ↔ (scanln w).1 = "y" ∨ (scanln w).1 = "Y")
  ∧ (res (Part001.confirmDeploy w) = true ↔ (scanln w).1 = "y" ∨ (scanln w).1 = "Y")
  ∧ evs (MainGo.confirmDeploy w)
    = [EvPrint (nl ++ "是否确认部署? [y/N]: "); EvScanln (scanln w).1]
  ∧ evs (Part001.confirmDeploy w) = evs (MainGo.confirmDeploy w).
Proof.
  split_and!; [| |done..];
    (cbn [MainGo.confirmDeploy Part001.confirmDeploy bind Print emit Scanln ret res fin];
     rewrite bool_decide_eq_true; apply ToLower_y).
Qed.

(** ** The operations, from outside *)

(** X9.  [Check] is read-only: whatever its arguments and whatever the
    cluster answers, it issues no update command and reads no answer from
    standard input; in [src/main.go] it writes nothing to the log file
    either.  In both variants. *)
Theorem Check_is_read_only `{Runtime} (s : Service)
    (env servicesInput versionInput : string) (w : World) :
  (never is_update (evs (MainGo.Check s env servicesInput versionInput w))
   ∧ never is_answer (evs (MainGo.Check s env servicesInput versionInput w))
   ∧ never is_log (evs (MainGo.Check s env servicesInput versionInput w)))
  ∧ (never is_update (evs (Part001.Check s env servicesInput versionInput w))
     ∧ never is_answer (evs (Part001.Check s env servicesInput versionInput w))).
Proof.
  split; [split_and!; unfold MainGo.Check | split; unfold Part001.Check];
    go_run; quiet_all.
Qed.

(** X10.  An environment name that [config.json] does not hold is rejected
    before anything is done: [Deploy] and [Check] return the error that
    names it without running [kubectl] or reading an answer, and [main]
    exits with code 1.  In both variants. *)
Theorem unknown_environment_is_rejected `{Runtime} (s : Service) (isCheck : bool)
    (env servicesInput versionInput : string) (w : World) :
  Environments (config s) !! env = None →
  (let op := if isCheck then MainGo.Check s env servicesInput versionInput w
             else MainGo.Deploy s env servicesInput versionInput w in
   res op = Some ("无效的环境: " ++ env)
   ∧ never is_kubectl (evs op) ∧ never is_answer (evs op)
   ∧ res (MainGo.main s isCheck env servicesInput versionInput w) = 1)
  ∧ (let op := if isCheck then Part001.Check s env servicesInput versionInput w
               else Part001.Deploy s env servicesInput versionInput w in
     res op = Some ("无效的环境: " ++ env)
     ∧ never is_kubectl (evs op) ∧ never is_answer (evs op)
     ∧ res (Part001.main s isCheck env servicesInput versionInput w) = 1).
Proof.
  intros Henv. split; cbv zeta.
  - rewrite main_main_run. cbv zeta.
    destruct isCheck; unfold MainGo.Check, MainGo.Deploy; rewrite Henv; go_cbn;
      (split_and!; [done | quiet_all | quiet_all | done]).
  - rewrite p1_main_run. cbv zeta.
    destruct isCheck; unfold Part001.Check, Part001.Deploy; rewrite Henv; go_cbn;
      (split_and!; [done | quiet_all | quiet_all | done]).
Qed.

Lemma unknown_environment_is_rejected_witness :
  res (@MainGo.Deploy (scripted all_fine) sample "prod" "" "" tt) = Some "无效的环境: prod"
  ∧ res (@Part001.main (scripted all_fine) sample true "prod" "" "" tt) = 1.
Proof.
  split.
  - apply (proj1 (@unknown_environment_is_rejected (scripted all_fine) sample false
                    "prod" "" "" tt eq_refl)).
  - apply (proj2 (@unknown_environment_is_rejected (scripted all_fine) sample true
                    "prod" "" "" tt eq_refl)).
Defined.

Section ExitCode.
Context `{Runtime}.
Implicit Types (s : Service) (w : World).

(** Settle one path through an operation: either it ends in [nil] and the
    conditions hold, or it ends in an error and one of them fails. *)
Ltac settle :=
  split;
  [ intros Hres;
    first
      [ discriminate Hres
      | eexists; split_and!; [reflexivity | done.. |];
        intros Hempty;
        match goal with
        | Hn : size _ ≠ 0 |- _ => apply Hn; rewrite Hempty; apply map_size_empty
        end ]
  | intros (ec & Henv & Hrest);
    first
      [ reflexivity
      | discriminate Henv
      | injection Henv as <-;
        repeat match goal with Hc : _ ∧ _ |- _ => destruct Hc end;
        first
          [ congruence
          | match goal with
            | Hz : size _ = 0, Hne : _ ≠ ∅ |- _ => by apply map_size_empty_iff in Hz
            end ] ] ].

Lemma main_Deploy_nil s env servicesInput versionInput w :
  res (MainGo.Deploy s env servicesInput versionInput w) = None ↔
  ∃ envConfig, Environments (config s) !! env = Some envConfig
    ∧ res (MainGo.switchContext (Context envConfig) w) = None
    ∧ MainGo.getSelectedServices s servicesInput versionInput ≠ ∅.
Proof. unfold MainGo.Deploy, MainGo.deployAll. go_run; settle. Qed.

Lemma main_Check_nil s env servicesInput versionInput w :
  res (MainGo.Check s env servicesInput versionInput w) = None ↔
  ∃ envConfig, Environments (config s) !! env = Some envConfig
    ∧ res (MainGo.switchContext (Context envConfig) w) = None
    ∧ MainGo.getSelectedServices s servicesInput versionInput ≠ ∅.
Proof. unfold MainGo.Check. go_run; settle. Qed.

Lemma p1_Check_nil s env servicesInput versionInput w :
  res (Part001.Check s env servicesInput versionInput w) = None ↔
  ∃ envConfig, Environments (config s) !! env = Some envConfig
    ∧ res (Part001.switchContext (Context envConfig) w) = None
    ∧ (res (Part001.getCurrentVersions s (Namespace envConfig)
              (fin (Part001.switchContext (Context envConfig) w)))).2 = None
    ∧ (Part001.getSelectedServices s servicesInput versionInput).1 ≠ ∅.
Proof. unfold Part001.Check. go_run; settle. Qed.
End ExitCode.

(** X11.  When does the process exit with code 0?  In [src/main.go], for
    [Deploy] and for [Check] alike, exactly when the environment exists, the
    context switcher succeeds and the selection is not empty: a failed
    cluster query, the answer to the prompt and the outcome of the updates do
    not count.  In [src/unnamed/part_001], [check] exits with code 0 exactly
    when, besides these, the cluster query succeeds. *)
Theorem exit_code_zero_conditions `{Runtime} (s : Service) (isCheck : bool)
    (env servicesInput versionInput : string) (w : World) :
  (res (MainGo.main s isCheck env servicesInput versionInput w) = 0 ↔
   ∃ envConfig, Environments (config s) !! env = Some envConfig
     ∧ res (MainGo.switchContext (Context envConfig) w) = None
     ∧ MainGo.getSelectedServices s servicesInput versionInput ≠ ∅)
  ∧ (res (Part001.main s true env servicesInput versionInput w) = 0 ↔
     ∃ envConfig, Environments (config s) !! env = Some envConfig
       ∧ res (Part001.switchContext (Context envConfig) w) = None
       ∧ (res (Part001.getCurrentVersions s (Namespace envConfig)
                 (fin (Part001.switchContext (Context envConfig) w)))).2 = None
       ∧ (Part001.getSelectedServices s servicesInput versionInput).1 ≠ ∅).
Proof.
  split.
  - rewrite main_main_run. cbv zeta. destruct isCheck.
    + rewrite <- main_Check_nil.
      by destruct (res (MainGo.Check s env servicesInput versionInput w)).
    + rewrite <- main_Deploy_nil.
      by destruct (res (MainGo.Deploy s env servicesInput versionInput w)).
  - rewrite p1_main_run. cbv zeta. rewrite <- p1_Check_nil.
    by destruct (res (Part001.Check s env servicesInput versionInput w)).
Qed.

(** ** The tables in the traces *)

(** Where can an event of kind [p] sit in a trace assembled from the blocks? *)
Ltac event_in p Hin :=
  repeat lazymatch type of Hin with
  | _ ∈ (_ ++ _)%list => apply elem_of_app in Hin as [Hin|Hin]
  | _ ∈ (_ :: _) => apply elem_of_cons in Hin as [Hin|Hin]
  | _ ∈ [] => by apply elem_of_nil in Hin
  | _ ∈ evs _ =>
      exfalso; apply (never_elem p) in Hin; [discriminate Hin | quiet_all]
  | EvPreview _ _ = EvPreview _ _ => fail
  | EvComparison _ _ = EvComparison _ _ => fail
  | _ = _ => discriminate Hin
  end.

Section TablesInTraces.
Context `{Runtime}.
Implicit Types (s : Service) (w : World).

Lemma main_Deploy_comparison s env servicesInput versionInput w :
  let o := MainGo.Deploy s env servicesInput versionInput w in
  (∃ old new, EvComparison old new ∈ evs o) ↔ confirmed (evs o).
Proof.
  intros o. subst o. unfold MainGo.Deploy, MainGo.deployAll, confirmed. go_run; flatten;
    (split;
      [ intros (old & new & Hin); event_in is_comparison Hin;
        (eexists; split;
          [ find_event
          | match goal with Hy : bool_decide _ = true |- _ =>
              exact (bool_decide_eq_true_1 _ Hy) end ])
      | intros (response & Hin & Hyes); answer_in Hin;
        first
          [ by match goal with Hn : bool_decide _ = false |- _ =>
                 apply bool_decide_eq_false in Hn end
          | do 2 eexists; find_event ] ]).
Qed.

Lemma p1_Deploy_comparison s env servicesInput versionInput w :
  let o := Part001.Deploy s env servicesInput versionInput w in
  (∃ old new, EvComparison old new ∈ evs o) ↔ confirmed (evs o) ∧ res o = None.
Proof.
  intros o. subst o. unfold Part001.Deploy, Part001.deployAll, confirmed. go_run; flatten;
    (split;
      [ intros (old & new & Hin); event_in is_comparison Hin;
        (split; [|done]); (eexists; split;
          [ find_event
          | match goal with Hy : bool_decide _ = true |- _ =>
              exact (bool_decide_eq_true_1 _ Hy) end ])
      | intros [(response & Hin & Hyes) Hres]; try discriminate Hres; answer_in Hin;
        first
          [ by match goal with Hn : bool_decide _ = false |- _ =>
                 apply bool_decide_eq_false in Hn end
          | do 2 eexists; find_event ] ]).
Qed.

Lemma main_Check_preview s env servicesInput versionInput w :
  let o := MainGo.Check s env servicesInput versionInput w in
  ((∃ cur tgt, EvPreview cur tgt ∈ evs o) ↔ res o = None)
  ∧ (∀ cur tgt, EvPreview cur tgt ∈ evs o →
       tgt = MainGo.getSelectedServices s servicesInput versionInput ∧ tgt ≠ ∅).
Proof.
  intros o. subst o. unfold MainGo.Check. go_run; flatten;
    (split;
      [ split;
        [ intros (cur & tgt & Hin); event_in is_preview Hin; done
        | intros Hres; first [discriminate Hres | do 2 eexists; find_event] ]
      | intros cur tgt Hin; event_in is_preview Hin;
        injection Hin as -> ->;
        (split;
          [ done
          | intros Hempty;
            match goal with
            | Hn : size _ ≠ 0 |- _ => apply Hn; rewrite Hempty; apply map_size_empty
            end ]) ]).
Qed.

Lemma p1_Check_preview s env servicesInput versionInput w :
  let o := Part001.Check s env servicesInput versionInput w in
  ((∃ cur tgt, EvPreview cur tgt ∈ evs o) ↔ res o = None)
  ∧ (∀ cur tgt, EvPreview cur tgt ∈ evs o →
       tgt = (Part001.getSelectedServices s servicesInput versionInput).1 ∧ tgt ≠ ∅).
Proof.
  intros o. subst o. unfold Part001.Check. go_run; flatten;
    (split;
      [ split;
        [ intros (cur & tgt & Hin); event_in is_preview Hin; done
        | intros Hres; first [discriminate Hres | do 2 eexists; find_event] ]
      | intros cur tgt Hin; event_in is_preview Hin;
        injection Hin as -> ->;
        (split;
          [ done
          | intros Hempty;
            match goal with
            | Hn : size _ ≠ 0 |- _ => apply Hn; rewrite Hempty; apply map_size_empty
            end ]) ]).
Qed.
End TablesInTraces.

(** X12.  [Deploy] prints the table of results ([printVersionComparison])
    in [src/main.go] exactly when the prompt was answered affirmatively,
    whether or not updates failed; in [src/unnamed/part_001] exactly when
    the prompt was answered affirmatively and [Deploy] returns [nil], that
    is, when no update failed. *)
Theorem comparison_printed_iff `{Runtime} (s : Service)
    (env servicesInput versionInput : string) (w : World) :
  let o := MainGo.Deploy s env servicesInput versionInput w in
  let o' := Part001.Deploy s env servicesInput versionInput w in
  ((∃ old new, EvComparison old new ∈ evs o) ↔ confirmed (evs o))
  ∧ ((∃ old new, EvComparison old new ∈ evs o') ↔ confirmed (evs o') ∧ res o' = None).
Proof.
  cbv zeta. split; [apply main_Deploy_comparison | apply p1_Deploy_comparison].
Qed.

(** X13.  [Check] prints the preview table exactly when it returns [nil],
    and the target it shows is the resolved selection, which is then not
    empty.  In both variants. *)
Theorem Check_previews_iff_it_succeeds `{Runtime} (s : Service)
    (env servicesInput versionInput : string) (w : World) :
  let o := MainGo.Check s env servicesInput versionInput w in
  let o' := Part001.Check s env servicesInput versionInput w in
  (((∃ cur tgt, EvPreview cur tgt ∈ evs o) ↔ res o = None)
   ∧ (∀ cur tgt, EvPreview cur tgt ∈ evs o →
        tgt = MainGo.getSelectedServices s servicesInput versionInput ∧ tgt ≠ ∅))
  ∧ (((∃ cur tgt, EvPreview cur tgt ∈ evs o') ↔ res o' = None)
     ∧ (∀ cur tgt, EvPreview cur tgt ∈ evs o' →
          tgt = (Part001.getSelectedServices s servicesInput versionInput).1 ∧ tgt ≠ ∅)).
Proof.
  cbv zeta. split; [apply main_Check_preview | apply p1_Check_preview].
Qed.

(** ** Where the updates go *)

Lemma confirmed_first_confirmed trace : confirmed_first trace → confirmed trace.
Proof.
  intros (pre & response & post & -> & Hyes & _). exists response. split; [|done].
  apply elem_of_app. right. by left.
Qed.

Section Targets.
Context `{Runtime}.
Implicit Types (s : Service) (w : World).

Lemma main_Deploy_targets s env servicesInput versionInput w args :
  args ∈ update_cmds (evs (MainGo.Deploy s env servicesInput versionInput w)) →
  ∃ envConfig service version,
    Environments (config s) !! env = Some envConfig
    ∧ MainGo.getSelectedServices s servicesInput versionInput !! service = Some version
    ∧ enabled_service s service
    ∧ args = cmd_set_image service
               (Registry envConfig ++ "/" ++ service ++ ":" ++ version) (Namespace envConfig).
Proof.
  intros Hin.
  destruct (proj2 (main_Deploy_gate s env servicesInput versionInput w)) as [Hnever|Hfirst].
  { rewrite update_cmds_never in Hin by done. by apply elem_of_nil in Hin. }
  apply confirmed_first_confirmed in Hfirst as (response & Hr & Hyes).
  destruct (Environments (config s) !! env) as [envConfig|] eqn:Henv.
  - destruct (main_Deploy_executor s env servicesInput versionInput w envConfig response
                Henv Hr Hyes) as (Hperm & _).
    rewrite Hperm in Hin.
    apply list_elem_of_fmap in Hin as ([service version] & -> & Hkv%elem_of_map_to_list).
    exists envConfig, service, version. split_and!; [done..| |done].
    eapply main_selected_enabled, elem_of_dom. eauto.
  - exfalso. unfold MainGo.Deploy in Hin. rewrite Henv in Hin.
    cbn in Hin. by apply elem_of_nil in Hin.
Qed.

Lemma p1_Deploy_targets s env servicesInput versionInput w args :
  args ∈ update_cmds (evs (Part001.Deploy s env servicesInput versionInput w)) →
  ∃ envConfig service version,
    Environments (config s) !! env = Some envConfig
    ∧ (Part001.getSelectedServices s servicesInput versionInput).1 !! service = Some version
    ∧ enabled_service s service
    ∧ args = cmd_set_image service
               (Registry envConfig ++ "/" ++ service ++ ":" ++ version) (Namespace envConfig).
Proof.
  intros Hin.
  destruct (proj2 (p1_Deploy_gate s env servicesInput versionInput w)) as [Hnever|Hfirst].
  { rewrite update_cmds_never in Hin by done. by apply elem_of_nil in Hin. }
  apply confirmed_first_confirmed in Hfirst as (response & Hr & Hyes).
  destruct (Environments (config s) !! env) as [envConfig|] eqn:Henv.
  - destruct (p1_Deploy_executor s env servicesInput versionInput w envConfig response
                Henv Hr Hyes) as (Hperm & _).
    rewrite Hperm in Hin.
    apply list_elem_of_fmap in Hin as ([service version] & -> & Hkv%elem_of_map_to_list).
    exists envConfig, service, version. split_and!; [done..| |done].
    eapply p1_selected_enabled, elem_of_dom. eauto.
  - exfalso. unfold Part001.Deploy in Hin. rewrite Henv in Hin.
    cbn in Hin. by apply elem_of_nil in Hin.
Qed.
End Targets.

(** X14.  Every update command that [Deploy] issues, in any run, sets the
    image of a service of the resolved selection, an enabled service, to
    [registry/service:version] with the version the selection gives it and
    the registry of the environment named on the command line, in the
    namespace of that environment: nothing outside the selection, no
    disabled service, no other registry or namespace is written to.  In
    both variants. *)
Theorem updates_only_for_selected_enabled `{Runtime} (s : Service)
    (env servicesInput versionInput : string) (w : World) :
  (∀ args, args ∈ update_cmds (evs (MainGo.Deploy s env servicesInput versionInput w)) →
     ∃ envConfig service version,
       Environments (config s) !! env = Some envConfig
       ∧ MainGo.getSelectedServices s servicesInput versionInput !! service = Some version
       ∧ enabled_service s service
       ∧ args = cmd_set_image service
                  (Registry envConfig ++ "/" ++ service ++ ":" ++ version)
                  (Namespace envConfig))
  ∧ (∀ args, args ∈ update_cmds (evs (Part001.Deploy s env servicesInput versionInput w)) →
       ∃ envConfig service version,
         Environments (config s) !! env = Some envConfig
         ∧ (Part001.getSelectedServices s servicesInput versionInput).1 !! service
           = Some version
         ∧ enabled_service s service
         ∧ args = cmd_set_image service
                    (Registry envConfig ++ "/" ++ service ++ ":" ++ version)
                    (Namespace envConfig)).
Proof. split; intros args; [apply main_Deploy_targets | apply p1_Deploy_targets]. Qed.

Lemma updates_only_for_selected_enabled_witness :
  ∃ envConfig service version,
    Environments (config sample) !! "pre" = Some envConfig
    ∧ @MainGo.getSelectedServices (scripted one_fails) sample "nft" "" !! service = Some version
    ∧ enabled_service sample service
    ∧ cmd_set_image "nft-core-be" "registry.example/nft-core-be:v1.15.5" "default"
      = cmd_set_image service
          (Registry envConfig ++ "/" ++ service ++ ":" ++ version) (Namespace envConfig).
Proof.
  apply (proj1 (@updates_only_for_selected_enabled (scripted one_fails) sample
                  "pre" "nft" "" tt)).
  in_trace.
Defined.

(** ** The layout of the version tables *)

Example titles :
  String.length "服务名称" = 12%nat
  ∧ String.length "目标版本" = 12%nat
  ∧ String.length "之前版本" = 12%nat.
Proof. by split_and!. Qed.

Lemma ascii_compare_refl (x : ascii) : Ascii.compare x x = Eq.
Proof. apply N.compare_refl. Qed.

Lemma ascii_compare_lt_trans (x y z : ascii) :
  Ascii.compare x y = Lt → Ascii.compare y z = Lt → Ascii.compare x z = Lt.
Proof.
  unfold Ascii.compare. rewrite !N.compare_lt_iff. apply N.lt_trans.
Qed.

Lemma string_compare_trans (a b c : string) :
  String.compare a b ≠ Gt → String.compare b c ≠ Gt → String.compare a c ≠ Gt.
Proof.
  revert b c. induction a as [|x a IH]; intros [|y b] [|z c]; simpl; try done.
  destruct (Ascii.compare x y) eqn:Exy; [| |done];
    (destruct (Ascii.compare y z) eqn:Eyz; [| |done]).
  - apply Ascii.compare_eq_iff in Exy as ->. apply Ascii.compare_eq_iff in Eyz as ->.
    rewrite ascii_compare_refl. apply IH.
  - apply Ascii.compare_eq_iff in Exy as ->. by rewrite Eyz.
  - apply Ascii.compare_eq_iff in Eyz as <-. by rewrite Exy.
  - by rewrite (ascii_compare_lt_trans x y z).
Qed.

Lemma string_le_trans : Transitive string_le.
Proof.
  intros a b c. unfold string_le, String.leb. intros Hab Hbc.
  pose proof (string_compare_trans a b c) as Ht.
  destruct (String.compare a b); destruct (String.compare b c);
    destruct (String.compare a c); try done; by destruct Ht.
Qed.

Lemma string_le_total : Total string_le.
Proof.
  intros a b. unfold string_le.
  destruct (String.leb_total a b) as [-> | ->]; [by left | by right].
Qed.

Lemma string_le_antisym : AntiSymm (=) string_le.
Proof.
  intros a b Hab Hba. apply String.leb_antisym; by apply Is_true_true.
Qed.

Section Tables.
Context `{Runtime}.
Implicit Types (currentVersions targetVersions : gmap string string).

Lemma widen_grows currentVersions targetVersions widths svc :
  let widths' := widen currentVersions targetVersions widths svc in
  (widths.1 ≤ widths'.1 ∧ widths.2 ≤ widths'.2
   ∧ String.length svc ≤ widths'.1
   ∧ String.length (default "" (currentVersions !! svc)) ≤ widths'.2
   ∧ String.length (default "" (targetVersions !! svc)) ≤ widths'.2)%nat.
Proof.
  destruct widths as [n v]. unfold widen. cbv zeta.
  repeat case_decide; cbn [fst snd]; lia.
Qed.

Lemma widths_grow currentVersions targetVersions names widths :
  let widths' := foldl (widen currentVersions targetVersions) widths names in
  (widths.1 ≤ widths'.1 ∧ widths.2 ≤ widths'.2)%nat.
Proof.
  cbv zeta. revert widths. induction names as [|svc names IH]; intros widths; [done|].
  simpl. specialize (IH (widen currentVersions targetVersions widths svc)).
  pose proof (widen_grows currentVersions targetVersions widths svc) as Hw.
  cbv zeta in Hw. lia.
Qed.

Lemma widths_cover currentVersions targetVersions names widths svc :
  let widths' := foldl (widen currentVersions targetVersions) widths names in
  svc ∈ names →
  (String.length svc ≤ widths'.1
   ∧ String.length (default "" (currentVersions !! svc)) ≤ widths'.2
   ∧ String.length (default "" (targetVersions !! svc)) ≤ widths'.2)%nat.
Proof.
  cbv zeta. revert widths. induction names as [|x names IH]; intros widths Hin;
    [by apply elem_of_nil in Hin|].
  simpl. apply elem_of_cons in Hin as [->|Hin]; [|by apply IH].
  pose proof (widen_grows currentVersions targetVersions widths x) as Hw.
  pose proof (widths_grow currentVersions targetVersions names
                (widen currentVersions targetVersions widths x)) as Hg.
  cbv zeta in Hw, Hg. lia.
Qed.

Lemma layout_services currentVersions targetVersions :
  Table.services (layout currentVersions targetVersions)
  ≡ₚ (map_to_list targetVersions).*1.
Proof.
  unfold layout. cbn [Table.services]. unfold sort.Strings.
  by rewrite merge_sort_Permutation, (range_perm _ targetVersions).
Qed.
End Tables.

(** X15.  The rows of the tables of [previewVersions] and
    [printVersionComparison]: one row for every key of the second map (the
    target, or the state after the updates) and for nothing else, no name
    twice, in ascending byte-wise order, whatever the order in which Go
    enumerates the map. *)
Theorem table_rows_sorted_complete `{Runtime}
    (currentVersions targetVersions : gmap string string) :
  let rows := Table.services (layout currentVersions targetVersions) in
  (∀ name, name ∈ rows ↔ is_Some (targetVersions !! name))
  ∧ NoDup rows
  ∧ StronglySorted string_le rows
  ∧ (∀ RT : Runtime, Table.services (@layout RT currentVersions targetVersions) = rows).
Proof.
  cbv zeta. split_and!.
  - intros name. rewrite layout_services, list_elem_of_fmap. split.
    + intros ([k v] & -> & Hkv%elem_of_map_to_list). eauto.
    + intros [v Hv]. exists (name, v). split; [done|]. by apply elem_of_map_to_list.
  - rewrite layout_services. apply NoDup_fst_map_to_list.
  - apply (@StronglySorted_merge_sort _ string_le _ string_le_trans string_le_total).
  - intros RT.
    apply (@StronglySorted_unique _ string_le string_le_antisym).
    + apply (@StronglySorted_merge_sort _ string_le _ string_le_trans string_le_total).
    + apply (@StronglySorted_merge_sort _ string_le _ string_le_trans string_le_total).
    + by rewrite (@layout_services RT), layout_services.
Qed.

(** X16.  The columns of these tables are wide enough: the name column
    holds every service name of a row and the title with two bytes to
    spare, the version columns hold both versions of every row (a version
    the first map lacks counts as empty) and the title with two bytes to
    spare, and the rules are as long as the three columns and their
    separators. *)
Theorem table_columns_fit `{Runtime}
    (currentVersions targetVersions : gmap string string) (name : string) :
  let table := layout currentVersions targetVersions in
  name ∈ Table.services table →
  (String.length name + 2 ≤ Table.maxNameLen table
   ∧ String.length (default "" (currentVersions !! name)) + 2 ≤ Table.maxVersionLen table
   ∧ String.length (default "" (targetVersions !! name)) + 2 ≤ Table.maxVersionLen table
   ∧ String.length "服务名称" + 2 ≤ Table.maxNameLen table
   ∧ String.length "目标版本" + 2 ≤ Table.maxVersionLen table
   ∧ Table.maxNameLen table + 2 * Table.maxVersionLen table + 7 = Table.totalWidth table)%nat.
Proof.
  cbv zeta. unfold layout. cbn [Table.services Table.maxNameLen Table.maxVersionLen
                                 Table.totalWidth].
  intros Hin.
  pose proof (widths_cover currentVersions targetVersions _
                (String.length "服务名称", String.length "目标版本") name Hin) as Hc.
  pose proof (widths_grow currentVersions targetVersions
                (sort.Strings (range_ targetVersions).*1)
                (String.length "服务名称", String.length "目标版本")) as Hg.
  cbv zeta in Hc, Hg. cbn [fst snd] in Hg. lia.
Qed.

Lemma table_columns_fit_witness :
  (String.length "nft-ethereum-be" + 2
   ≤ Table.maxNameLen
       (@layout (scripted all_fine) ∅
          {[ "docs-fe" := "v3.48.1"; "nft-ethereum-be" := "v1.15.5" ]}))%nat.
Proof.
  refine (proj1 (@table_columns_fit (scripted all_fine) ∅
                   {[ "docs-fe" := "v3.48.1"; "nft-ethereum-be" := "v1.15.5" ]}
                   "nft-ethereum-be" _)).
  vm_compute. by right; left.
Defined.

(** ** [removeColorCodes] *)

Lemma app_String (x : ascii) (a b : string) : String x a ++ b = String x (a ++ b).
Proof. done. Qed.

Lemma replace_text (code' text rest : string) :
  "027"%char ∉ list_ascii_of_string text →
  strings.ReplaceAll (text ++ rest) (String "027"%char code') ""
  = text ++ strings.ReplaceAll rest (String "027"%char code') "".
Proof.
  unfold strings.ReplaceAll. induction text as [|x text IH]; [done|].
  intros [Hx Ht]%not_elem_of_cons. rewrite !app_String.
  cbn [strings.replaceFrom String.prefix].
  destruct (ascii_dec "027" x) as [Heq|_]; [by destruct Hx|]. by rewrite IH.
Qed.

Lemma replace_code (code c rest : string) :
  code ∈ logger.colorCodes → c ∈ logger.colorCodes →
  strings.ReplaceAll (c ++ rest) code ""
  = if decide (c ∈ [code]) then strings.ReplaceAll rest code ""
    else c ++ strings.ReplaceAll rest code "".
Proof.
  unfold logger.colorCodes. intros Hcode Hc.
  repeat (apply elem_of_cons in Hcode as [->|Hcode]);
    try (by apply elem_of_nil in Hcode);
    (repeat (apply elem_of_cons in Hc as [->|Hc]); try (by apply elem_of_nil in Hc));
    match goal with
    | |- context [decide (?a ∈ [?b])] =>
        destruct (decide (a ∈ [b])) as [Hin|Hout];
        [ apply list_elem_of_singleton in Hin;
          first [ by vm_compute in Hin | by destruct rest ]
        | first [ by destruct rest | destruct Hout; by left ] ]
    end.
Qed.

Lemma strips_ok codes pieces : Forall piece_ok pieces → Forall piece_ok (strips codes pieces).
Proof.
  induction 1 as [|[code|text] pieces Hp _ IH]; simpl; [done| |by constructor].
  case_decide; [done | by constructor].
Qed.

Lemma strips_nil pieces : strips [] pieces = pieces.
Proof. induction pieces as [|[code|text] pieces IH]; simpl; by rewrite ?IH. Qed.

Lemma strips_cons code codes pieces :
  strips (code :: codes) pieces = strips codes (strips [code] pieces).
Proof.
  induction pieces as [|[c|text] pieces IH]; simpl; [done| |by rewrite IH].
  destruct (decide (c ∈ [code])) as [Hin|Hout].
  - rewrite decide_True; [done|]. apply list_elem_of_singleton in Hin as ->. by left.
  - simpl. destruct (decide (c ∈ codes)) as [Hc|Hc].
    + rewrite decide_True; [done | by right].
    + rewrite decide_False; [by rewrite IH|].
      intros [->|?]%elem_of_cons; [|done]. destruct Hout. by left.
Qed.

Lemma replace_pieces code pieces :
  code ∈ logger.colorCodes → Forall piece_ok pieces →
  strings.ReplaceAll (render pieces) code "" = render (strips [code] pieces).
Proof.
  intros Hcode. induction 1 as [|[c|text] pieces Hp _ IH]; [done|..]; simpl.
  - rewrite replace_code by done. case_decide; simpl; by rewrite IH.
  - assert (∃ code', code = String "027"%char code') as [code' ->].
    { unfold logger.colorCodes in Hcode.
      repeat (apply elem_of_cons in Hcode as [->|Hcode]); try (by eexists);
        by apply elem_of_nil in Hcode. }
    rewrite replace_text by done. by rewrite IH.
Qed.

Lemma replace_all_pieces codes pieces :
  Forall (λ code, code ∈ logger.colorCodes) codes → Forall piece_ok pieces →
  foldl (λ result code, strings.ReplaceAll result code "") (render pieces) codes
  = render (strips codes pieces).
Proof.
  intros Hcodes. revert pieces. induction Hcodes as [|code codes Hcode _ IH]; intros pieces Hp.
  - by rewrite strips_nil.
  - simpl. rewrite replace_pieces by done. rewrite IH by (by apply strips_ok).
    by rewrite <- strips_cons.
Qed.

Lemma strips_all pieces :
  Forall piece_ok pieces → render (strips logger.colorCodes pieces) = plain pieces.
Proof.
  induction 1 as [|[c|text] pieces Hp _ IH]; simpl; [done| |by rewrite IH].
  by rewrite decide_True.
Qed.

(** X17.  [removeColorCodes] of [src/internal/logger/logger.go] takes the
    colour out of coloured text: for a text put together from the eleven
    colour codes and from pieces that hold no escape byte, in any number and
    order, it returns the pieces without the codes. *)
Theorem removeColorCodes_strips (pieces : list Piece) :
  Forall piece_ok pieces →
  logger.removeColorCodes (render pieces) = plain pieces.
Proof.
  intros Hp. unfold logger.removeColorCodes.
  rewrite replace_all_pieces; [by apply strips_all | | done].
  by apply Forall_forall.
Qed.

Lemma removeColorCodes_strips_witness :
  logger.removeColorCodes
    (logger.Cyan ++ "  " ++ dquote ++ "env" ++ dquote ++ logger.BoldWhite ++ ":"
     ++ logger.Green ++ " " ++ dquote ++ "pre" ++ dquote ++ logger.Reset)
  = "  " ++ dquote ++ "env" ++ dquote ++ ": " ++ dquote ++ "pre" ++ dquote.
Proof.
  refine (removeColorCodes_strips
            [Code logger.Cyan; Text ("  " ++ dquote ++ "env" ++ dquote);
             Code logger.BoldWhite; Text ":"; Code logger.Green;
             Text (" " ++ dquote ++ "pre" ++ dquote); Code logger.Reset] _).
  repeat constructor; apply (bool_decide_unpack _); by vm_compute.
Defined.

(** ** [FormatJSON] and [removeColorCodes] *)

Example more_strings_examples :
  strings.SplitN "a:b:c" strings.colon 2 = ["a"; "b:c"]
  ∧ strings.SplitN "abc" strings.colon 2 = ["abc"]
  ∧ strings.SplitN ":" strings.colon 2 = [""; ""]
  ∧ strings.HasSuffix "  {" "{" = true
  ∧ strings.HasSuffix "" "{" = false
  ∧ strings.Contains "a: 1" ":" = true
  ∧ strings.Contains "a" ":" = false.
Proof. split_and!; by vm_compute. Qed.

Example FormatJSON_example :
  logger.FormatJSON
    (inl ("{" ++ nl ++ "  " ++ dquote ++ "a" ++ dquote ++ ": 1" ++ nl ++ "}"))
  = logger.BoldWhite ++ "{" ++ logger.Reset ++ nl
    ++ logger.Cyan ++ "  " ++ dquote ++ "a" ++ dquote ++ logger.BoldWhite ++ ":"
    ++ logger.Yellow ++ " 1" ++ logger.Reset ++ nl
    ++ logger.BoldWhite ++ "}" ++ logger.Reset.
Proof. vm_compute. reflexivity. Qed.

Lemma append_nil_r (a : string) : a ++ "" = a.
Proof.
  induction a as [|x a IH]; [done|]. change (String x (a ++ "") = String x a). by rewrite IH.
Qed.

(** Joining the parts of a split with the separator gives the string back. *)
Lemma Join_Split (s : string) (c : ascii) :
  strings.Join (strings.Split s c) (String c "") = s.
Proof.
  induction s as [|x s IH]; [done|]. simpl.
  destruct (Ascii.eqb_spec x c) as [->|Hne].
  - destruct (strings.Split s c) as [|tok toks] eqn:E; [by apply Split_nonempty in E|].
    change (String c (strings.Join (tok :: toks) (String c "")) = String c s).
    by rewrite IH.
  - destruct (strings.Split s c) as [|tok toks] eqn:E; [by apply Split_nonempty in E|].
    rewrite <- IH. by destruct toks.
Qed.

Lemma Split_pieces (s : string) (c x : ascii) :
  x ∉ list_ascii_of_string s →
  Forall (λ line, x ∉ list_ascii_of_string line) (strings.Split s c).
Proof.
  induction s as [|y s IH]; simpl.
  - intros _. constructor; [apply not_elem_of_nil | constructor].
  - intros [Hy Hs]%not_elem_of_cons. specialize (IH Hs).
    destruct (Ascii.eqb y c).
    + constructor; [apply not_elem_of_nil | done].
    + destruct (strings.Split s c) as [|tok toks] eqn:E; [by apply Split_nonempty in E|].
      inversion IH as [|?? Htok Htoks]; subst. constructor; [|done].
      simpl. by apply not_elem_of_cons.
Qed.

Lemma cut_Some (s : string) (c : ascii) (before after : string) :
  strings.cut s c = Some (before, after) → s = before ++ String c after.
Proof.
  revert before. induction s as [|y s IH]; intros before; simpl; [done|].
  destruct (Ascii.eqb_spec y c) as [->|Hne].
  - by intros [= <- <-].
  - destruct (strings.cut s c) as [[b a]|]; [|done].
    intros [= <- <-]. by rewrite (IH b eq_refl).
Qed.

Lemma SplitN_two (s : string) (c : ascii) (key value : string) :
  strings.SplitN s c 2 = [key; value] → s = key ++ String c value.
Proof.
  simpl. destruct (strings.cut s c) as [[before after]|] eqn:E; [|done].
  intros [= <- <-]. by apply cut_Some.
Qed.

Lemma render_app (p q : list Piece) : render (p ++ q) = render p ++ render q.
Proof.
  induction p as [|[code|text] p IH]; [done|..]; simpl; rewrite IH;
    by rewrite string_app_assoc.
Qed.

Lemma plain_app (p q : list Piece) : plain (p ++ q) = plain p ++ plain q.
Proof.
  induction p as [|[code|text] p IH]; [done|..]; simpl; rewrite IH; [done|].
  by rewrite string_app_assoc.
Qed.

(** A coloured line is its text with colour codes put in. *)
Lemma colorLine_pieces (line : string) :
  "027"%char ∉ list_ascii_of_string line →
  ∃ pieces, Forall piece_ok pieces
            ∧ render pieces = logger.colorLine line ∧ plain pieces = line.
Proof.
  intros Hline.
  assert (logger.BoldWhite ∈ logger.colorCodes) as Hbw
    by (apply (bool_decide_unpack _); by vm_compute).
  assert (logger.Reset ∈ logger.colorCodes) as Hre
    by (apply (bool_decide_unpack _); by vm_compute).
  assert (logger.Cyan ∈ logger.colorCodes) as Hcy
    by (apply (bool_decide_unpack _); by vm_compute).
  assert (logger.Green ∈ logger.colorCodes) as Hgr
    by (apply (bool_decide_unpack _); by vm_compute).
  assert (logger.Yellow ∈ logger.colorCodes) as Hye
    by (apply (bool_decide_unpack _); by vm_compute).
  assert (∃ pieces, Forall piece_ok pieces
            ∧ render pieces = logger.BoldWhite ++ line ++ logger.Reset
            ∧ plain pieces = line) as Hbracket.
  { exists [Code logger.BoldWhite; Text line; Code logger.Reset].
    split_and!; [|simpl; by rewrite !append_nil_r..].
    repeat first [apply Forall_nil_2 | apply Forall_cons_2]; cbn [piece_ok]; assumption. }
  assert (∃ pieces, Forall piece_ok pieces ∧ render pieces = line ∧ plain pieces = line)
    as Hplain.
  { exists [Text line]. split_and!; [|simpl; by rewrite append_nil_r..].
    by apply Forall_cons_2; [|apply Forall_nil_2]. }
  unfold logger.colorLine. cbv zeta.
  destruct (_ || _); [done|]. destruct (_ || _); [done|].
  destruct (strings.Contains line ":"); [|done].
  destruct (strings.SplitN line strings.colon 2) as [|key [|value [|??]]] eqn:E;
    [done..| |done].
  apply SplitN_two in E. subst line.
  rewrite list_ascii_of_string_app in Hline.
  apply not_elem_of_app in Hline as [Hkey [_ Hvalue]%not_elem_of_cons].
  assert (∀ c, c ∈ logger.colorCodes →
            ∃ pieces, Forall piece_ok pieces
              ∧ render pieces
                = logger.Cyan ++ key ++ logger.BoldWhite ++ ":" ++ c ++ value ++ logger.Reset
              ∧ plain pieces = key ++ String strings.colon value) as Hpair.
  { intros c Hc.
    exists [Code logger.Cyan; Text key; Code logger.BoldWhite; Text ":"; Code c;
            Text value; Code logger.Reset].
    split_and!.
    - repeat first [apply Forall_nil_2 | apply Forall_cons_2]; cbn [piece_ok];
        first [assumption | apply (bool_decide_unpack _); by vm_compute].
    - simpl. by rewrite !append_nil_r.
    - simpl. by rewrite !append_nil_r. }
  destruct (strings.Contains value dquote); by apply Hpair.
Qed.

Lemma colorLines_pieces (lines : list string) :
  Forall (λ line, "027"%char ∉ list_ascii_of_string line) lines →
  ∃ pieces, Forall piece_ok pieces
            ∧ render pieces = strings.Join (logger.colorLine <$> lines) nl
            ∧ plain pieces = strings.Join lines nl.
Proof.
  induction 1 as [|line lines Hline _ (rest & Hrest & Hr & Hp)].
  - by exists [].
  - destruct (colorLine_pieces line Hline) as (pieces & Hok & Hrender & Hplain).
    destruct lines as [|line2 lines].
    + exists pieces. by split_and!.
    + exists (pieces ++ Text nl :: rest)%list. split_and!.
      * apply Forall_app. split; [done|]. constructor; [|done].
        cbn [piece_ok]. apply (bool_decide_unpack _). by vm_compute.
      * rewrite render_app. simpl. by rewrite Hrender, Hr.
      * rewrite plain_app. simpl. by rewrite Hplain, Hp.
Qed.

(** X18.  [removeColorCodes] undoes the colouring of [FormatJSON]: when
    [json.MarshalIndent] returned a text without escape bytes (it escapes
    control characters, so its output has none), stripping the coloured text
    gives that text back, whatever its lines look like. *)
Theorem removeColorCodes_undoes_FormatJSON (jsonStr : string) :
  "027"%char ∉ list_ascii_of_string jsonStr →
  logger.removeColorCodes (logger.FormatJSON (inl jsonStr)) = jsonStr.
Proof.
  intros Hs. unfold logger.FormatJSON.
  destruct (colorLines_pieces (strings.Split jsonStr strings.newline))
    as (pieces & Hok & <- & Hplain); [by apply Split_pieces|].
  unfold logger.removeColorCodes.
  rewrite replace_all_pieces; [|by apply Forall_forall | done].
  rewrite strips_all by done. rewrite Hplain. apply Join_Split.
Qed.

Lemma removeColorCodes_undoes_FormatJSON_witness :
  logger.removeColorCodes
    (logger.FormatJSON
       (inl ("{" ++ nl ++ "  " ++ dquote ++ "a" ++ dquote ++ ": 1" ++ nl ++ "}")))
  = "{" ++ nl ++ "  " ++ dquote ++ "a" ++ dquote ++ ": 1" ++ nl ++ "}".
Proof.
  apply removeColorCodes_undoes_FormatJSON.
  apply (bool_decide_unpack _). by vm_compute.
Defined.
